(** * go-archiver: a shallow embedding of the validation pipeline, the store
    bookkeeping, the Qx payload codec and the reverse asset-transaction reader.

    Every Go package that is modelled has a module of the same name; the
    definitions keep the names of the Go functions they embed. *)

From Stdlib Require Import ZArith List Lia Bool Ascii String.
From Stdlib.Strings Require Import Byte.
From stdpp Require Import base option list gmap strings sorting.

Local Open Scope Z_scope.

(** ** Go primitives: errors, fixed-width integers, bytes *)
Module Go.

(** [github.com/pkg/errors]: sentinel values, [errors.New]/[errors.Errorf]
    and [errors.Wrap]. *)
Inductive error : Type :=
  | EOF
  | ErrUnexpectedEOF
  | ErrNotFound
  | ErrNotValidTransaction
  | New (msg : string)
  | Errorf (format : string) (args : list Z)
  | Wrap (e : error) (msg : string).

#[global] Instance error_eq_dec : EqDecision error.
Proof. solve_decision. Defined.

(** [errors.Cause]: the innermost error of a chain of wraps. *)
Fixpoint Cause (e : error) : error :=
  match e with
  | Wrap e' _ => Cause e'
  | _ => e
  end.

(** A Go [(value, error)] result. *)
Inductive result (A : Type) : Type :=
  | Ok (a : A)
  | Err (e : error).
Arguments Ok {A} a.
Arguments Err {A} e.

Definition is_ok {A} (r : result A) : bool :=
  match r with Ok _ => true | Err _ => false end.

Definition rbind {A B} (r : result A) (k : A -> result B) : result B :=
  match r with
  | Ok a => k a
  | Err e => Err e
  end.

(** [r] with its error wrapped in [msg], as in
    [if err != nil { return nil, errors.Wrap(err, msg) }]. *)
Definition wrapping {A} (r : result A) (msg : string) : result A :=
  match r with
  | Ok a => Ok a
  | Err e => Err (Wrap e msg)
  end.

(** A computation over a state [S] that may fail; what it wrote before it
    failed stays written. *)
Definition M (S A : Type) : Type := S -> result A * S.

Definition mret {S A} (a : A) : M S A := fun s => (Ok a, s).

Definition mfail {S A} (e : error) : M S A := fun s => (Err e, s).

Definition mbind {S A B} (c : M S A) (k : A -> M S B) : M S B :=
  fun s =>
    match c s with
    | (Ok a, s') => k a s'
    | (Err e, s') => (Err e, s')
    end.

Definition lift {S A} (r : result A) : M S A := fun s => (r, s).

Definition modify {S} (f : S -> S) : M S unit := fun s => (Ok tt, f s).

(** [if err != nil { return errors.Wrap(err, msg) }] around a computation. *)
Definition wrapM {S A} (c : M S A) (msg : string) : M S A :=
  fun s => let (r, s') := c s in (wrapping r msg, s').

(** Conversions to the fixed-width integer types. *)
Definition uint16 (z : Z) : Z := z mod 2 ^ 16.
Definition uint32 (z : Z) : Z := z mod 2 ^ 32.
Definition uint64 (z : Z) : Z := z mod 2 ^ 64.
Definition int64 (z : Z) : Z := (z + 2 ^ 63) mod 2 ^ 64 - 2 ^ 63.

Definition is_uint32 (z : Z) : Prop := 0 <= z < 2 ^ 32.
Definition is_uint64 (z : Z) : Prop := 0 <= z < 2 ^ 64.
Definition is_int64 (z : Z) : Prop := - 2 ^ 63 <= z < 2 ^ 63.

(** [byte(v)] and [uint64(b)]. *)
Definition byte_of_Z (z : Z) : byte :=
  match Byte.of_N (Z.to_N (z mod 256)) with
  | Some b => b
  | None => x00
  end.

Definition Z_of_byte (b : byte) : Z := Z.of_N (Byte.to_N b).

#[global] Instance byte_eq_dec : EqDecision byte := Byte.byte_eq_dec.

#[global] Instance byte_countable : Countable byte :=
  inj_countable Byte.to_N Byte.of_N Byte.of_to_N.

(** [binary.LittleEndian.PutUintN]: [b[i] = byte(v >> (8*i))]. *)
Fixpoint le_bytes (n : nat) (v : Z) : list byte :=
  match n with
  | O => []
  | S k => byte_of_Z v :: le_bytes k (Z.shiftr v 8)
  end.

(** [binary.LittleEndian.UintN]: [uint(b[0]) | uint(b[1])<<8 | ...]. *)
Fixpoint le_value (bs : list byte) : Z :=
  match bs with
  | [] => 0
  | b :: rest => Z.lor (Z_of_byte b) (Z.shiftl (le_value rest) 8)
  end.

Definition PutUint64 (v : Z) : list byte := le_bytes 8 v.
Definition PutUint32 (v : Z) : list byte := le_bytes 4 v.

(** [bytes.Trim(s, cutset)] for a one-byte ASCII cutset is
    [trimLeftByte(trimRightByte(s, c), c)]. *)
Fixpoint trimLeftByte (s : list byte) (c : byte) : list byte :=
  match s with
  | [] => []
  | b :: rest => if Byte.eqb b c then trimLeftByte rest c else s
  end.

Definition trimRightByte (s : list byte) (c : byte) : list byte :=
  reverse (trimLeftByte (reverse s) c).

Definition Trim1 (s : list byte) (c : byte) : list byte :=
  trimLeftByte (trimRightByte s c) c.

(** [hex.EncodeToString]: two characters of [hextable] per byte,
    [hextable[v>>4]] then [hextable[v&0x0f]]. *)
Definition hextable : list ascii := list_ascii_of_string "0123456789abcdef".

Definition hexdigit (n : Z) : ascii :=
  nth (Z.to_nat n) hextable "0"%char.

Fixpoint EncodeToString (src : list byte) : string :=
  match src with
  | [] => EmptyString
  | v :: rest =>
    String (hexdigit (Z.shiftr (Z_of_byte v) 4))
      (String (hexdigit (Z.land (Z_of_byte v) 15)) (EncodeToString rest))
  end.

(** A [bytes.Reader] read of exactly [n] bytes ([io.ReadFull]): the bytes
    and the rest of the input, [EOF] when nothing is left, and
    [ErrUnexpectedEOF] when the input ends early. *)
Definition ReadFull (n : nat) (r : list byte) : result (list byte * list byte) :=
  if decide (n <= length r)%nat then Ok (take n r, drop n r)
  else if decide (length r = 0%nat) then Err EOF
  else Err ErrUnexpectedEOF.

(** [protowire.AppendVarint] of a [uint64]: seven bits to a byte, the
    lowest first, every byte but the last with its high bit set; ten bytes
    at most. *)
Fixpoint AppendVarint_loop (more : nat) (v : Z) : list byte :=
  match more with
  | O => [byte_of_Z v]
  | S k =>
    if decide (v < 128) then [byte_of_Z v]
    else byte_of_Z (Z.lor (Z.land v 127) 128) :: AppendVarint_loop k (Z.shiftr v 7)
  end.

Definition AppendVarint (v : Z) : list byte := AppendVarint_loop 9 v.

(** [errors.Is]: [target] is the error itself or one that it wraps. *)
Fixpoint Is (err target : error) : bool :=
  bool_decide (err = target) ||
  match err with
  | Wrap e _ => Is e target
  | _ => false
  end.

(** [encoding/hex]: the value of a hexadecimal character ([reverseHexTable];
    both cases of the letters), and [hex.DecodeString]. A character that
    is no hexadecimal digit is reported before an odd length. *)
Definition fromHexChar (c : ascii) : option Z :=
  let n := Z.of_N (N_of_ascii c) in
  if decide (48 <= n <= 57) then Some (n - 48)
  else if decide (97 <= n <= 102) then Some (n - 97 + 10)
  else if decide (65 <= n <= 70) then Some (n - 65 + 10)
  else None.

Definition InvalidByteError (c : ascii) : error :=
  Errorf "encoding/hex: invalid byte: %#U" [Z.of_N (N_of_ascii c)].

Definition ErrLength : error := New "encoding/hex: odd length hex string".

Fixpoint DecodeString (s : string) : result (list byte) :=
  match s with
  | EmptyString => Ok []
  | String p EmptyString =>
    match fromHexChar p with
    | None => Err (InvalidByteError p)
    | Some _ => Err ErrLength
    end
  | String p (String q rest) =>
    match fromHexChar p with
    | None => Err (InvalidByteError p)
    | Some a =>
      match fromHexChar q with
      | None => Err (InvalidByteError q)
      | Some b =>
        match DecodeString rest with
        | Ok dst => Ok (byte_of_Z (Z.lor (Z.shiftl a 4) b) :: dst)
        | Err e => Err e
        end
      end
    end
  end.

End Go.

Notation "x <- c ;; k" := (Go.rbind c (fun x => k))
  (at level 100, c at next level, right associativity).

(** ** [github.com/qubic/go-node-connector/types]: the node library.

    Its structs are given as records; its functions (identity text, K12
    digests, the send-many decoder) are collaborators the archiver calls
    as black boxes, so they are the fields of a class. *)
Module types.
Import Go.

(** [types.Identity]: the 60-character text of a public key. *)
Abbreviation Identity := string (only parsing).

Module Transaction.
Record t : Type := {
  SourcePublicKey : list byte;
  DestinationPublicKey : list byte;
  Amount : Z;
  Tick : Z;
  InputType : Z;
  InputSize : Z;
  Input : list byte;
  Signature : list byte }.
End Transaction.

Module TickData.
Record t : Type := {
  ComputorIndex : Z;
  Epoch : Z;
  Tick : Z;
  Timestamp : Z;
  TransactionDigests : list (list byte);
  Signature : list byte }.
End TickData.

Module SendManyTransfer.
Record t : Type := {
  AddressID : Identity;
  Amount : Z }.
End SendManyTransfer.

Class Connector : Type := {
  (** [Identity.FromPubKey(pubKey, isLowerCase)] *)
  FromPubKey : list byte -> bool -> result Identity;
  (** [Transaction.Digest()], [Transaction.ID()], [Transaction.MarshallBinary()] *)
  Digest : Transaction.t -> result (list byte);
  ID : Transaction.t -> result string;
  MarshallBinary : Transaction.t -> result (list byte);
  (** [utils.K12Hash] *)
  K12Hash : list byte -> result (list byte);
  (** [types.SendManyTransferPayload] with [UnmarshallBinary],
      [GetTransfers] and [GetTotalAmount] *)
  SendManyTransferPayload : Type;
  SendMany_UnmarshallBinary : list byte -> result SendManyTransferPayload;
  GetTransfers : SendManyTransferPayload -> result (list SendManyTransfer.t);
  GetTotalAmount : SendManyTransferPayload -> Z;
  (** [types.QutilAddress] *)
  QutilAddress : string }.

End types.

(** ** Package [qx]: the payload of an asset-ownership transfer *)
Module qx.
Import Go.

Module QxTransferAssetOwnershipAndPossessionInput.
Record t : Type := {
  Issuer : list byte;
  NewOwnerAndPossessor : list byte;
  AssetName : Z;
  NumberOfUnits : Z }.

(** What the Go type guarantees of a value: two [[32]byte] arrays, a
    [uint64] and an [int64]. *)
Definition well_typed (x : t) : Prop :=
  length (Issuer x) = 32%nat /\ length (NewOwnerAndPossessor x) = 32%nat /\
  is_uint64 (AssetName x) /\ is_int64 (NumberOfUnits x).
End QxTransferAssetOwnershipAndPossessionInput.

Module QxTransferAssetPayload.
Record t : Type := {
  Issuer : types.Identity;
  DestId : types.Identity;
  AssetName : string;
  Amount : Z }.
End QxTransferAssetPayload.

Import QxTransferAssetOwnershipAndPossessionInput.

(** [Uint64ToString]: the eight little-endian bytes of [value], trimmed
    with [bytes.Trim(buf, "\x00")], as a string. *)
Definition Uint64ToString (value : Z) : string :=
  let buf := PutUint64 value in
  let buf := Trim1 buf x00 in
  string_of_list_byte buf.

Definition GetAssetTransfer `{types.Connector} (input : t)
  : result QxTransferAssetPayload.t :=
  issuerId <- wrapping (types.FromPubKey (Issuer input) false)
                       "getting issuer identity from bytes" ;;
  newOwnerAndPossessorId <-
    wrapping (types.FromPubKey (NewOwnerAndPossessor input) false)
             "getting newOwnerAndPossessor identity from bytes" ;;
  Ok {| QxTransferAssetPayload.Issuer := issuerId;
        QxTransferAssetPayload.DestId := newOwnerAndPossessorId;
        QxTransferAssetPayload.AssetName := Uint64ToString (AssetName input);
        QxTransferAssetPayload.Amount := NumberOfUnits input |}.

(** [MarshalBinary]: four [binary.Write]s into a [bytes.Buffer], which
    cannot fail for fixed-size data. *)
Definition MarshalBinary (x : t) : result (list byte) :=
  Ok (Issuer x ++ NewOwnerAndPossessor x ++
      PutUint64 (AssetName x) ++ PutUint64 (uint64 (NumberOfUnits x))).

(** [UnmarshalBinary] fills the receiver field by field; a failed read
    returns with the fields read so far already assigned. *)
Definition UnmarshalBinary (x : t) (data : list byte) : t * option error :=
  match ReadFull 32 data with
  | Err e => (x, Some (Wrap e "reading issuer"))
  | Ok (b, reader) =>
    let x := {| Issuer := b; NewOwnerAndPossessor := NewOwnerAndPossessor x;
                AssetName := AssetName x; NumberOfUnits := NumberOfUnits x |} in
    match ReadFull 32 reader with
    | Err e => (x, Some (Wrap e "reading new owner and possessor"))
    | Ok (b, reader) =>
      let x := {| Issuer := Issuer x; NewOwnerAndPossessor := b;
                  AssetName := AssetName x; NumberOfUnits := NumberOfUnits x |} in
      match ReadFull 8 reader with
      | Err e => (x, Some (Wrap e "reading asset name"))
      | Ok (b, reader) =>
        let x := {| Issuer := Issuer x; NewOwnerAndPossessor := NewOwnerAndPossessor x;
                    AssetName := le_value b; NumberOfUnits := NumberOfUnits x |} in
        match ReadFull 8 reader with
        | Err e => (x, Some (Wrap e "reading number of units"))
        | Ok (b, reader) =>
          ({| Issuer := Issuer x; NewOwnerAndPossessor := NewOwnerAndPossessor x;
              AssetName := AssetName x; NumberOfUnits := int64 (le_value b) |}, None)
        end
      end
    end
  end.

(** The zero value a Go [var] declaration gives the struct. *)
Definition zero : t :=
  {| Issuer := replicate 32 x00; NewOwnerAndPossessor := replicate 32 x00;
     AssetName := 0; NumberOfUnits := 0 |}.

(** Following the words of the specification: the bytes of the name with
    only the trailing zero bytes removed. *)
Definition Uint64ToString_trailing (value : Z) : string :=
  string_of_list_byte (trimRightByte (PutUint64 value) x00).

End qx.

(** ** Package [protobuff]: the records that are persisted and served *)
Module protobuff.

Module Transaction.
Record t : Type := {
  SourceId : string;
  DestId : string;
  Amount : Z;
  TickNumber : Z;
  InputType : Z;
  InputSize : Z;
  InputHex : string;
  SignatureHex : string;
  TxId : string }.
#[global] Instance eq_dec : EqDecision t.
Proof. solve_decision. Defined.
End Transaction.

Module SendManyTransfer.
Record t : Type := {
  DestId : string;
  Amount : Z }.
End SendManyTransfer.

Module SendManyTransaction.
Record t : Type := {
  SourceId : string;
  Transfers : list SendManyTransfer.t;
  TotalAmount : Z;
  TickNumber : Z;
  TxId : string;
  SignatureHex : string }.
End SendManyTransaction.

Module QxAssetTransferDB.
Record t : Type := {
  SourceId : string;
  DestId : string;
  Amount : Z;
  TxId : string }.
End QxAssetTransferDB.

Module TransferTransactionsPerTick.
Record t : Type := {
  TickNumber : Z;
  Identity : string;
  Transactions : list Transaction.t }.
End TransferTransactionsPerTick.

Module TickData.
Record t : Type := {
  ComputorIndex : Z;
  Epoch : Z;
  TickNumber : Z;
  Timestamp : Z;
  TransactionIds : list string;
  SignatureHex : string }.
End TickData.

Module TransactionStatus.
Record t : Type := {
  TxId : string;
  MoneyFlew : bool }.
End TransactionStatus.

Module ProcessedTick.
Record t : Type := {
  TickNumber : Z;
  Epoch : Z }.

(** [proto.Marshal] of the message, in the wire format of protocol
    buffers: a [uint32] field that is not zero is written as its tag (the
    number of the field shifted by three bits; the wire type of a varint is
    0) followed by its varint, and a field that is zero is left out. The
    generated code of the message is not among the sources; the fields are
    numbered 1 and 2 in the order of the struct. *)
Definition Marshal (m : t) : list Byte.byte :=
  (if decide (TickNumber m = 0) then []
   else Byte.x08 :: Go.AppendVarint (TickNumber m)) ++
  (if decide (Epoch m = 0) then []
   else Byte.x10 :: Go.AppendVarint (Epoch m)).
End ProcessedTick.

Module ProcessedTickInterval.
Record t : Type := {
  InitialProcessedTick : Z;
  LastProcessedTick : Z }.
End ProcessedTickInterval.

Module ProcessedTickIntervalsPerEpoch.
Record t : Type := {
  Epoch : Z;
  Intervals : list ProcessedTickInterval.t }.
End ProcessedTickIntervalsPerEpoch.

Module AssetTransactionsPerTickDB.
Record t : Type := {
  Transactions : list string }.
End AssetTransactionsPerTickDB.

End protobuff.

(** ** Package [asset_transactions]: the classifier *)
Module asset_transactions.
Import Go.

Definition NATIVE_QUBIC_ASSET_ISSUER : string := "0".
Definition NATIVE_QUBIC_ASSET_NAME : string := "0".
Definition SMART_CONTRACT_QX : string :=
  "BAAAAAAAAAAAAAAAAAAAAAAAAAAAAAAAAAAAAAAAAAAAAAAAAAAAAAAARMID".
Definition SMART_CONTRACT_QUTIL : string :=
  "EAAAAAAAAAAAAAAAAAAAAAAAAAAAAAAAAAAAAAAAAAAAAAAAAAAAAAAAVWRF".

Module TransactionCurrency.
Record t : Type := {
  AssetIssuer : string;
  AssetName : string }.
End TransactionCurrency.

Module TransactionIdParticipantsAndCurrency.
Record t : Type := {
  TxId : string;
  Currency : TransactionCurrency.t;
  Identities : list string }.
End TransactionIdParticipantsAndCurrency.

Module LeanTransaction.
Record t : Type := {
  SourceId : string;
  DestId : string;
  TxId : string;
  InputType : Z;
  Input : list byte }.
End LeanTransaction.

Module TransactionWithAssetPayload.
Record t : Type := {
  Transaction : LeanTransaction.t;
  (** a Qx asset-transfer payload, or nil *)
  QxTransferAssetPayload : option qx.QxTransferAssetPayload.t;
  (** a send-many payload, or nil *)
  SendManyTransaction : option protobuff.SendManyTransaction.t }.
End TransactionWithAssetPayload.

Section Classifier.
Context `{types.Connector}.

(** [InputType] is widened from [uint16] to [uint32], which keeps its
    value. *)
Definition txToLeanTransaction (tx : types.Transaction.t)
  : result LeanTransaction.t :=
  digest <- wrapping (types.Digest tx) "getting tx digest" ;;
  txID <- wrapping (types.FromPubKey digest true) "getting tx id" ;;
  sourceID <- wrapping (types.FromPubKey (types.Transaction.SourcePublicKey tx) false)
                       "getting source id" ;;
  destID <- wrapping (types.FromPubKey (types.Transaction.DestinationPublicKey tx) false)
                     "getting dest id" ;;
  Ok {| LeanTransaction.SourceId := sourceID;
        LeanTransaction.DestId := destID;
        LeanTransaction.InputType := types.Transaction.InputType tx;
        LeanTransaction.TxId := txID;
        LeanTransaction.Input := types.Transaction.Input tx |}.

(** The send-many case of [ParseAssetTransaction]. *)
Definition parseSendMany (tx : types.Transaction.t) (transaction : LeanTransaction.t)
  : result TransactionWithAssetPayload.t :=
  if decide (LeanTransaction.DestId transaction <> types.QutilAddress)
  then Err ErrNotValidTransaction
  else
    match types.SendMany_UnmarshallBinary (types.Transaction.Input tx) with
    | Err _ => Err ErrNotValidTransaction
    | Ok sendManyPayload =>
      match types.GetTransfers sendManyPayload with
      | Err _ => Err ErrNotValidTransaction
      | Ok transfers =>
        let sendManyTransfers :=
          map (fun transfer =>
                 {| protobuff.SendManyTransfer.DestId := types.SendManyTransfer.AddressID transfer;
                    protobuff.SendManyTransfer.Amount := types.SendManyTransfer.Amount transfer |})
              transfers in
        let sendManyTransaction :=
          {| protobuff.SendManyTransaction.SourceId := LeanTransaction.SourceId transaction;
             protobuff.SendManyTransaction.Transfers := sendManyTransfers;
             protobuff.SendManyTransaction.TotalAmount := types.GetTotalAmount sendManyPayload;
             protobuff.SendManyTransaction.TickNumber := types.Transaction.Tick tx;
             protobuff.SendManyTransaction.TxId := LeanTransaction.TxId transaction;
             protobuff.SendManyTransaction.SignatureHex := "" |} in
        Ok {| TransactionWithAssetPayload.Transaction := transaction;
              TransactionWithAssetPayload.QxTransferAssetPayload := None;
              TransactionWithAssetPayload.SendManyTransaction := Some sendManyTransaction |}
      end
    end.

(** The transfer-asset-share case of [ParseAssetTransaction]. *)
Definition parseTransferShare (tx : types.Transaction.t) (transaction : LeanTransaction.t)
  : result TransactionWithAssetPayload.t :=
  match qx.UnmarshalBinary qx.zero (types.Transaction.Input tx) with
  | (_, Some _) => Err ErrNotValidTransaction
  | (transferAssetOwnershipAndPossessionInput, None) =>
    match qx.GetAssetTransfer transferAssetOwnershipAndPossessionInput with
    | Err _ => Err ErrNotValidTransaction
    | Ok transferPayload =>
      Ok {| TransactionWithAssetPayload.Transaction := transaction;
            TransactionWithAssetPayload.QxTransferAssetPayload := Some transferPayload;
            TransactionWithAssetPayload.SendManyTransaction := None |}
    end
  end.

Definition ParseAssetTransaction (tx : types.Transaction.t)
  : result TransactionWithAssetPayload.t :=
  transaction <- wrapping (txToLeanTransaction tx) "converting to proto" ;;
  if decide (types.Transaction.InputType tx = 0) then
    Ok {| TransactionWithAssetPayload.Transaction := transaction;
          TransactionWithAssetPayload.QxTransferAssetPayload := None;
          TransactionWithAssetPayload.SendManyTransaction := None |}
  else if decide (LeanTransaction.DestId transaction = SMART_CONTRACT_QUTIL) then
    if decide (types.Transaction.InputType tx = 1)
    then parseSendMany tx transaction
    else Err ErrNotValidTransaction
  else if decide (LeanTransaction.DestId transaction = SMART_CONTRACT_QX) then
    if decide (types.Transaction.InputType tx = 2)
    then parseTransferShare tx transaction
    else Err ErrNotValidTransaction
  else Err ErrNotValidTransaction.

End Classifier.

(** [result = append(result, id)] guarded by the [seen] map. *)
Definition add_participant (id : string) (acc : list string * gset string)
  : list string * gset string :=
  let '(result, seen) := acc in
  if decide (id ∈ seen) then acc else (result ++ [id], {[ id ]} ∪ seen).

(** All identities involved in a transaction. *)
Definition findTransactionParticipants (tx : TransactionWithAssetPayload.t)
  : result (list string) :=
  let transaction := TransactionWithAssetPayload.Transaction tx in
  let start : list string * gset string := ([], ∅) in
  if decide (LeanTransaction.InputType transaction = 0) then
    Ok (add_participant (LeanTransaction.DestId transaction)
          (add_participant (LeanTransaction.SourceId transaction) start)).1
  else if decide (LeanTransaction.DestId transaction = SMART_CONTRACT_QUTIL) then
    if decide (LeanTransaction.InputType transaction = 1) then
      match TransactionWithAssetPayload.SendManyTransaction tx with
      | None => Err (New "send many payload is nil")
      | Some sendMany =>
        Ok (foldl (fun acc transfer =>
                     add_participant (protobuff.SendManyTransfer.DestId transfer) acc)
                  (add_participant (protobuff.SendManyTransaction.SourceId sendMany) start)
                  (protobuff.SendManyTransaction.Transfers sendMany)).1
      end
    else Ok []
  else if decide (LeanTransaction.DestId transaction = SMART_CONTRACT_QX) then
    if decide (LeanTransaction.InputType transaction = 2) then
      match TransactionWithAssetPayload.QxTransferAssetPayload tx with
      | None => Err (New "qx transfer asset payload is nil")
      | Some payload =>
        Ok (add_participant (qx.QxTransferAssetPayload.DestId payload)
              (add_participant (LeanTransaction.SourceId transaction) start)).1
      end
    else Ok []
  else Ok [].

Definition findTransactionCurrency (tx : TransactionWithAssetPayload.t)
  : result TransactionCurrency.t :=
  let transaction := TransactionWithAssetPayload.Transaction tx in
  if decide (LeanTransaction.InputType transaction = 0) then
    Ok {| TransactionCurrency.AssetIssuer := NATIVE_QUBIC_ASSET_ISSUER;
          TransactionCurrency.AssetName := NATIVE_QUBIC_ASSET_NAME |}
  else if decide (LeanTransaction.DestId transaction = SMART_CONTRACT_QUTIL) then
    if decide (LeanTransaction.InputType transaction = 1) then
      match TransactionWithAssetPayload.SendManyTransaction tx with
      | None => Err (New "send many payload is nil")
      | Some _ =>
        Ok {| TransactionCurrency.AssetIssuer := NATIVE_QUBIC_ASSET_ISSUER;
              TransactionCurrency.AssetName := NATIVE_QUBIC_ASSET_NAME |}
      end
    else Err ErrNotValidTransaction
  else if decide (LeanTransaction.DestId transaction = SMART_CONTRACT_QX) then
    if decide (LeanTransaction.InputType transaction = 2) then
      match TransactionWithAssetPayload.QxTransferAssetPayload tx with
      | None => Err (New "qx transfer asset payload is nil")
      | Some payload =>
        Ok {| TransactionCurrency.AssetIssuer := qx.QxTransferAssetPayload.Issuer payload;
              TransactionCurrency.AssetName := qx.QxTransferAssetPayload.AssetName payload |}
      end
    else Err ErrNotValidTransaction
  else Err ErrNotValidTransaction.

(** The error a caller sees: [ErrNotValidTransaction] as it is, anything
    else wrapped. *)
Definition wrap_unless_not_valid {A} (r : result A) (msg : string) : result A :=
  match r with
  | Ok a => Ok a
  | Err ErrNotValidTransaction => Err ErrNotValidTransaction
  | Err e => Err (Wrap e msg)
  end.

Definition FindTransactionIdParticipantsAndCurrency (tx : TransactionWithAssetPayload.t)
  : result TransactionIdParticipantsAndCurrency.t :=
  participants <- wrap_unless_not_valid (findTransactionParticipants tx) "reading participants" ;;
  currency <- wrap_unless_not_valid (findTransactionCurrency tx) "reading currency" ;;
  Ok {| TransactionIdParticipantsAndCurrency.TxId :=
          LeanTransaction.TxId (TransactionWithAssetPayload.Transaction tx);
        TransactionIdParticipantsAndCurrency.Currency := currency;
        TransactionIdParticipantsAndCurrency.Identities := participants |}.

End asset_transactions.

(** ** Package [store]: the Pebble key-value store

    The key codec is not part of the sources read here, so the keyspace is
    modelled from the spec: one finite map per one-byte prefix of section
    4.1, keyed by the decoded tail of the key (epoch, tick, identity and
    asset id; the digest of a transaction under [TickTx], for which the
    codec is asked and can refuse, and the id of a transaction under
    [TxStatus]). Values keep the form the store functions give them: a
    record for a framed message, raw bytes for the little-endian counters.
    Pebble and the message framework are taken as reliable: a [Set] or a
    [Commit] does not fail, [proto.Marshal] does not fail, and
    [proto.Unmarshal] gives back the record that was written. *)
Module store.
Import Go.

Definition maxTickNumber : Z := 2 ^ 64 - 1.

(** [types.Computors] and [types.QuorumTickData] as the validators hand
    them to the store. *)
Module Computors.
Record t : Type := {
  Epoch : Z;
  PubKeys : list (list byte);
  Signature : list byte }.
End Computors.

Module QuorumTickData.
Record t : Type := {
  ComputorIndex : Z;
  Epoch : Z;
  Tick : Z;
  TxDigest : list byte;
  Signature : list byte }.
End QuorumTickData.

(** The key codec: [tickTxKey] makes the key of a transaction out of the
    text of its id, and it is the one function of the codec that can fail.
    It is called as a black box, like the functions of the node library. *)
Class KeyCodec : Type := {
  tickTxKey : string -> result (list byte) }.

(** The value under [LastProcessedTick]: the eight little-endian bytes of
    a tick number in the old format, and otherwise the bytes that
    [proto.Marshal] makes of a [ProcessedTick]. *)
Inductive LastProcessedTickValue : Type :=
  | Legacy (tickNumber : Z)
  | Framed (lpt : protobuff.ProcessedTick.t).

Definition value_bytes (stored : LastProcessedTickValue) : list byte :=
  match stored with
  | Legacy tickNumber => PutUint64 tickNumber
  | Framed lpt => protobuff.ProcessedTick.Marshal lpt
  end.

Record PebbleStore : Type := {
  tickData : gmap Z protobuff.TickData.t;
  quorumData : gmap Z (list QuorumTickData.t);
  computors : gmap Z Computors.t;
  tickTx : gmap (list byte) protobuff.Transaction.t;
  txStatus : gmap string protobuff.TransactionStatus.t;
  lastProcessedTick : option LastProcessedTickValue;
  lastProcessedTickPerEpoch : gmap Z (list byte);
  identityTransferTxs : gmap (string * Z) protobuff.TransferTransactionsPerTick.t;
  processedTickIntervals : gmap Z protobuff.ProcessedTickIntervalsPerEpoch.t;
  emptyTicksPerEpoch : gmap Z (list byte);
  qxIdentityAssetTransfers :
    gmap (string * string * Z) protobuff.AssetTransactionsPerTickDB.t }.

Definition empty : PebbleStore :=
  {| tickData := ∅; quorumData := ∅; computors := ∅; tickTx := ∅; txStatus := ∅;
     lastProcessedTick := None; lastProcessedTickPerEpoch := ∅;
     identityTransferTxs := ∅; processedTickIntervals := ∅;
     emptyTicksPerEpoch := ∅; qxIdentityAssetTransfers := ∅ |}.

(** Field updates. *)
Definition with_tickData (f : gmap Z protobuff.TickData.t -> gmap Z protobuff.TickData.t)
  (s : PebbleStore) : PebbleStore :=
  {| tickData := f (tickData s); quorumData := quorumData s; computors := computors s;
     tickTx := tickTx s; txStatus := txStatus s;
     lastProcessedTick := lastProcessedTick s;
     lastProcessedTickPerEpoch := lastProcessedTickPerEpoch s;
     identityTransferTxs := identityTransferTxs s;
     processedTickIntervals := processedTickIntervals s;
     emptyTicksPerEpoch := emptyTicksPerEpoch s;
     qxIdentityAssetTransfers := qxIdentityAssetTransfers s |}.

Definition with_quorumData
  (f : gmap Z (list QuorumTickData.t) -> gmap Z (list QuorumTickData.t))
  (s : PebbleStore) : PebbleStore :=
  {| tickData := tickData s; quorumData := f (quorumData s); computors := computors s;
     tickTx := tickTx s; txStatus := txStatus s;
     lastProcessedTick := lastProcessedTick s;
     lastProcessedTickPerEpoch := lastProcessedTickPerEpoch s;
     identityTransferTxs := identityTransferTxs s;
     processedTickIntervals := processedTickIntervals s;
     emptyTicksPerEpoch := emptyTicksPerEpoch s;
     qxIdentityAssetTransfers := qxIdentityAssetTransfers s |}.

Definition with_computors (f : gmap Z Computors.t -> gmap Z Computors.t)
  (s : PebbleStore) : PebbleStore :=
  {| tickData := tickData s; quorumData := quorumData s; computors := f (computors s);
     tickTx := tickTx s; txStatus := txStatus s;
     lastProcessedTick := lastProcessedTick s;
     lastProcessedTickPerEpoch := lastProcessedTickPerEpoch s;
     identityTransferTxs := identityTransferTxs s;
     processedTickIntervals := processedTickIntervals s;
     emptyTicksPerEpoch := emptyTicksPerEpoch s;
     qxIdentityAssetTransfers := qxIdentityAssetTransfers s |}.

Definition with_tickTx
  (f : gmap (list byte) protobuff.Transaction.t -> gmap (list byte) protobuff.Transaction.t)
  (s : PebbleStore) : PebbleStore :=
  {| tickData := tickData s; quorumData := quorumData s; computors := computors s;
     tickTx := f (tickTx s); txStatus := txStatus s;
     lastProcessedTick := lastProcessedTick s;
     lastProcessedTickPerEpoch := lastProcessedTickPerEpoch s;
     identityTransferTxs := identityTransferTxs s;
     processedTickIntervals := processedTickIntervals s;
     emptyTicksPerEpoch := emptyTicksPerEpoch s;
     qxIdentityAssetTransfers := qxIdentityAssetTransfers s |}.

Definition with_lastProcessedTick
  (v : option LastProcessedTickValue) (perEpoch : gmap Z (list byte) -> gmap Z (list byte))
  (s : PebbleStore) : PebbleStore :=
  {| tickData := tickData s; quorumData := quorumData s; computors := computors s;
     tickTx := tickTx s; txStatus := txStatus s;
     lastProcessedTick := v;
     lastProcessedTickPerEpoch := perEpoch (lastProcessedTickPerEpoch s);
     identityTransferTxs := identityTransferTxs s;
     processedTickIntervals := processedTickIntervals s;
     emptyTicksPerEpoch := emptyTicksPerEpoch s;
     qxIdentityAssetTransfers := qxIdentityAssetTransfers s |}.

Definition with_identityTransferTxs
  (f : gmap (string * Z) protobuff.TransferTransactionsPerTick.t ->
       gmap (string * Z) protobuff.TransferTransactionsPerTick.t)
  (s : PebbleStore) : PebbleStore :=
  {| tickData := tickData s; quorumData := quorumData s; computors := computors s;
     tickTx := tickTx s; txStatus := txStatus s;
     lastProcessedTick := lastProcessedTick s;
     lastProcessedTickPerEpoch := lastProcessedTickPerEpoch s;
     identityTransferTxs := f (identityTransferTxs s);
     processedTickIntervals := processedTickIntervals s;
     emptyTicksPerEpoch := emptyTicksPerEpoch s;
     qxIdentityAssetTransfers := qxIdentityAssetTransfers s |}.

Definition with_processedTickIntervals
  (f : gmap Z protobuff.ProcessedTickIntervalsPerEpoch.t ->
       gmap Z protobuff.ProcessedTickIntervalsPerEpoch.t)
  (s : PebbleStore) : PebbleStore :=
  {| tickData := tickData s; quorumData := quorumData s; computors := computors s;
     tickTx := tickTx s; txStatus := txStatus s;
     lastProcessedTick := lastProcessedTick s;
     lastProcessedTickPerEpoch := lastProcessedTickPerEpoch s;
     identityTransferTxs := identityTransferTxs s;
     processedTickIntervals := f (processedTickIntervals s);
     emptyTicksPerEpoch := emptyTicksPerEpoch s;
     qxIdentityAssetTransfers := qxIdentityAssetTransfers s |}.

Definition with_emptyTicksPerEpoch (f : gmap Z (list byte) -> gmap Z (list byte))
  (s : PebbleStore) : PebbleStore :=
  {| tickData := tickData s; quorumData := quorumData s; computors := computors s;
     tickTx := tickTx s; txStatus := txStatus s;
     lastProcessedTick := lastProcessedTick s;
     lastProcessedTickPerEpoch := lastProcessedTickPerEpoch s;
     identityTransferTxs := identityTransferTxs s;
     processedTickIntervals := processedTickIntervals s;
     emptyTicksPerEpoch := f (emptyTicksPerEpoch s);
     qxIdentityAssetTransfers := qxIdentityAssetTransfers s |}.

Definition with_qxIdentityAssetTransfers
  (f : gmap (string * string * Z) protobuff.AssetTransactionsPerTickDB.t ->
       gmap (string * string * Z) protobuff.AssetTransactionsPerTickDB.t)
  (s : PebbleStore) : PebbleStore :=
  {| tickData := tickData s; quorumData := quorumData s; computors := computors s;
     tickTx := tickTx s; txStatus := txStatus s;
     lastProcessedTick := lastProcessedTick s;
     lastProcessedTickPerEpoch := lastProcessedTickPerEpoch s;
     identityTransferTxs := identityTransferTxs s;
     processedTickIntervals := processedTickIntervals s;
     emptyTicksPerEpoch := emptyTicksPerEpoch s;
     qxIdentityAssetTransfers := f (qxIdentityAssetTransfers s) |}.

(** [db.Get] with [pebble.ErrNotFound] turned into [ErrNotFound]. *)
Definition get {K V} `{Countable K} (m : gmap K V) (key : K) : result V :=
  match m !! key with
  | Some value => Ok value
  | None => Err ErrNotFound
  end.

Definition GetTickData (s : PebbleStore) (tickNumber : Z) : result protobuff.TickData.t :=
  get (tickData s) tickNumber.

Definition SetTickData (tickNumber : Z) (td : protobuff.TickData.t) (s : PebbleStore)
  : PebbleStore :=
  with_tickData (insert tickNumber td) s.

Definition SetQuorumTickData (tickNumber : Z) (qtd : list QuorumTickData.t)
  (s : PebbleStore) : PebbleStore :=
  with_quorumData (insert tickNumber qtd) s.

Definition GetComputors (s : PebbleStore) (epoch : Z) : result Computors.t :=
  get (computors s) epoch.

Definition SetComputors (epoch : Z) (comps : Computors.t) (s : PebbleStore)
  : PebbleStore :=
  with_computors (insert epoch comps) s.

(** The loop of [SetTransactions]: one [batch.Set] per transaction, under
    the key of its id; the batch, in the order of its writes. *)
Fixpoint SetTransactions_batch {codec : KeyCodec} (txs : list protobuff.Transaction.t)
  : result (list (list byte * protobuff.Transaction.t)) :=
  match txs with
  | [] => Ok []
  | tx :: rest =>
    key <- wrapping (tickTxKey (protobuff.Transaction.TxId tx))
                    "creating tx key for id: %s" ;;
    batch <- SetTransactions_batch rest ;;
    Ok ((key, tx) :: batch)
  end.

(** The batch is committed once every transaction has its key: when the
    codec refuses an id, nothing of the batch is written. *)
Definition SetTransactions {codec : KeyCodec} (txs : list protobuff.Transaction.t)
  : M PebbleStore unit :=
  fun s =>
    match SetTransactions_batch txs with
    | Ok batch =>
      (Ok tt, with_tickTx (fun m => foldl (fun m '(key, tx) => <[key := tx]> m) m batch) s)
    | Err err => (Err err, s)
    end.

Definition GetTransaction {codec : KeyCodec} (s : PebbleStore) (txID : string)
  : result protobuff.Transaction.t :=
  key <- wrapping (tickTxKey txID) "getting tx key" ;;
  get (tickTx s) key.

Definition GetTransactionStatus (s : PebbleStore) (txID : string)
  : result protobuff.TransactionStatus.t :=
  get (txStatus s) txID.

(** The iterator of [GetLastProcessedTicksPerEpoch] runs from the prefix
    to the prefix followed by the decimal text of [maxTickNumber]; against
    four big-endian epoch bytes that bound admits the epochs up to
    0x31383434. *)
Definition GetLastProcessedTicksPerEpoch (s : PebbleStore) : gmap Z Z :=
  list_to_map
    (omap (fun '(epochNumber, value) =>
             if decide (0 <= epochNumber <= 825766964)
             then Some (epochNumber, le_value (take 4 value))
             else None)
          (map_to_list (lastProcessedTickPerEpoch s))).

(** [proto.Unmarshal] of the stored bytes: the record that
    [proto.Marshal] was given. [GetLastProcessedTick] calls it on a value
    that is not eight bytes long, which the value of the old format never
    is. *)
Definition unmarshal_lpt (stored : LastProcessedTickValue)
  : result protobuff.ProcessedTick.t :=
  match stored with
  | Framed lpt => Ok lpt
  | Legacy _ => Err (New "proto: cannot parse invalid wire-format data")
  end.

(** A value of eight bytes is taken for the old format, whatever wrote
    it. The old format carries no epoch: it is looked up as an epoch whose
    last tick is this one (Go ranges over the map in no fixed order; the
    first hit of [map_to_list] stands for it), 0 when there is none. *)
Definition GetLastProcessedTick (s : PebbleStore) : result protobuff.ProcessedTick.t :=
  match lastProcessedTick s with
  | None => Err ErrNotFound
  | Some stored =>
    let value := value_bytes stored in
    if decide (length value = 8%nat) then
      let tickNumber := uint32 (le_value value) in
      let ticksPerEpoch := GetLastProcessedTicksPerEpoch s in
      let epoch :=
        match List.find (fun '(e, tick) => bool_decide (tick = tickNumber))
                        (map_to_list ticksPerEpoch) with
        | Some (e, _) => e
        | None => 0
        end in
      Ok {| protobuff.ProcessedTick.TickNumber := tickNumber;
            protobuff.ProcessedTick.Epoch := epoch |}
    else wrapping (unmarshal_lpt stored) "unmarshalling lpt to protobuff type"
  end.

Definition getProcessedTickIntervalsPerEpoch (s : PebbleStore) (epoch : Z)
  : protobuff.ProcessedTickIntervalsPerEpoch.t :=
  match processedTickIntervals s !! epoch with
  | Some ptie => ptie
  | None => {| protobuff.ProcessedTickIntervalsPerEpoch.Intervals := [];
               protobuff.ProcessedTickIntervalsPerEpoch.Epoch := epoch |}
  end.

Definition SetProcessedTickIntervalPerEpoch (epoch : Z)
  (ptie : protobuff.ProcessedTickIntervalsPerEpoch.t) (s : PebbleStore) : PebbleStore :=
  with_processedTickIntervals (insert epoch ptie) s.

(** [l[len(l)-1].LastProcessedTick = tick] *)
Definition set_last_LastProcessedTick (tick : Z)
  (l : list protobuff.ProcessedTickInterval.t) : list protobuff.ProcessedTickInterval.t :=
  alter (fun i => {| protobuff.ProcessedTickInterval.InitialProcessedTick :=
                       protobuff.ProcessedTickInterval.InitialProcessedTick i;
                     protobuff.ProcessedTickInterval.LastProcessedTick := tick |})
        (pred (length l)) l.

Definition SetLastProcessedTick (lastProcessedTick : protobuff.ProcessedTick.t)
  (s : PebbleStore) : PebbleStore :=
  let epoch := protobuff.ProcessedTick.Epoch lastProcessedTick in
  let tickNumber := protobuff.ProcessedTick.TickNumber lastProcessedTick in
  (* one batch: the per-epoch value and the global record *)
  let s := with_lastProcessedTick (Some (Framed lastProcessedTick))
             (insert epoch (PutUint32 tickNumber)) s in
  let ptie := getProcessedTickIntervalsPerEpoch s epoch in
  let ptie :=
    if decide (length (protobuff.ProcessedTickIntervalsPerEpoch.Intervals ptie) = 0%nat)
    then {| protobuff.ProcessedTickIntervalsPerEpoch.Epoch := epoch;
            protobuff.ProcessedTickIntervalsPerEpoch.Intervals :=
              [ {| protobuff.ProcessedTickInterval.InitialProcessedTick := tickNumber;
                   protobuff.ProcessedTickInterval.LastProcessedTick := tickNumber |} ] |}
    else {| protobuff.ProcessedTickIntervalsPerEpoch.Epoch :=
              protobuff.ProcessedTickIntervalsPerEpoch.Epoch ptie;
            protobuff.ProcessedTickIntervalsPerEpoch.Intervals :=
              set_last_LastProcessedTick tickNumber
                (protobuff.ProcessedTickIntervalsPerEpoch.Intervals ptie) |} in
  SetProcessedTickIntervalPerEpoch epoch ptie s.

Definition AppendProcessedTickInterval (epoch : Z)
  (pti : protobuff.ProcessedTickInterval.t) (s : PebbleStore) : PebbleStore :=
  let existing := getProcessedTickIntervalsPerEpoch s epoch in
  let existing :=
    {| protobuff.ProcessedTickIntervalsPerEpoch.Epoch :=
         protobuff.ProcessedTickIntervalsPerEpoch.Epoch existing;
       protobuff.ProcessedTickIntervalsPerEpoch.Intervals :=
         protobuff.ProcessedTickIntervalsPerEpoch.Intervals existing ++ [pti] |} in
  SetProcessedTickIntervalPerEpoch epoch existing s.

Definition SetEmptyTicksForEpoch (epoch emptyTicksCount : Z) (s : PebbleStore)
  : PebbleStore :=
  with_emptyTicksPerEpoch (insert epoch (PutUint32 emptyTicksCount)) s.

Definition GetEmptyTicksForEpoch (s : PebbleStore) (epoch : Z) : result Z :=
  value <- get (emptyTicksPerEpoch s) epoch ;;
  Ok (le_value (take 4 value)).

Definition PutTransferTransactionsPerTick (identity : string) (tickNumber : Z)
  (txs : protobuff.TransferTransactionsPerTick.t) (s : PebbleStore) : PebbleStore :=
  with_identityTransferTxs (insert (identity, tickNumber) txs) s.

(** One batch with a [Set] per identity and asset id; the keys differ, so
    the order in which Go ranges over the two maps does not show. *)
Definition PutAssetTransactionsPerTickBatch
  (identityMap : gmap string (gmap string (list string))) (tickNumber : Z)
  (s : PebbleStore) : PebbleStore :=
  with_qxIdentityAssetTransfers
    (fun m =>
       map_fold (fun identity assetIdMap m =>
         map_fold (fun assetId transactionIds m =>
           <[(identity, assetId, tickNumber) :=
               {| protobuff.AssetTransactionsPerTickDB.Transactions := transactionIds |}]> m)
           m assetIdMap)
         m identityMap) s.

(** *** The reverse asset-transaction reader *)

Module IdetityAssetTransactions.
Record t : Type := {
  Transaction : protobuff.Transaction.t;
  MoneyFlew : bool;
  Timestamp : Z }.
End IdetityAssetTransactions.

(** The iterator over [QxIdentityAssetTransfers|identity|assetId|*] with
    the bounds tick 0 (inclusive) and [upper] (exclusive), walked with
    [iter.Last()] and [iter.Prev()]: the entries by descending tick. *)
Definition later_tick (a b : Z * protobuff.AssetTransactionsPerTickDB.t) : Prop :=
  b.1 <= a.1.

#[global] Instance later_tick_dec a b : Decision (later_tick a b) :=
  Z_le_dec b.1 a.1.

Definition assetTransactionsBackward (s : PebbleStore) (identity assetId : string)
  (upper : Z) : list (Z * protobuff.AssetTransactionsPerTickDB.t) :=
  merge_sort later_tick
    (omap (fun '((id, asset, tickNumber), perTick) =>
             if decide (id = identity /\ asset = assetId /\ 0 <= tickNumber < upper)
             then Some (tickNumber, perTick) else None)
          (map_to_list (qxIdentityAssetTransfers s))).

(** How the loop over one tick's transaction ids ends: it runs to the end
    of the ids, or the page is full at index [i] and the function returns. *)
Inductive tickScan : Type :=
  | Exhausted (transactions : list IdetityAssetTransactions.t)
  | PageFull (transactions : list IdetityAssetTransactions.t) (i : Z).

(** [for i := txnIndexStart; i < len(perTick.Transactions); i++], over the
    ids from index [i] on. *)
Fixpoint scanTick {codec : KeyCodec} (s : PebbleStore) (includeFailedTransactions : bool)
  (tickNumber maxTransactions : Z) (ids : list string) (i : Z)
  (transactions : list IdetityAssetTransactions.t) : result tickScan :=
  match ids with
  | [] => Ok (Exhausted transactions)
  | transactionId :: rest =>
    txStatus <- wrapping (GetTransactionStatus s transactionId)
                         "getting transaction status" ;;
    if negb includeFailedTransactions && negb (protobuff.TransactionStatus.MoneyFlew txStatus)
    then scanTick s includeFailedTransactions tickNumber maxTransactions rest (i + 1)
                  transactions
    else
      transaction <- wrapping (GetTransaction s transactionId) "get transaction by id" ;;
      tickData <- wrapping (GetTickData s tickNumber) "getting tick data" ;;
      let transactions :=
        transactions ++
        [ {| IdetityAssetTransactions.Transaction := transaction;
             IdetityAssetTransactions.MoneyFlew := protobuff.TransactionStatus.MoneyFlew txStatus;
             IdetityAssetTransactions.Timestamp := protobuff.TickData.Timestamp tickData |} ] in
      if decide (maxTransactions <= Z.of_nat (length transactions))
      then Ok (PageFull transactions i)
      else scanTick s includeFailedTransactions tickNumber maxTransactions rest (i + 1)
                    transactions
  end.

(** [for ok := iter.Last(); ok; ok = iter.Prev()], over the entries that
    are left. A negative start index makes [perTick.Transactions[i]] panic;
    the panic is reported as an error. *)
Fixpoint scanTicks {codec : KeyCodec} (s : PebbleStore) (includeFailedTransactions : bool)
  (maxTransactions : Z) (entries : list (Z * protobuff.AssetTransactionsPerTickDB.t))
  (firstTick : bool) (txnIndexStart : Z)
  (transactions : list IdetityAssetTransactions.t)
  (nextEndTick nextTxnIndexStart : Z)
  : result (list IdetityAssetTransactions.t * Z * Z) :=
  match entries with
  | [] => Ok (transactions, nextEndTick, nextTxnIndexStart)
  | (tickNumber, perTick) :: rest =>
    let ids := protobuff.AssetTransactionsPerTickDB.Transactions perTick in
    let nextEndTick := tickNumber in
    if firstTick && bool_decide (Z.of_nat (length ids) <= txnIndexStart) then
      (* skip this tick: the start index is out of bounds *)
      scanTicks s includeFailedTransactions maxTransactions rest false txnIndexStart
                transactions nextEndTick nextTxnIndexStart
    else
      let ids := reverse ids in
      let txnIndexStart := if firstTick then txnIndexStart else 0 in
      if decide (txnIndexStart < 0) then Err (New "panic: index out of range") else
      scan <- scanTick s includeFailedTransactions tickNumber maxTransactions
                       (drop (Z.to_nat txnIndexStart) ids) txnIndexStart transactions ;;
      match scan with
      | PageFull transactions i =>
        let nextTxnIndexStart :=
          if decide (i < Z.of_nat (length ids) - 1) then uint32 (i + 1)
          else nextTxnIndexStart in
        Ok (transactions, nextEndTick, nextTxnIndexStart)
      | Exhausted transactions =>
        (* the tick is fully processed: move to the one before *)
        let '(nextEndTick, nextTxnIndexStart) :=
          if decide (0 < nextEndTick) then (nextEndTick - 1, 0)
          else (nextEndTick, nextTxnIndexStart) in
        scanTicks s includeFailedTransactions maxTransactions rest false txnIndexStart
                  transactions nextEndTick nextTxnIndexStart
      end
  end.

(** Returns the page, [nextEndTick], [nextTxnIndexStart] and the number of
    the last processed tick. *)
Definition GetIdetityAssetTransactionsFromEnd {codec : KeyCodec} (s : PebbleStore)
  (includeFailedTransactions : bool) (identity assetId : string)
  (endTick txnIndexStart maxTransactions : Z)
  : result (list IdetityAssetTransactions.t * Z * Z * Z) :=
  lastProcessedTick <- wrapping (GetLastProcessedTick s) "fetching last processed tick" ;;
  let endTick :=
    if decide (endTick = 0) then protobuff.ProcessedTick.TickNumber lastProcessedTick
    else endTick in
  let maxTransactions := if decide (maxTransactions = 0) then 1000 else maxTransactions in
  let entries := assetTransactionsBackward s identity assetId (uint32 (endTick + 1)) in
  page <- scanTicks s includeFailedTransactions maxTransactions entries
                    true txnIndexStart [] 0 0 ;;
  let '(transactions, nextEndTick, nextTxnIndexStart) := page in
  Ok (transactions, nextEndTick, nextTxnIndexStart,
      protobuff.ProcessedTick.TickNumber lastProcessedTick).

(** A client that pages through the history: [n] calls, each fed the
    [(nextEndTick, nextTxnIndexStart)] of the one before; the pages in the
    order they came and the cursor for the next call. *)
Fixpoint pages {codec : KeyCodec} (s : PebbleStore) (includeFailedTransactions : bool)
  (identity assetId : string) (maxTransactions : Z) (n : nat) (endTick txnIndexStart : Z)
  : result (list (list IdetityAssetTransactions.t) * (Z * Z)) :=
  match n with
  | O => Ok ([], (endTick, txnIndexStart))
  | S n' =>
    r <- GetIdetityAssetTransactionsFromEnd s includeFailedTransactions identity assetId
           endTick txnIndexStart maxTransactions ;;
    let '(page, nextEndTick, nextTxnIndexStart, _) := r in
    more <- pages s includeFailedTransactions identity assetId maxTransactions n'
              nextEndTick nextTxnIndexStart ;;
    Ok (page :: more.1, more.2)
  end.

(** *** Reading the transactions of a tick *)

(** [if errors.Is(err, ErrNotFound) { return nil, ErrNotFound }] followed
    by [return nil, errors.Wrap(err, msg)]. *)
Definition not_found_or_wrap {A} (r : result A) (msg : string) : result A :=
  match r with
  | Ok a => Ok a
  | Err err => if Is err ErrNotFound then Err ErrNotFound else Err (Wrap err msg)
  end.

(** The loop of [GetTickTransactions] over the transaction ids of the
    tick, with the transactions read so far. *)
Fixpoint GetTickTransactions_loop {codec : KeyCodec} (s : PebbleStore)
  (transactionIds : list string)
  (txs : list protobuff.Transaction.t) : result (list protobuff.Transaction.t) :=
  match transactionIds with
  | [] => Ok txs
  | txID :: rest =>
    tx <- not_found_or_wrap (GetTransaction s txID) "getting tx for id: %s" ;;
    GetTickTransactions_loop s rest (txs ++ [tx])
  end.

Definition GetTickTransactions {codec : KeyCodec} (s : PebbleStore) (tickNumber : Z)
  : result (list protobuff.Transaction.t) :=
  td <- not_found_or_wrap (GetTickData s tickNumber) "getting tick data" ;;
  GetTickTransactions_loop s (protobuff.TickData.TransactionIds td) [].

(** The loop of [GetTickTransferTransactions]: a transaction whose amount
    is not positive is read and left out. *)
Fixpoint GetTickTransferTransactions_loop {codec : KeyCodec} (s : PebbleStore)
  (transactionIds : list string)
  (txs : list protobuff.Transaction.t) : result (list protobuff.Transaction.t) :=
  match transactionIds with
  | [] => Ok txs
  | txID :: rest =>
    tx <- not_found_or_wrap (GetTransaction s txID) "getting tx for id: %s" ;;
    if decide (protobuff.Transaction.Amount tx <= 0)
    then GetTickTransferTransactions_loop s rest txs
    else GetTickTransferTransactions_loop s rest (txs ++ [tx])
  end.

Definition GetTickTransferTransactions {codec : KeyCodec} (s : PebbleStore) (tickNumber : Z)
  : result (list protobuff.Transaction.t) :=
  td <- not_found_or_wrap (GetTickData s tickNumber) "getting tick data" ;;
  GetTickTransferTransactions_loop s (protobuff.TickData.TransactionIds td) [].

(** *** The empty-tick counters of several epochs *)

(** The loop of [GetEmptyTicksForEpochs]: an epoch without a counter gets
    the zero value that [GetEmptyTicksForEpoch] returns beside its
    not-found error. *)
Fixpoint GetEmptyTicksForEpochs_loop (s : PebbleStore) (epochs : list Z)
  (emptyTickMap : gmap Z Z) : result (gmap Z Z) :=
  match epochs with
  | [] => Ok emptyTickMap
  | epoch :: rest =>
    match GetEmptyTicksForEpoch s epoch with
    | Ok emptyTicks =>
      GetEmptyTicksForEpochs_loop s rest (<[epoch := emptyTicks]> emptyTickMap)
    | Err err =>
      if Is err ErrNotFound
      then GetEmptyTicksForEpochs_loop s rest (<[epoch := 0]> emptyTickMap)
      else Err (Wrap err "getting empty ticks for epoch %d")
    end
  end.

Definition GetEmptyTicksForEpochs (s : PebbleStore) (epochs : list Z) : result (gmap Z Z) :=
  GetEmptyTicksForEpochs_loop s epochs ∅.

Definition DeleteEmptyTicksKeyForEpoch (epoch : Z) (s : PebbleStore) : PebbleStore :=
  with_emptyTicksPerEpoch (delete epoch) s.

(** *** The migration version and the clearing of a prefix *)

(** The store with the record under the one-byte key [DbMigrationVersion],
    for which [PebbleStore] above has no field. *)
Record Migrated : Type := {
  base : PebbleStore;
  migrationVersion : option (list byte) }.

Definition on_base (f : PebbleStore -> PebbleStore) (ps : Migrated) : Migrated :=
  {| base := f (base ps); migrationVersion := migrationVersion ps |}.

Definition GetMigrationVersion (ps : Migrated) : result Z :=
  match migrationVersion ps with
  | None => Err ErrNotFound
  | Some value =>
    if decide (length value < 4)%nat
    then Err (New "migration version data is corrupted")
    else Ok (le_value (take 4 value))
  end.

Definition SetMigrationVersion (version : Z) (ps : Migrated) : Migrated :=
  {| base := base ps; migrationVersion := Some (PutUint32 version) |}.

(** The prefixes that the migrations count and clear. *)
Inductive Prefix : Type :=
  | QuorumData
  | QxIdentityAssetTransfers.

Definition CountKeysInRange (prefixID : Prefix) (s : PebbleStore) : nat :=
  match prefixID with
  | QuorumData => size (quorumData s)
  | QxIdentityAssetTransfers => size (qxIdentityAssetTransfers s)
  end.

(** [DeleteRange] over the keys of the prefix; the two key counts around
    it are only logged. *)
Definition ClearKeysByPrefix (prefixID : Prefix) (s : PebbleStore) : PebbleStore :=
  match prefixID with
  | QuorumData => with_quorumData (fun _ => ∅) s
  | QxIdentityAssetTransfers => with_qxIdentityAssetTransfers (fun _ => ∅) s
  end.

(** *** The transfer transactions of an identity over a range of ticks *)

(** The iterator of [GetTransferTransactions] over the keys
    [identity|tick], from [startTick] to [endTick+1] (a [uint64], and
    exclusive), in the order of the keys, which is the order of the
    ticks. *)
Definition earlier_tick (a b : string * Z * protobuff.TransferTransactionsPerTick.t) : Prop :=
  a.1.2 <= b.1.2.

#[global] Instance earlier_tick_dec a b : Decision (earlier_tick a b) :=
  Z_le_dec a.1.2 b.1.2.

Definition transferTransactionsInRange (s : PebbleStore) (identity : string)
  (startTick endTick : Z)
  : list (string * Z * protobuff.TransferTransactionsPerTick.t) :=
  merge_sort earlier_tick
    (filter (fun e => e.1.1 = identity /\ startTick <= e.1.2 < uint64 (endTick + 1))
            (map_to_list (identityTransferTxs s))).

Definition GetTransferTransactions (s : PebbleStore) (identity : string)
  (startTick endTick : Z) : result (list protobuff.TransferTransactionsPerTick.t) :=
  Ok (snd <$> transferTransactionsInRange s identity startTick endTick).

End store.

(** ** Package [validator/tx]: transaction validation and the grouping of
    transactions per identity and per asset *)
Module tx.
Import Go.

Definition emptyTxDigest : list byte := replicate 32 x00.

(** The set of the hexadecimal texts of the non-zero digests of a tick. *)
Definition createTxDigestsMap (tickData : types.TickData.t) : gset string :=
  foldl (fun digestsMap digest =>
           if decide (digest = emptyTxDigest) then digestsMap
           else {[ EncodeToString digest ]} ∪ digestsMap)
        ∅ (types.TickData.TransactionDigests tickData).

(** [m[k]] is made an empty list when [k] is not in the map yet. *)
Definition ensure {V} (k : string) (m : gmap string (list V)) : gmap string (list V) :=
  match m !! k with
  | Some _ => m
  | None => <[k := []]> m
  end.

(** [m[k] = append(m[k], v)] *)
Definition append_to {V} (k : string) (v : V) (m : gmap string (list V))
  : gmap string (list V) :=
  <[k := (m !!! k) ++ [v]]> m.

Module QxTransactionWithTransferAssetPayload.
Record t : Type := {
  Transaction : types.Transaction.t;
  TransferPayload : qx.QxTransferAssetPayload.t }.
End QxTransactionWithTransferAssetPayload.

Module QxAssetTransfer.
Record t : Type := {
  AssetIssuer : string;
  AssetName : string;
  SourceId : string;
  DestId : string;
  Amount : Z;
  TxId : string;
  TickNumber : Z }.
End QxAssetTransfer.

(** The count-mismatch error of [Validate]. *)
Definition count_mismatch (txCount digestsCount : nat) : error :=
  Errorf "tx count mismatch. tx count: %d, digests count: %d"
         [Z.of_nat txCount; Z.of_nat digestsCount].

Section WithConnector.
Context `{types.Connector}.

Definition getDigestFromTransaction (tx : types.Transaction.t) : result (list byte) :=
  txDataMarshalledBytes <- wrapping (types.MarshallBinary tx) "marshalling" ;;
  wrapping (types.K12Hash txDataMarshalledBytes) "hashing tx tx".

(** The loop of [validateTransactions], with the transactions validated so
    far. The signature verifier answers [None] for a good signature. *)
Fixpoint validateTransactions_loop
  (sigVerifierFunc : list byte -> list byte -> list byte -> option error)
  (digestsMap : gset string) (transactions validTransactions : list types.Transaction.t)
  : result (list types.Transaction.t) :=
  match transactions with
  | [] => Ok validTransactions
  | tx :: rest =>
    txDigest <- wrapping (getDigestFromTransaction tx) "getting digest from tx data" ;;
    txId <- wrapping (types.ID tx) "getting tx id" ;;
    let hexDigest := EncodeToString txDigest in
    if decide (hexDigest ∈ digestsMap) then
      txDataBytes <- wrapping (types.MarshallBinary tx) "marshalling tx data" ;;
      constructedDigest <-
        wrapping (types.K12Hash (take (length txDataBytes - 64) txDataBytes))
                 "constructing digest from tx data" ;;
      match sigVerifierFunc (types.Transaction.SourcePublicKey tx) constructedDigest
                            (types.Transaction.Signature tx) with
      | Some e => Err (Wrap e "verifying tx signature")
      | None =>
        validateTransactions_loop sigVerifierFunc digestsMap rest (validTransactions ++ [tx])
      end
    else Err (Errorf "tx id: %s not found in digests map" [])
  end.

Definition validateTransactions
  (sigVerifierFunc : list byte -> list byte -> list byte -> option error)
  (transactions : list types.Transaction.t) (digestsMap : gset string)
  : result (list types.Transaction.t) :=
  validateTransactions_loop sigVerifierFunc digestsMap transactions [].

Definition Validate
  (sigVerifierFunc : list byte -> list byte -> list byte -> option error)
  (transactions : list types.Transaction.t) (tickData : types.TickData.t)
  : result (list types.Transaction.t) :=
  let digestsMap := createTxDigestsMap tickData in
  (* handles empty tick but with transactions *)
  if decide (size digestsMap = 0%nat) then Ok []
  else if decide (length transactions <> size digestsMap)
  then Err (count_mismatch (length transactions) (size digestsMap))
  else wrapping (validateTransactions sigVerifierFunc transactions digestsMap)
                "validating transactions".

Definition txToProto (tx : types.Transaction.t) : result protobuff.Transaction.t :=
  digest <- wrapping (types.Digest tx) "getting tx digest" ;;
  txID <- wrapping (types.FromPubKey digest true) "getting tx id" ;;
  sourceID <- wrapping (types.FromPubKey (types.Transaction.SourcePublicKey tx) false)
                       "getting source id" ;;
  destID <- wrapping (types.FromPubKey (types.Transaction.DestinationPublicKey tx) false)
                     "getting dest id" ;;
  Ok {| protobuff.Transaction.SourceId := sourceID;
        protobuff.Transaction.DestId := destID;
        protobuff.Transaction.Amount := types.Transaction.Amount tx;
        protobuff.Transaction.TickNumber := types.Transaction.Tick tx;
        protobuff.Transaction.InputType := types.Transaction.InputType tx;
        protobuff.Transaction.InputSize := types.Transaction.InputSize tx;
        protobuff.Transaction.InputHex := EncodeToString (types.Transaction.Input tx);
        protobuff.Transaction.SignatureHex := EncodeToString (types.Transaction.Signature tx);
        protobuff.Transaction.TxId := txID |}.

Fixpoint qubicToProto (txs : list types.Transaction.t)
  : result (list protobuff.Transaction.t) :=
  match txs with
  | [] => Ok []
  | tx :: rest =>
    txProto <- wrapping (txToProto tx) "converting tx to proto" ;;
    protoTxs <- qubicToProto rest ;;
    Ok (txProto :: protoTxs)
  end.

Fixpoint removeNonTransferTransactionsAndConvert (transactions : list types.Transaction.t)
  : result (list protobuff.Transaction.t) :=
  match transactions with
  | [] => Ok []
  | tx :: rest =>
    if decide (types.Transaction.Amount tx = 0)
    then removeNonTransferTransactionsAndConvert rest
    else
      protoTx <- wrapping (txToProto tx) "converting to proto" ;;
      transferTransactions <- removeNonTransferTransactionsAndConvert rest ;;
      Ok (protoTx :: transferTransactions)
  end.

End WithConnector.

(** Every transaction is appended to the list of its destination and then
    to the list of its source. *)
Definition createTransferTransactionsIdentityMap (txs : list protobuff.Transaction.t)
  : result (gmap string (list protobuff.Transaction.t)) :=
  Ok (foldl (fun txsPerIdentity tx =>
               let txsPerIdentity := ensure (protobuff.Transaction.DestId tx) txsPerIdentity in
               let txsPerIdentity := ensure (protobuff.Transaction.SourceId tx) txsPerIdentity in
               let txsPerIdentity :=
                 append_to (protobuff.Transaction.DestId tx) tx txsPerIdentity in
               append_to (protobuff.Transaction.SourceId tx) tx txsPerIdentity)
            ∅ txs).

Section WithConnector.
Context `{types.Connector}.

(** Removes the transactions that are no Qx asset transfer and decodes
    the payload of the others. *)
Fixpoint removeNonQxAssetTransferTransactionsAndConvert
  (transactions : list types.Transaction.t)
  : result (list QxTransactionWithTransferAssetPayload.t) :=
  match transactions with
  | [] => Ok []
  | tx :: rest =>
    if decide (types.Transaction.InputType tx <> 2)
    then removeNonQxAssetTransferTransactionsAndConvert rest
    else
      match qx.UnmarshalBinary qx.zero (types.Transaction.Input tx) with
      | (_, Some _) => removeNonQxAssetTransferTransactionsAndConvert rest
      | (transferAssetOwnershipAndPossessionInput, None) =>
        match qx.GetAssetTransfer transferAssetOwnershipAndPossessionInput with
        | Err _ => removeNonQxAssetTransferTransactionsAndConvert rest
        | Ok transferPayload =>
          assetTransferTransactions <- removeNonQxAssetTransferTransactionsAndConvert rest ;;
          Ok ({| QxTransactionWithTransferAssetPayload.Transaction := tx;
                 QxTransactionWithTransferAssetPayload.TransferPayload := transferPayload |}
              :: assetTransferTransactions)
        end
      end
  end.

(** The [QxAssetTransfer] of one transaction of the loop of
    [createQxAssetTransfersIdentityMap]. *)
Definition toQxAssetTransfer (tx : QxTransactionWithTransferAssetPayload.t)
  (tickNumber : Z) : result QxAssetTransfer.t :=
  let transaction := QxTransactionWithTransferAssetPayload.Transaction tx in
  let payload := QxTransactionWithTransferAssetPayload.TransferPayload tx in
  digest <- wrapping (types.Digest transaction) "getting tx digest" ;;
  txID <- wrapping (types.FromPubKey digest true) "getting tx id" ;;
  sourceIdentity <-
    wrapping (types.FromPubKey (types.Transaction.SourcePublicKey transaction) false)
             "getting source id" ;;
  Ok {| QxAssetTransfer.AssetIssuer := qx.QxTransferAssetPayload.Issuer payload;
        QxAssetTransfer.AssetName := qx.QxTransferAssetPayload.AssetName payload;
        QxAssetTransfer.SourceId := sourceIdentity;
        QxAssetTransfer.DestId := qx.QxTransferAssetPayload.DestId payload;
        QxAssetTransfer.Amount := qx.QxTransferAssetPayload.Amount payload;
        QxAssetTransfer.TxId := txID;
        QxAssetTransfer.TickNumber := tickNumber |}.

(** Groups the asset transfers per identity: each one goes to the list of
    the new owner and then to the list of the source. *)
Fixpoint createQxAssetTransfersIdentityMap_loop
  (txs : list QxTransactionWithTransferAssetPayload.t) (tickNumber : Z)
  (assetTransferTxsPerIdentity : gmap string (list QxAssetTransfer.t))
  : result (gmap string (list QxAssetTransfer.t)) :=
  match txs with
  | [] => Ok assetTransferTxsPerIdentity
  | tx :: rest =>
    assetTransfer <- toQxAssetTransfer tx tickNumber ;;
    let destId := QxAssetTransfer.DestId assetTransfer in
    let sourceId := QxAssetTransfer.SourceId assetTransfer in
    let m := ensure destId assetTransferTxsPerIdentity in
    let m := ensure sourceId m in
    let m := append_to destId assetTransfer m in
    let m := append_to sourceId assetTransfer m in
    createQxAssetTransfersIdentityMap_loop rest tickNumber m
  end.

Definition createQxAssetTransfersIdentityMap
  (txs : list QxTransactionWithTransferAssetPayload.t) (tickNumber : Z)
  : result (gmap string (list QxAssetTransfer.t)) :=
  createQxAssetTransfersIdentityMap_loop txs tickNumber ∅.

End WithConnector.

(** The stored form of a transfer: [Amount] is [uint64(t.Amount)]. *)
Definition toQxAssetTransferDB (t : QxAssetTransfer.t) : protobuff.QxAssetTransferDB.t :=
  {| protobuff.QxAssetTransferDB.SourceId := QxAssetTransfer.SourceId t;
     protobuff.QxAssetTransferDB.DestId := QxAssetTransfer.DestId t;
     protobuff.QxAssetTransferDB.Amount := uint64 (QxAssetTransfer.Amount t);
     protobuff.QxAssetTransferDB.TxId := QxAssetTransfer.TxId t |}.

(** Groups the transfers per asset id, the issuer followed by the name. *)
Definition createQxAssetTransferAssetIdMap (transfers : list QxAssetTransfer.t)
  : result (gmap string (list protobuff.QxAssetTransferDB.t)) :=
  Ok (foldl (fun assetTransferPerAssetId t =>
               let assetId := (QxAssetTransfer.AssetIssuer t ++ QxAssetTransfer.AssetName t)%string in
               let m := ensure assetId assetTransferPerAssetId in
               append_to assetId (toQxAssetTransferDB t) m)
            ∅ transfers).

Section WithConnector.
Context `{types.Connector}.

(** Parses every transaction; the ones the classifier does not accept are
    dropped. *)
Fixpoint removeNonTransactionWithAssetPayloadsAndConvert
  (transactions : list types.Transaction.t)
  : result (list asset_transactions.TransactionWithAssetPayload.t) :=
  match transactions with
  | [] => Ok []
  | tx :: rest =>
    match asset_transactions.ParseAssetTransaction tx with
    | Err ErrNotValidTransaction => removeNonTransactionWithAssetPayloadsAndConvert rest
    | Err e => Err (Wrap e "parse asset transaction")
    | Ok transactionWithAssetPayload =>
      transactionWithAssetPayloads <- removeNonTransactionWithAssetPayloadsAndConvert rest ;;
      Ok (transactionWithAssetPayload :: transactionWithAssetPayloads)
    end
  end.

End WithConnector.

(** [identityMap[identity][assetId] = append(identityMap[identity][assetId], txId)] *)
Definition add_asset_transaction (assetId txId : string)
  (identityMap : gmap string (gmap string (list string))) (identity : string)
  : gmap string (gmap string (list string)) :=
  let assetIdMap := default ∅ (identityMap !! identity) in
  <[identity := append_to assetId txId assetIdMap]> identityMap.

(** Groups transaction ids per identity and asset id. *)
Fixpoint createIdentityMap_loop
  (txs : list asset_transactions.TransactionWithAssetPayload.t)
  (identityMap : gmap string (gmap string (list string)))
  : result (gmap string (gmap string (list string))) :=
  match txs with
  | [] => Ok identityMap
  | tx :: rest =>
    match asset_transactions.FindTransactionIdParticipantsAndCurrency tx with
    | Err ErrNotValidTransaction => createIdentityMap_loop rest identityMap
    | Err e => Err (Wrap e "finding transaction id, particpants and currency")
    | Ok transactionData =>
      let currency := asset_transactions.TransactionIdParticipantsAndCurrency.Currency
                        transactionData in
      let assetId := (asset_transactions.TransactionCurrency.AssetIssuer currency ++
                      asset_transactions.TransactionCurrency.AssetName currency)%string in
      let txId := asset_transactions.LeanTransaction.TxId
                    (asset_transactions.TransactionWithAssetPayload.Transaction tx) in
      createIdentityMap_loop rest
        (foldl (add_asset_transaction assetId txId) identityMap
               (asset_transactions.TransactionIdParticipantsAndCurrency.Identities
                  transactionData))
    end
  end.

Definition createIdentityMap (txs : list asset_transactions.TransactionWithAssetPayload.t)
  : result (gmap string (gmap string (list string))) :=
  createIdentityMap_loop txs ∅.

(** *** From the stored form back to a transaction *)

Section FromProto.
(** [types.Identity.ToPubKey] of the node library. *)
Variable ToPubKey : string -> bool -> result (list byte).

Definition identityToPublicKeyBytes (identity : string) : result (list byte) :=
  ToPubKey identity false.

Definition protoToTx (protoTx : protobuff.Transaction.t) : result types.Transaction.t :=
  sourcePublicKey <- identityToPublicKeyBytes (protobuff.Transaction.SourceId protoTx) ;;
  destinationPublicKey <- identityToPublicKeyBytes (protobuff.Transaction.DestId protoTx) ;;
  inputBytes <- wrapping (DecodeString (protobuff.Transaction.InputHex protoTx))
                         "decoding input hex" ;;
  signatureBytes <- wrapping (DecodeString (protobuff.Transaction.SignatureHex protoTx))
                             "decoding signature hex" ;;
  if decide (length signatureBytes <> 64%nat)
  then Err (New "signature must be exactly 64 bytes")
  else
    Ok {| types.Transaction.SourcePublicKey := sourcePublicKey;
          types.Transaction.DestinationPublicKey := destinationPublicKey;
          types.Transaction.Amount := protobuff.Transaction.Amount protoTx;
          types.Transaction.Tick := protobuff.Transaction.TickNumber protoTx;
          types.Transaction.InputType := uint16 (protobuff.Transaction.InputType protoTx);
          types.Transaction.InputSize := uint16 (protobuff.Transaction.InputSize protoTx);
          types.Transaction.Input := inputBytes;
          types.Transaction.Signature := signatureBytes |}.

Fixpoint ProtoToQubic (protoTxs : list protobuff.Transaction.t)
  : result (list types.Transaction.t) :=
  match protoTxs with
  | [] => Ok []
  | protoTx :: rest =>
    tx <- wrapping (protoToTx protoTx) "converting proto tx to qubic tx" ;;
    txs <- ProtoToQubic rest ;;
    Ok (tx :: txs)
  end.

End FromProto.

End tx.

Notation "x <~ c ;; k" := (Go.mbind c (fun x => k))
  (at level 100, c at next level, right associativity).
Notation "c ;;; k" := (Go.mbind c (fun _ => k))
  (at level 100, right associativity).

(** ** Package [validator/tx], continued: storing the transactions of a tick *)
Module tx_store.
Import Go.

Section WithConnector.
Context `{types.Connector} {codec : store.KeyCodec}.

Definition storeTickTransactions (transactions : list types.Transaction.t)
  : M store.PebbleStore unit :=
  protoModel <~ wrapM (lift (tx.qubicToProto transactions)) "converting to proto" ;;
  wrapM (store.SetTransactions protoModel) "storing tick transactions".

(** One [PutTransferTransactionsPerTick] per identity of the map; the keys
    differ, so the order of the range does not show. *)
Definition storeTransferTransactions (tickNumber : Z)
  (transactions : list types.Transaction.t) : M store.PebbleStore unit :=
  transferTransactions <~
    wrapM (lift (tx.removeNonTransferTransactionsAndConvert transactions))
          "removing non transfer transactions" ;;
  txsPerIdentity <~
    wrapM (lift (tx.createTransferTransactionsIdentityMap transferTransactions))
          "filtering transfer transactions" ;;
  modify (fun s =>
    map_fold (fun id txs s =>
      store.PutTransferTransactionsPerTick id tickNumber
        {| protobuff.TransferTransactionsPerTick.TickNumber := uint32 tickNumber;
           protobuff.TransferTransactionsPerTick.Identity := id;
           protobuff.TransferTransactionsPerTick.Transactions := txs |} s)
      s txsPerIdentity).

Definition StoreAssetTransactions (tickNumber : Z)
  (transactions : list types.Transaction.t) : M store.PebbleStore unit :=
  transactionWithAssetPayloads <~
    wrapM (lift (tx.removeNonTransactionWithAssetPayloadsAndConvert transactions))
          "removing non transactions with asset payload" ;;
  identityMap <~
    wrapM (lift (tx.createIdentityMap transactionWithAssetPayloads))
          "grouping transactions with asset payload per identity and asset id" ;;
  modify (store.PutAssetTransactionsPerTickBatch identityMap tickNumber).

Definition Store (tickNumber : Z) (transactions : list types.Transaction.t)
  : M store.PebbleStore unit :=
  wrapM (storeTickTransactions transactions) "storing tick transactions" ;;;
  wrapM (storeTransferTransactions tickNumber transactions)
        "storing transfer transactions" ;;;
  wrapM (StoreAssetTransactions tickNumber transactions)
        "storing asset transfer transactions".

End WithConnector.
End tx_store.

(** ** Package [validator]: the pipeline of one tick *)
Module validator.
Import Go.

(** The node connection [qu]: what the node answers to each request. *)
Record Connection : Type := {
  GetQuorumVotes : Z -> result (list store.QuorumTickData.t);
  GetComputors : result store.Computors.t;
  GetTickData : Z -> result types.TickData.t;
  GetTickTransactions : Z -> result (list types.Transaction.t) }.

(** The checks of the packages [computors], [quorum] and [tick], and the
    signature verifier of [tx]: they rest on signatures and digests and are
    called as black boxes; [None] is success. *)
Record Checks : Type := {
  computors_Validate : store.Computors.t -> option error;
  quorum_Validate : list store.QuorumTickData.t -> store.Computors.t -> option error;
  tick_Validate : types.TickData.t -> store.QuorumTickData.t -> store.Computors.t
                  -> option error;
  sigVerifierFunc : list byte -> list byte -> list byte -> option error }.

(** What [ValidateTick] does towards the node, the checks and the store,
    in the order it does it. *)
Inductive step : Type :=
  | FetchQuorumVotes
  | FetchComputors
  | ValidateComputors
  | StoreComputors
  | ValidateQuorum
  | FetchTickData
  | ValidateTickData
  | FetchTickTransactions
  | ValidateTransactions
  | StoreQuorumVotes
  | StoreTickData
  | StoreTransactions.

#[global] Instance step_eq_dec : EqDecision step.
Proof. solve_decision. Defined.

Record World : Type := {
  db : store.PebbleStore;
  trace : list step }.

Definition on_db {A} (c : M store.PebbleStore A) : M World A :=
  fun w => let (r, s) := c (db w) in (r, {| db := s; trace := trace w |}).

Definition log (e : step) : M World unit :=
  modify (fun w => {| db := db w; trace := trace w ++ [e] |}).

Definition check (e : option error) : M World unit :=
  match e with
  | Some err => mfail err
  | None => mret tt
  end.

Section WithConnector.
Context `{types.Connector} {codec : store.KeyCodec}.

(** Modelled from the spec: package [computors] is absent. Section 4.3:
    the list of an epoch is persisted under [Computors|epoch] and read back
    on the later ticks of that epoch. *)
Definition computors_Get (epoch : Z) : M World store.Computors.t :=
  fun w => (store.GetComputors (db w) epoch, w).

Definition computors_Store (comps : store.Computors.t) : M World unit :=
  on_db (modify (store.SetComputors (store.Computors.Epoch comps) comps)).

(** Modelled from the spec: package [quorum] is absent. Section 4.1: the
    votes of a tick go under [QuorumData|tick]. *)
Definition quorum_Store (tickNumber : Z) (quorumVotes : list store.QuorumTickData.t)
  : M World unit :=
  on_db (modify (store.SetQuorumTickData tickNumber quorumVotes)).

(** Modelled from the spec: package [tick] is absent. Section 4.8:
    [TickData|tick] receives the tick body, its non-zero digests as the
    texts of the transaction ids. *)
Fixpoint digestsToIds (digests : list (list byte)) : result (list string) :=
  match digests with
  | [] => Ok []
  | digest :: rest =>
    if decide (digest = tx.emptyTxDigest) then digestsToIds rest
    else
      id <- wrapping (types.FromPubKey digest true) "getting tx id from digest" ;;
      ids <- digestsToIds rest ;;
      Ok (id :: ids)
  end.

Definition tick_Store (tickData : types.TickData.t) : M World unit :=
  ids <~ lift (digestsToIds (types.TickData.TransactionDigests tickData)) ;;
  on_db (modify (store.SetTickData (types.TickData.Tick tickData)
    {| protobuff.TickData.ComputorIndex := types.TickData.ComputorIndex tickData;
       protobuff.TickData.Epoch := types.TickData.Epoch tickData;
       protobuff.TickData.TickNumber := types.TickData.Tick tickData;
       protobuff.TickData.Timestamp := types.TickData.Timestamp tickData;
       protobuff.TickData.TransactionIds := ids;
       protobuff.TickData.SignatureHex := EncodeToString (types.TickData.Signature tickData) |})).

(** The computors of the epoch: from the store, and from the node when the
    store has none. *)
Definition resolveComputors (qu : Connection) (epoch : Z) : M World store.Computors.t :=
  fun w =>
    match computors_Get epoch w with
    | (Ok comps, w) => (Ok comps, w)
    | (Err err, w) =>
      if decide (Cause err <> ErrNotFound)
      then (Err (Wrap err "getting computors from store"), w)
      else (log FetchComputors ;;;
            wrapM (lift (GetComputors qu)) "getting computors from qubic") w
    end.

Definition ValidateTick (qu : Connection) (ck : Checks) (tickNumber : Z)
  : M World unit :=
  log FetchQuorumVotes ;;;
  quorumVotes <~ wrapM (lift (GetQuorumVotes qu (uint32 tickNumber)))
                       "getting quorum tick data" ;;
  match quorumVotes with
  | [] => mfail (New "not quorum votes fetched")
  | vote0 :: _ =>
    (* getting computors from storage, otherwise get it from a node *)
    let epoch := store.QuorumTickData.Epoch vote0 in
    comps <~ resolveComputors qu epoch ;;
    log ValidateComputors ;;;
    wrapM (check (computors_Validate ck comps)) "validating comps" ;;;
    log StoreComputors ;;;
    wrapM (computors_Store comps) "storing computors" ;;;
    log ValidateQuorum ;;;
    wrapM (check (quorum_Validate ck quorumVotes comps)) "validating quorum" ;;;
    (* an empty tx digest in the quorum votes: there is no tick data *)
    if decide (store.QuorumTickData.TxDigest vote0 = replicate 32 x00) then mret tt
    else
      log FetchTickData ;;;
      tickData <~ wrapM (lift (GetTickData qu (uint32 tickNumber))) "getting tick data" ;;
      log ValidateTickData ;;;
      wrapM (check (tick_Validate ck tickData vote0 comps)) "validating tick data" ;;;
      log FetchTickTransactions ;;;
      transactions <~ wrapM (lift (GetTickTransactions qu (uint32 tickNumber)))
                            "getting tick transactions" ;;
      log ValidateTransactions ;;;
      validTxs <~ wrapM (lift (tx.Validate (sigVerifierFunc ck) transactions tickData))
                        "validating transactions" ;;
      (* proceed to storing tick information *)
      log StoreQuorumVotes ;;;
      wrapM (quorum_Store (uint32 tickNumber) quorumVotes) "storing quorum votes" ;;;
      log StoreTickData ;;;
      wrapM (tick_Store tickData) "storing tick data" ;;;
      log StoreTransactions ;;;
      wrapM (on_db (tx_store.Store (uint32 tickNumber) validTxs)) "storing transactions"
  end.

End WithConnector.
End validator.

(** ** Package [migrations]: the migrations run at start-up *)
Module migrations.
Import Go.

(** [type MigrationFunc func(ps *store.PebbleStore) error] *)
Definition MigrationFunc : Type := M store.Migrated unit.

Definition DeleteQuorumData : bool := true.

(** The migration that runs on every start: it deletes the quorum data. *)
Definition DeleteUnusedDataMigration : MigrationFunc :=
  if DeleteQuorumData
  then wrapM (modify (store.on_base (store.ClearKeysByPrefix store.QuorumData)))
             "deleting quorum data"
  else mret tt.

(** [for idx, migrate := range migrations], from index [idx] on. The
    version read at the start is the one every index is compared with. *)
Fixpoint PerformMigrations_loop (migrations : list MigrationFunc) (idx currentVersion : Z)
  : M store.Migrated unit :=
  match migrations with
  | [] => mret tt
  | migrate :: rest =>
    let migrationIndex := uint32 (idx + 1) in
    if decide (migrationIndex > currentVersion) then
      wrapM migrate "error running migration %d" ;;;
      (* update the migration version after each successful migration *)
      wrapM (modify (store.SetMigrationVersion migrationIndex))
            "error updating migration version after migration %d" ;;;
      PerformMigrations_loop rest (idx + 1) currentVersion
    else PerformMigrations_loop rest (idx + 1) currentVersion
  end.

(** The version the migrations start from: 0 when none is stored. *)
Definition currentVersion : M store.Migrated Z :=
  fun ps =>
    match store.GetMigrationVersion ps with
    | Ok version => (Ok version, ps)
    | Err err =>
      if decide (err <> ErrNotFound)
      then (Err (Wrap err "unable to fetch current migration version"), ps)
      else (Ok 0, ps)
    end.

Definition PerformMigrations (migrations : list MigrationFunc) : M store.Migrated unit :=
  (* the deletion task always runs *)
  wrapM DeleteUnusedDataMigration "deleting unused data" ;;;
  version <~ currentVersion ;;
  PerformMigrations_loop migrations 0 version.

End migrations.

(** ** Concrete inputs on which the model is run *)
Module examples.
Import Go.

Definition qxKey : list byte := x01 :: replicate 31 x00.
Definition qutilKey : list byte := x04 :: replicate 31 x00.

(** A stand-in for the node library: the two contract keys get their
    identity texts, every other key its hexadecimal text; digests are the
    first 32 bytes of the data. *)
#[global] Instance node : types.Connector := {|
  types.FromPubKey pubKey isLowerCase :=
    if decide (pubKey = qxKey) then Ok asset_transactions.SMART_CONTRACT_QX
    else if decide (pubKey = qutilKey) then Ok asset_transactions.SMART_CONTRACT_QUTIL
    else Ok (EncodeToString pubKey);
  types.Digest tx := Ok (take 32 (types.Transaction.Signature tx));
  types.ID tx := Ok (EncodeToString (take 32 (types.Transaction.Signature tx)));
  types.MarshallBinary tx :=
    Ok (types.Transaction.SourcePublicKey tx ++ types.Transaction.DestinationPublicKey tx ++
        types.Transaction.Input tx ++ types.Transaction.Signature tx);
  types.K12Hash data := Ok (take 32 data);
  types.SendManyTransferPayload := unit;
  types.SendMany_UnmarshallBinary data := Err (New "not a send-many payload");
  types.GetTransfers payload := Ok [];
  types.GetTotalAmount payload := 0;
  types.QutilAddress := asset_transactions.SMART_CONTRACT_QUTIL |}.

(** A stand-in for the key codec: the key of a transaction id is the
    bytes of its text, so that every text has a key and different texts
    have different keys. *)
#[global] Instance keys : store.KeyCodec := {|
  store.tickTxKey txID := Ok (list_byte_of_string txID) |}.

(** A codec that refuses: a transaction id is the hexadecimal text of a
    digest of 32 bytes, as [node] makes them, and its key is the digest;
    any other text has no key. *)
Definition digestKeys : store.KeyCodec := {|
  store.tickTxKey txID :=
    match DecodeString txID with
    | Ok digest =>
      if decide (length digest = 32%nat) then Ok digest
      else Err (New "invalid transaction id")
    | Err err => Err err
    end |}.

Definition acceptSignature (pubKey digest signature : list byte) : option error := None.

(** A transaction from [source] to [dest]; the signature bytes tell
    transactions apart. *)
Definition transaction (source dest : list byte) (amount inputType : Z)
  (input : list byte) (tag : byte) : types.Transaction.t :=
  {| types.Transaction.SourcePublicKey := source;
     types.Transaction.DestinationPublicKey := dest;
     types.Transaction.Amount := amount;
     types.Transaction.Tick := 7;
     types.Transaction.InputType := inputType;
     types.Transaction.InputSize := Z.of_nat (length input);
     types.Transaction.Input := input;
     types.Transaction.Signature := replicate 64 tag |}.

Definition alice : list byte := replicate 32 x0a.
Definition bob : list byte := replicate 32 x0b.

(** A tick body with the given digests. *)
Definition tickBody (digests : list (list byte)) : types.TickData.t :=
  {| types.TickData.ComputorIndex := 0;
     types.TickData.Epoch := 100;
     types.TickData.Tick := 7;
     types.TickData.Timestamp := 1700000000;
     types.TickData.TransactionDigests := digests;
     types.TickData.Signature := replicate 64 x00 |}.

(** An asset transaction of [alice], as stored, and its status. *)
Definition storedTransaction (txId : string) (tickNumber : Z) : protobuff.Transaction.t :=
  {| protobuff.Transaction.SourceId := EncodeToString alice;
     protobuff.Transaction.DestId := asset_transactions.SMART_CONTRACT_QX;
     protobuff.Transaction.Amount := 0;
     protobuff.Transaction.TickNumber := tickNumber;
     protobuff.Transaction.InputType := 2;
     protobuff.Transaction.InputSize := 80;
     protobuff.Transaction.InputHex := "";
     protobuff.Transaction.SignatureHex := "";
     protobuff.Transaction.TxId := txId |}.

Definition moneyFlew (txId : string) : protobuff.TransactionStatus.t :=
  {| protobuff.TransactionStatus.TxId := txId;
     protobuff.TransactionStatus.MoneyFlew := true |}.

Definition storedTick (tickNumber : Z) (ids : list string) : protobuff.TickData.t :=
  {| protobuff.TickData.ComputorIndex := 0;
     protobuff.TickData.Epoch := 100;
     protobuff.TickData.TickNumber := tickNumber;
     protobuff.TickData.Timestamp := 1700000000 + tickNumber;
     protobuff.TickData.TransactionIds := ids;
     protobuff.TickData.SignatureHex := "" |}.

Definition asset : string := "ISSUERCFB".

(** A store that has processed the ticks up to 7; [alice] has the asset
    transactions [ids7] in tick 7 and [ids5] in tick 5 (no index entry for
    a tick without any). The transactions are under the keys that [keys]
    gives their ids. *)
Definition history (ids7 ids5 : list string) : store.PebbleStore :=
  {| store.tickData := {[ 7 := storedTick 7 ids7; 5 := storedTick 5 ids5 ]};
     store.quorumData := ∅;
     store.computors := ∅;
     store.tickTx :=
       list_to_map
         (((fun id => (list_byte_of_string id, storedTransaction id 7)) <$> ids7) ++
          ((fun id => (list_byte_of_string id, storedTransaction id 5)) <$> ids5));
     store.txStatus := list_to_map ((fun id => (id, moneyFlew id)) <$> (ids7 ++ ids5));
     store.lastProcessedTick :=
       Some (store.Framed {| protobuff.ProcessedTick.TickNumber := 7;
                             protobuff.ProcessedTick.Epoch := 100 |});
     store.lastProcessedTickPerEpoch := {[ 100 := PutUint32 7 ]};
     store.identityTransferTxs := ∅;
     store.processedTickIntervals := ∅;
     store.emptyTicksPerEpoch := ∅;
     store.qxIdentityAssetTransfers :=
       list_to_map
         ((fun '(tickNumber, ids) =>
             ((EncodeToString alice, asset, tickNumber),
              {| protobuff.AssetTransactionsPerTickDB.Transactions := ids |}))
          <$> filter (fun e => e.2 <> []) [(7, ids7); (5, ids5)]) |}.

(** The transaction ids of a page. *)
Definition ids (page : list store.IdetityAssetTransactions.t) : list string :=
  (fun t => protobuff.Transaction.TxId (store.IdetityAssetTransactions.Transaction t))
  <$> page.

(** The payload of the test of package [qx] (scenario S3): 80 bytes. *)
Definition rawPayload : list byte :=
  [
x08; x30; xbb; x63; xbf; x7d; x5e; x16;
    x4a; xc8; xcb; xd3; x86; x80; x63; x0f;
    xf7; x67; x0a; x1e; xbf; x39; xf7; x21;
    x0b; x40; xbc; xdc; xa2; x53; xd0; x5f;
    x2f; xc8; xa2; x9a; x7a; x4a; x69; x69;
    xcd; x3a; x57; x24; x4c; x48; xc5; x02;
    x7b; x5b; x69; x40; xed; x11; xf7; x39;
    xd0; x52; xb4; x0e; x9d; xd3; x57; xfa;
    x43; x46; x42; x00; x00; x00; x00; x00;
    x7e; xa8; x45; x00; x00; x00; x00; x00
  ].

(** Modelled from the spec: the vote count of package [quorum], which is
    absent. Section 4.4, step 1: fewer than two thirds plus one of the 676
    computors (451 votes) is rejected. *)
Definition enoughVotes (quorumVotes : list store.QuorumTickData.t)
  (comps : store.Computors.t) : option error :=
  if decide (length quorumVotes < 451)%nat then Some (New "not enough quorum votes")
  else None.

Definition checks : validator.Checks :=
  {| validator.computors_Validate comps := None;
     validator.quorum_Validate := enoughVotes;
     validator.tick_Validate tickData vote comps := None;
     validator.sigVerifierFunc := acceptSignature |}.

(** The computors of epoch 100 and a vote of one of them for tick 7. *)
Definition computors100 : store.Computors.t :=
  {| store.Computors.Epoch := 100;
     store.Computors.PubKeys := replicate 676 alice;
     store.Computors.Signature := replicate 64 x00 |}.

Definition vote (txDigest : list byte) : store.QuorumTickData.t :=
  {| store.QuorumTickData.ComputorIndex := 0;
     store.QuorumTickData.Epoch := 100;
     store.QuorumTickData.Tick := 7;
     store.QuorumTickData.TxDigest := txDigest;
     store.QuorumTickData.Signature := replicate 64 x00 |}.

(** A node on which [count] computors voted for tick 7 with [txDigest]. *)
Definition nodeWith (count : nat) (txDigest : list byte) : validator.Connection :=
  {| validator.GetQuorumVotes tickNumber := Ok (replicate count (vote txDigest));
     validator.GetComputors := Ok computors100;
     validator.GetTickData tickNumber := Ok (tickBody []);
     validator.GetTickTransactions tickNumber := Ok [] |}.

Definition freshWorld : validator.World :=
  {| validator.db := store.empty; validator.trace := [] |}.

End examples.

(** ** The properties of the store, in the words of the specification *)
Module spec.

(** Section 8, invariant 4: the intervals of an epoch are ranges
    [[lo,hi]] with [lo <= hi], ascending and apart from each other. *)
Fixpoint intervals_ascending (l : list protobuff.ProcessedTickInterval.t) : Prop :=
  match l with
  | [] => True
  | i :: rest =>
    protobuff.ProcessedTickInterval.InitialProcessedTick i
      <= protobuff.ProcessedTickInterval.LastProcessedTick i /\
    match rest with
    | [] => True
    | j :: _ => protobuff.ProcessedTickInterval.LastProcessedTick i
                < protobuff.ProcessedTickInterval.InitialProcessedTick j
    end /\
    intervals_ascending rest
  end.

(** The intervals stored for an epoch. *)
Definition intervals (s : store.PebbleStore) (epoch : Z)
  : list protobuff.ProcessedTickInterval.t :=
  protobuff.ProcessedTickIntervalsPerEpoch.Intervals
    (store.getProcessedTickIntervalsPerEpoch s epoch).

Definition interval (lo hi : Z) : protobuff.ProcessedTickInterval.t :=
  {| protobuff.ProcessedTickInterval.InitialProcessedTick := lo;
     protobuff.ProcessedTickInterval.LastProcessedTick := hi |}.

Definition processedTick (tickNumber epoch : Z) : protobuff.ProcessedTick.t :=
  {| protobuff.ProcessedTick.TickNumber := tickNumber;
     protobuff.ProcessedTick.Epoch := epoch |}.

(** The computors of the epoch are at hand: the store has them, or it has
    none and the node supplies them. *)
Definition computors_at_hand (qu : validator.Connection) (s : store.PebbleStore)
  (epoch : Z) (comps : store.Computors.t) : Prop :=
  store.GetComputors s epoch = Go.Ok comps \/
  (store.GetComputors s epoch = Go.Err Go.ErrNotFound /\
   validator.GetComputors qu = Go.Ok comps).

(** The steps of [ValidateTick] up to the validation of the quorum;
    [fetched] is the fetch of the computors from the node, if there was
    one. *)
Definition steps_to_quorum (fetched : list validator.step) : list validator.step :=
  validator.FetchQuorumVotes :: fetched ++
  [validator.ValidateComputors; validator.StoreComputors; validator.ValidateQuorum].

(** What [validateTransactions] has checked of a transaction it lets
    through: the hash of its bytes is listed, and the signature verifies
    over the hash of its bytes without the signature. *)
Definition validated `{types.Connector}
  (sigVerifierFunc : list byte -> list byte -> list byte -> option Go.error)
  (digestsMap : gset string) (t : types.Transaction.t) : Prop :=
  exists digest txDataBytes constructedDigest,
    tx.getDigestFromTransaction t = Go.Ok digest /\
    Go.EncodeToString digest ∈ digestsMap /\
    types.MarshallBinary t = Go.Ok txDataBytes /\
    types.K12Hash (take (length txDataBytes - 64) txDataBytes) = Go.Ok constructedDigest /\
    sigVerifierFunc (types.Transaction.SourcePublicKey t) constructedDigest
                    (types.Transaction.Signature t) = None.

(** The ids of the transactions of [txs], in their order, that involve
    [identity] in the currency [assetId] (issuer followed by name): the
    entry of the asset-transaction index for the pair. A transaction
    counts once, however often the identity takes part in it. *)
Definition assetTransactionIds (identity assetId : string)
  (txs : list asset_transactions.TransactionWithAssetPayload.t) : list string :=
  omap (fun tx =>
          match asset_transactions.FindTransactionIdParticipantsAndCurrency tx with
          | Go.Ok found =>
            let currency :=
              asset_transactions.TransactionIdParticipantsAndCurrency.Currency found in
            if decide
                 (identity ∈ asset_transactions.TransactionIdParticipantsAndCurrency.Identities
                               found /\
                  assetId = (asset_transactions.TransactionCurrency.AssetIssuer currency ++
                             asset_transactions.TransactionCurrency.AssetName currency)%string)
            then Some (asset_transactions.TransactionIdParticipantsAndCurrency.TxId found)
            else None
          | Go.Err _ => None
          end) txs.


(** The records that keep track of the progress of the archiver and of
    the outcome of transactions: [ValidateTick] is not to write them. *)
Definition bookkeeping (s : store.PebbleStore) :=
  (store.lastProcessedTick s, store.lastProcessedTickPerEpoch s,
   store.processedTickIntervals s, store.emptyTicksPerEpoch s, store.txStatus s).

(** [s'] is [s] but for the computor lists. *)
Definition only_computors_differ (s s' : store.PebbleStore) : Prop :=
  store.with_computors (fun _ => store.computors s) s' = s.

(** Every validation of the pipeline of [tickNumber] passes on the store
    [s]: the votes are there, and the computors of their epoch, the
    quorum, the tick data against the first vote and the transactions
    against the tick data are valid. *)
Definition all_validated `{types.Connector} (qu : validator.Connection)
  (ck : validator.Checks) (tickNumber : Z) (s : store.PebbleStore) : Prop :=
  exists vote0 votes comps tickData transactions validTxs,
    validator.GetQuorumVotes qu (Go.uint32 tickNumber) = Go.Ok (vote0 :: votes) /\
    computors_at_hand qu s (store.QuorumTickData.Epoch vote0) comps /\
    validator.computors_Validate ck comps = None /\
    validator.quorum_Validate ck (vote0 :: votes) comps = None /\
    store.QuorumTickData.TxDigest vote0 <> replicate 32 Byte.x00 /\
    validator.GetTickData qu (Go.uint32 tickNumber) = Go.Ok tickData /\
    validator.tick_Validate ck tickData vote0 comps = None /\
    validator.GetTickTransactions qu (Go.uint32 tickNumber) = Go.Ok transactions /\
    tx.Validate (validator.sigVerifierFunc ck) transactions tickData = Go.Ok validTxs.

(** A computation that leaves the projection [f] of the state as it is,
    however it ends. *)
Definition preserves {S A B} (f : S -> B) (c : Go.M S A) : Prop :=
  forall s r s', c s = (r, s') -> f s' = f s.

(** A computation that only adds steps to the trace. *)
Definition appends {A} (c : Go.M validator.World A) : Prop :=
  forall w r w',
    c w = (r, w') -> exists more, validator.trace w' = validator.trace w ++ more.



End spec.

(** * Properties *)

Import Go.

(** ** Facts about bytes and the little-endian codec *)

Lemma Z_of_byte_range (b : byte) : 0 <= Z_of_byte b < 256.
Proof.
  unfold Z_of_byte. pose proof (Byte.to_N_bounded b) as H.
  split; [apply N2Z.is_nonneg|]. lia.
Qed.

Lemma Z_of_byte_of_Z (z : Z) : Z_of_byte (byte_of_Z z) = z mod 256.
Proof.
  unfold Z_of_byte, byte_of_Z.
  assert (Hr : 0 <= z mod 256 < 256) by (apply Z.mod_pos_bound; lia).
  destruct (Byte.of_N (Z.to_N (z mod 256))) as [b|] eqn:E.
  - apply Byte.to_of_N in E. rewrite E. rewrite Z2N.id; lia.
  - apply Byte.of_N_None_iff in E. lia.
Qed.

Lemma byte_of_Z_of_byte (b : byte) : byte_of_Z (Z_of_byte b) = b.
Proof.
  unfold byte_of_Z. pose proof (Z_of_byte_range b) as Hr.
  rewrite Z.mod_small by lia. unfold Z_of_byte. rewrite N2Z.id.
  now rewrite Byte.of_to_N.
Qed.

Lemma Z_of_byte_inj (a b : byte) : Z_of_byte a = Z_of_byte b -> a = b.
Proof.
  intros H. rewrite <- (byte_of_Z_of_byte a), <- (byte_of_Z_of_byte b).
  now rewrite H.
Qed.

Lemma Z_of_byte_zero (b : byte) : Z_of_byte b = 0 <-> b = x00.
Proof.
  split; [|intros ->; reflexivity].
  intros H. apply Z_of_byte_inj. now rewrite H.
Qed.

Lemma length_le_bytes (n : nat) (v : Z) : length (le_bytes n v) = n.
Proof. revert v. induction n as [|n IH]; intros v; simpl; [|rewrite IH]; reflexivity. Qed.

Lemma lor_low_high (a b : Z) :
  0 <= a < 256 -> Z.lor a (Z.shiftl b 8) = a + 256 * b.
Proof.
  intros Ha.
  assert (Hand : Z.land a (Z.shiftl b 8) = 0).
  { apply Z.bits_inj'. intros i Hi. rewrite Z.land_spec, Z.bits_0.
    destruct (Z_lt_ge_dec i 8) as [Hlt|Hge].
    - rewrite (Z.shiftl_spec_low b 8 i) by lia. apply andb_false_r.
    - destruct (Z.eq_dec a 0) as [->|Hne]; [now rewrite Z.bits_0|].
      rewrite (Z.bits_above_log2 a i); [reflexivity|lia|].
      assert (Z.log2 a < 8) by (apply Z.log2_lt_pow2; lia). lia. }
  rewrite <- Z.lxor_lor by exact Hand.
  rewrite <- Z.add_nocarry_lxor by exact Hand.
  rewrite Z.shiftl_mul_pow2 by lia. change (2 ^ 8) with 256. lia.
Qed.

Lemma le_value_le_bytes (n : nat) (v : Z) :
  le_value (le_bytes n v) = v mod 2 ^ (8 * Z.of_nat n).
Proof.
  revert v. induction n as [|n IH]; intros v.
  - simpl. now rewrite Z.mod_1_r.
  - cbn [le_bytes le_value]. rewrite IH.
    rewrite lor_low_high by (rewrite Z_of_byte_of_Z; apply Z.mod_pos_bound; lia).
    rewrite Z_of_byte_of_Z, Z.shiftr_div_pow2 by lia. change (2 ^ 8) with 256.
    replace (8 * Z.of_nat (S n)) with (8 + 8 * Z.of_nat n) by lia.
    rewrite Z.pow_add_r by lia. change (2 ^ 8) with 256.
    rewrite (Z.rem_mul_r v 256 (2 ^ (8 * Z.of_nat n))) by lia. reflexivity.
Qed.

Lemma uint64_id (v : Z) : is_uint64 v -> uint64 v = v.
Proof. unfold is_uint64, uint64. intros H. now apply Z.mod_small. Qed.

Lemma int64_uint64 (v : Z) : is_int64 v -> int64 (uint64 v) = v.
Proof.
  unfold is_int64, int64, uint64. intros H.
  change (2 ^ 63) with 9223372036854775808 in *.
  change (2 ^ 64) with 18446744073709551616 in *.
  rewrite Zplus_mod_idemp_l. rewrite Z.mod_small by lia. lia.
Qed.

Lemma uint64_negative (v : Z) : - 2 ^ 63 <= v < 0 -> uint64 v = v + 2 ^ 64.
Proof.
  unfold uint64. intros H.
  change (2 ^ 63) with 9223372036854775808 in *.
  change (2 ^ 64) with 18446744073709551616 in *.
  symmetry. apply Z.mod_unique with (q := -1); lia.
Qed.

(** ** Package [qx] *)

Section Trim.

Lemma trimLeftByte_split (s : list byte) (c : byte) :
  exists k : nat, s = replicate k c ++ trimLeftByte s c.
Proof.
  induction s as [|b s [k IH]]; [exists 0%nat; reflexivity|].
  simpl. destruct (Byte.eqb b c) eqn:E.
  - apply Byte.byte_dec_bl in E. subst b. exists (S k). simpl. now rewrite <- IH.
  - exists 0%nat. reflexivity.
Qed.

Lemma trimLeftByte_head (s : list byte) (c : byte) :
  head (trimLeftByte s c) <> Some c.
Proof.
  induction s as [|b s IH]; simpl; [discriminate|].
  destruct (Byte.eqb b c) eqn:E; [exact IH|].
  simpl. intros [= ->]. apply Byte.eqb_false in E. now apply E.
Qed.

Lemma trimLeftByte_suffix_last (s : list byte) (c : byte) :
  trimLeftByte s c = [] \/ last (trimLeftByte s c) = last s.
Proof.
  induction s as [|b s IH]; simpl; [now left|].
  destruct (Byte.eqb b c); [|now right].
  destruct IH as [IH|IH]; [now left|].
  destruct s as [|b' s]; [now left|right].
  rewrite IH. reflexivity.
Qed.

Lemma trimRightByte_split (s : list byte) (c : byte) :
  exists k : nat, s = trimRightByte s c ++ replicate k c.
Proof.
  unfold trimRightByte. destruct (trimLeftByte_split (reverse s) c) as [k Hk].
  exists k. rewrite <- (reverse_involutive s) at 1. rewrite Hk at 1.
  now rewrite reverse_app, reverse_replicate.
Qed.

Lemma trimRightByte_last (s : list byte) (c : byte) :
  last (trimRightByte s c) <> Some c.
Proof.
  unfold trimRightByte. rewrite last_reverse. apply trimLeftByte_head.
Qed.

Lemma Trim1_split (s : list byte) (c : byte) :
  exists lead trail : nat,
    s = replicate lead c ++ Trim1 s c ++ replicate trail c /\
    head (Trim1 s c) <> Some c /\ last (Trim1 s c) <> Some c.
Proof.
  unfold Trim1.
  destruct (trimRightByte_split s c) as [trail Ht].
  destruct (trimLeftByte_split (trimRightByte s c) c) as [lead Hl].
  exists lead, trail. split; [|split].
  - rewrite app_assoc, <- Hl. exact Ht.
  - apply trimLeftByte_head.
  - destruct (trimLeftByte_suffix_last (trimRightByte s c) c) as [E|E].
    + rewrite E. discriminate.
    + rewrite E. apply trimRightByte_last.
Qed.

End Trim.

(** C7 (as amended): the asset-name string holds the little-endian bytes of
    the value with the zero bytes at both ends removed; what is between the
    first and the last non-zero byte is kept as it is. *)
Theorem Uint64ToString_trims_both_ends (value : Z) :
  exists lead trail : nat,
    PutUint64 value =
      replicate lead x00 ++ list_byte_of_string (qx.Uint64ToString value)
                      ++ replicate trail x00 /\
    head (list_byte_of_string (qx.Uint64ToString value)) <> Some x00 /\
    last (list_byte_of_string (qx.Uint64ToString value)) <> Some x00.
Proof.
  unfold qx.Uint64ToString. rewrite list_byte_of_string_of_list_byte.
  apply Trim1_split.
Qed.

(** C7 (as stated) fails: the name 0x4100, whose lowest byte is zero, loses
    that leading zero byte as well. *)
Lemma Uint64ToString_strips_leading_zero :
  is_uint64 16640 /\
  qx.Uint64ToString 16640 = "A"%string /\
  qx.Uint64ToString_trailing 16640 = String "000"%char "A"%string /\
  qx.Uint64ToString 16640 <> qx.Uint64ToString_trailing 16640.
Proof.
  split; [unfold is_uint64; lia|].
  split; [reflexivity|]. split; [reflexivity|]. discriminate.
Qed.

Lemma ReadFull_app (n : nat) (a rest : list byte) :
  length a = n -> ReadFull n (a ++ rest) = Ok (a, rest).
Proof.
  intros <-. unfold ReadFull. rewrite length_app.
  destruct (decide _) as [_|Hn]; [|lia].
  now rewrite take_app_length, drop_app_length.
Qed.

(** C8: decoding the bytes that [MarshalBinary] produces gives the value
    back, whatever the receiver held before. *)
Theorem UnmarshalBinary_MarshalBinary
  (x x0 : qx.QxTransferAssetOwnershipAndPossessionInput.t) :
  qx.QxTransferAssetOwnershipAndPossessionInput.well_typed x ->
  exists data : list byte,
    qx.MarshalBinary x = Ok data /\ qx.UnmarshalBinary x0 data = (x, None).
Proof.
  intros (Hi & Ho & Hn & Hu).
  eexists. split; [reflexivity|].
  unfold qx.UnmarshalBinary.
  rewrite (ReadFull_app 32) by exact Hi.
  rewrite (ReadFull_app 32) by exact Ho.
  rewrite (ReadFull_app 8) by apply length_le_bytes.
  rewrite <- (app_nil_r (PutUint64 (uint64 _))).
  rewrite (ReadFull_app 8) by apply length_le_bytes.
  cbn [qx.QxTransferAssetOwnershipAndPossessionInput.Issuer
       qx.QxTransferAssetOwnershipAndPossessionInput.NewOwnerAndPossessor
       qx.QxTransferAssetOwnershipAndPossessionInput.AssetName
       qx.QxTransferAssetOwnershipAndPossessionInput.NumberOfUnits].
  unfold PutUint64. rewrite !le_value_le_bytes.
  change (2 ^ (8 * Z.of_nat 8)) with (2 ^ 64).
  fold (uint64 (qx.QxTransferAssetOwnershipAndPossessionInput.AssetName x)).
  fold (uint64 (uint64 (qx.QxTransferAssetOwnershipAndPossessionInput.NumberOfUnits x))).
  rewrite (uint64_id _ Hn).
  assert (Hidem : forall z, uint64 (uint64 z) = uint64 z)
    by (intros z; unfold uint64; apply Z.mod_mod; lia).
  rewrite Hidem, (int64_uint64 _ Hu).
  destruct x; reflexivity.
Qed.

Lemma UnmarshalBinary_MarshalBinary_witness :
  let x := {| qx.QxTransferAssetOwnershipAndPossessionInput.Issuer := replicate 32 x01;
              qx.QxTransferAssetOwnershipAndPossessionInput.NewOwnerAndPossessor := replicate 32 x02;
              qx.QxTransferAssetOwnershipAndPossessionInput.AssetName := 4343363;
              qx.QxTransferAssetOwnershipAndPossessionInput.NumberOfUnits := -5 |} in
  qx.QxTransferAssetOwnershipAndPossessionInput.well_typed x /\
  exists data : list byte,
    qx.MarshalBinary x = Ok data /\ qx.UnmarshalBinary qx.zero data = (x, None).
Proof.
  intros x.
  assert (Hx : qx.QxTransferAssetOwnershipAndPossessionInput.well_typed x).
  { unfold qx.QxTransferAssetOwnershipAndPossessionInput.well_typed, is_uint64, is_int64.
    simpl. lia. }
  split; [exact Hx|].
  exact (UnmarshalBinary_MarshalBinary x qx.zero Hx).
Defined.

(** ** [hex.EncodeToString] is injective *)

Lemma hextable_inj (m n : nat) :
  (m < 16)%nat -> (n < 16)%nat ->
  nth m hextable "0"%char = nth n hextable "0"%char -> m = n.
Proof.
  intros Hm Hn.
  do 16 (destruct m as [|m];
         [do 16 (destruct n as [|n];
                 [intros E; vm_compute in E; first [reflexivity | discriminate E]|]);
          lia|]).
  lia.
Qed.

Lemma hexdigit_inj (a b : Z) :
  0 <= a < 16 -> 0 <= b < 16 -> hexdigit a = hexdigit b -> a = b.
Proof.
  intros Ha Hb E. unfold hexdigit in E.
  apply hextable_inj in E; lia.
Qed.

Lemma byte_nibbles (v : byte) :
  0 <= Z.shiftr (Z_of_byte v) 4 < 16 /\ 0 <= Z.land (Z_of_byte v) 15 < 16 /\
  Z_of_byte v = 16 * Z.shiftr (Z_of_byte v) 4 + Z.land (Z_of_byte v) 15.
Proof.
  pose proof (Z_of_byte_range v) as Hr.
  rewrite Z.shiftr_div_pow2 by lia.
  change 15 with (Z.ones 4). rewrite Z.land_ones by lia.
  change (2 ^ 4) with 16.
  pose proof (Z.div_mod (Z_of_byte v) 16 ltac:(lia)) as Hd.
  pose proof (Z.mod_pos_bound (Z_of_byte v) 16 ltac:(lia)) as Hm.
  split; [|split]; lia.
Qed.

#[global] Instance EncodeToString_inj : Inj (=) (=) EncodeToString.
Proof.
  intros l1. induction l1 as [|a l1 IH]; intros [|b l2] E; simpl in E;
    try discriminate; [reflexivity|].
  injection E as Ehi Elo Erest.
  destruct (byte_nibbles a) as (Ha1 & Ha2 & Ha3).
  destruct (byte_nibbles b) as (Hb1 & Hb2 & Hb3).
  apply hexdigit_inj in Ehi; [|assumption..].
  apply hexdigit_inj in Elo; [|assumption..].
  f_equal; [|now apply IH].
  apply Z_of_byte_inj. lia.
Qed.

(** ** Package [validator/tx]: validation *)

Lemma createTxDigestsMap_list (tickData : types.TickData.t) :
  tx.createTxDigestsMap tickData =
  list_to_set (EncodeToString <$>
               filter (fun d => d <> tx.emptyTxDigest)
                      (types.TickData.TransactionDigests tickData)).
Proof.
  unfold tx.createTxDigestsMap.
  generalize (types.TickData.TransactionDigests tickData) as l.
  assert (G : forall (l : list (list byte)) (acc : gset string),
             foldl (fun digestsMap digest =>
                      if decide (digest = tx.emptyTxDigest) then digestsMap
                      else {[ EncodeToString digest ]} ∪ digestsMap) acc l =
             list_to_set (EncodeToString <$> filter (fun d => d <> tx.emptyTxDigest) l)
               ∪ acc).
  { induction l as [|d l IH]; intros acc; simpl.
    - set_solver.
    - rewrite IH, filter_cons. destruct (decide (d = tx.emptyTxDigest)) as [->|Hd].
      + rewrite decide_False by (intros Hne; now apply Hne). reflexivity.
      + rewrite decide_True by exact Hd. rewrite fmap_cons, list_to_set_cons.
        set_solver. }
  intros l. rewrite G. set_solver.
Qed.

(** The size of the digests map is the number of distinct non-zero digests
    of the tick body. *)
Lemma size_createTxDigestsMap (tickData : types.TickData.t) :
  size (tx.createTxDigestsMap tickData) =
  length (remove_dups (filter (fun d => d <> tx.emptyTxDigest)
                              (types.TickData.TransactionDigests tickData))).
Proof.
  rewrite createTxDigestsMap_list.
  set (l := filter _ _).
  assert (E : list_to_set (EncodeToString <$> l) =@{gset string}
              list_to_set (EncodeToString <$> remove_dups l)).
  { apply set_eq. intros x. rewrite !elem_of_list_to_set, !list_elem_of_fmap.
    now setoid_rewrite elem_of_remove_dups. }
  rewrite E, size_list_to_set, length_fmap; [reflexivity|].
  apply NoDup_fmap_2; [apply _|apply NoDup_remove_dups].
Qed.

(** C5 (as amended): [Validate] reports a count mismatch exactly when the
    tick body lists at least one non-zero digest and the number of
    transactions differs from the number of distinct non-zero digests; the
    error comes with no transactions. A tick body without non-zero digests
    validates to the empty list whatever transactions come with it. *)
Theorem Validate_count_mismatch `{types.Connector}
  (sigVerifierFunc : list byte -> list byte -> list byte -> option error)
  (transactions : list types.Transaction.t) (tickData : types.TickData.t) :
  let distinct := length (remove_dups (filter (fun d => d <> tx.emptyTxDigest)
                            (types.TickData.TransactionDigests tickData))) in
  ((exists n m, tx.Validate sigVerifierFunc transactions tickData
                = Err (tx.count_mismatch n m)) <->
   distinct <> 0%nat /\ length transactions <> distinct) /\
  (distinct <> 0%nat -> length transactions <> distinct ->
   tx.Validate sigVerifierFunc transactions tickData
   = Err (tx.count_mismatch (length transactions) distinct)) /\
  (distinct = 0%nat -> tx.Validate sigVerifierFunc transactions tickData = Ok []).
Proof.
  intros distinct.
  assert (Hsize : size (tx.createTxDigestsMap tickData) = distinct)
    by apply size_createTxDigestsMap.
  unfold tx.Validate. rewrite Hsize.
  destruct (decide (distinct = 0%nat)) as [Hz|Hnz].
  - split; [|split].
    + split; [intros (n & m & E); discriminate E|intros [Hne _]; contradiction].
    + intros Hne; contradiction.
    + reflexivity.
  - destruct (decide (length transactions <> distinct)) as [Hne|He].
    + split; [|split].
      * split; [intros _; now split|intros _; eauto].
      * reflexivity.
      * intros Hz; contradiction.
    + split; [|split].
      * split; [|intros [_ Hne]; contradiction].
        intros (n & m & E).
        destruct (tx.validateTransactions _ _ _); discriminate E.
      * intros _ Hne; contradiction.
      * intros Hz; contradiction.
Qed.

(** C5 (as stated) fails: a tick body whose digests are all zero comes with
    one transaction; the counts differ (1 against 0), and [Validate]
    answers the empty list without an error. *)
Lemma Validate_empty_tick_with_transactions :
  let transactions :=
    [examples.transaction examples.alice examples.bob 100 0 [] x01] in
  let tickData := examples.tickBody [tx.emptyTxDigest; tx.emptyTxDigest] in
  length transactions = 1%nat /\
  size (tx.createTxDigestsMap tickData) = 0%nat /\
  tx.Validate examples.acceptSignature transactions tickData = Ok [].
Proof. vm_compute. repeat split. Qed.

(** ** Package [validator/tx]: grouping per identity and per asset *)

Section Grouping.
Context {V : Type}.
Implicit Types (m : gmap string (list V)) (k id : string) (v : V).

Lemma lookup_total_ensure k m id : tx.ensure k m !!! id = m !!! id.
Proof.
  unfold tx.ensure. destruct (m !! k) as [l|] eqn:E; [reflexivity|].
  rewrite lookup_total_insert. case_decide; [|reflexivity].
  subst id. now rewrite lookup_total_alt, E.
Qed.

Lemma lookup_total_append_to k v m id :
  tx.append_to k v m !!! id = if decide (k = id) then m !!! id ++ [v] else m !!! id.
Proof.
  unfold tx.append_to. rewrite lookup_total_insert.
  case_decide; [subst|]; reflexivity.
Qed.

Lemma lookup_append_to_eq k v m : tx.append_to k v m !! k = Some (m !!! k ++ [v]).
Proof. unfold tx.append_to. apply lookup_insert_eq. Qed.

Lemma lookup_append_to_is_Some k v m id :
  is_Some (m !! id) -> is_Some (tx.append_to k v m !! id).
Proof.
  intros Hs. unfold tx.append_to. rewrite lookup_insert.
  case_decide; [eauto|exact Hs].
Qed.

Lemma lookup_ensure_is_Some k m id :
  is_Some (m !! id) -> is_Some (tx.ensure k m !! id).
Proof.
  intros Hs. unfold tx.ensure. destruct (m !! k) eqn:E; [exact Hs|].
  rewrite lookup_insert. case_decide; [eauto|exact Hs].
Qed.

End Grouping.

(** What one transfer adds to the list of [id]: itself when [id] is its
    destination, and itself again when [id] is its source. *)
Lemma transfer_step_lookup (m : gmap string (list protobuff.Transaction.t))
  (p : protobuff.Transaction.t) (id : string) :
  tx.append_to (protobuff.Transaction.SourceId p) p
    (tx.append_to (protobuff.Transaction.DestId p) p
       (tx.ensure (protobuff.Transaction.SourceId p)
          (tx.ensure (protobuff.Transaction.DestId p) m))) !!! id =
  m !!! id ++
  (if decide (protobuff.Transaction.DestId p = id) then [p] else []) ++
  (if decide (protobuff.Transaction.SourceId p = id) then [p] else []).
Proof.
  rewrite !lookup_total_append_to, !lookup_total_ensure.
  repeat case_decide; rewrite ?app_nil_r, <- ?app_assoc; reflexivity.
Qed.

Lemma createTransferTransactionsIdentityMap_lookup
  (txs : list protobuff.Transaction.t) (id : string) :
  exists m, tx.createTransferTransactionsIdentityMap txs = Ok m /\
    m !!! id =
    flat_map (fun p =>
                (if decide (protobuff.Transaction.DestId p = id) then [p] else []) ++
                (if decide (protobuff.Transaction.SourceId p = id) then [p] else []))
             txs /\
    ((exists p, p ∈ txs /\ (protobuff.Transaction.DestId p = id \/
                            protobuff.Transaction.SourceId p = id)) ->
     is_Some (m !! id)).
Proof.
  unfold tx.createTransferTransactionsIdentityMap. eexists. split; [reflexivity|].
  set (step := fun (m : gmap string (list protobuff.Transaction.t)) p => _).
  assert (G : forall txs (m0 : gmap string (list protobuff.Transaction.t)),
             foldl step m0 txs !!! id =
             m0 !!! id ++
             flat_map (fun p =>
                (if decide (protobuff.Transaction.DestId p = id) then [p] else []) ++
                (if decide (protobuff.Transaction.SourceId p = id) then [p] else []))
               txs).
  { clear txs. induction txs as [|p txs IH]; intros m0; simpl.
    - now rewrite app_nil_r.
    - rewrite IH. unfold step. rewrite transfer_step_lookup.
      now rewrite <- !app_assoc. }
  assert (K : forall txs (m0 : gmap string (list protobuff.Transaction.t)),
             is_Some (m0 !! id) -> is_Some (foldl step m0 txs !! id)).
  { clear. induction txs as [|p txs IH]; intros m0 Hs; simpl; [exact Hs|].
    apply IH. unfold step.
    now apply lookup_append_to_is_Some, lookup_append_to_is_Some,
              lookup_ensure_is_Some, lookup_ensure_is_Some. }
  split.
  - rewrite G. now rewrite lookup_total_empty.
  - intros (p & Hin & Hp).
    apply list_elem_of_split in Hin as (l1 & l2 & ->).
    rewrite foldl_app. simpl. apply K. unfold step at 1.
    destruct Hp as [Hp|Hp]; subst id.
    + apply lookup_append_to_is_Some. rewrite lookup_append_to_eq. eauto.
    + rewrite lookup_append_to_eq. eauto.
Qed.

Lemma removeNonTransferTransactionsAndConvert_elem `{types.Connector}
  (transactions : list types.Transaction.t) (ps : list protobuff.Transaction.t)
  (t : types.Transaction.t) (p : protobuff.Transaction.t) :
  tx.removeNonTransferTransactionsAndConvert transactions = Ok ps ->
  t ∈ transactions -> types.Transaction.Amount t <> 0 -> tx.txToProto t = Ok p ->
  p ∈ ps.
Proof.
  revert ps. induction transactions as [|t' rest IH]; intros ps Hok Hin Ha Hp.
  - inversion Hin.
  - simpl in Hok.
    destruct (decide (types.Transaction.Amount t' = 0)) as [Hz|Hnz].
    + apply elem_of_cons in Hin as [->|Hin]; [contradiction|]. eauto.
    + destruct (tx.txToProto t') as [p'|e] eqn:Ep; [|discriminate Hok].
      simpl in Hok.
      destruct (tx.removeNonTransferTransactionsAndConvert rest) as [ps'|e] eqn:Er;
        [|discriminate Hok].
      injection Hok as <-.
      apply elem_of_cons in Hin as [->|Hin].
      * rewrite Hp in Ep. injection Ep as ->. apply list_elem_of_here.
      * apply list_elem_of_further. eauto.
Qed.

(** The records [storeTransferTransactions] puts: one per identity of the
    map, under the identity and the tick. *)
Lemma PutTransferTransactionsPerTick_fold (tickNumber : Z)
  (m : gmap string (list protobuff.Transaction.t)) (s : store.PebbleStore) (id : string) :
  store.identityTransferTxs
    (map_fold (fun id txs s =>
       store.PutTransferTransactionsPerTick id tickNumber
         {| protobuff.TransferTransactionsPerTick.TickNumber := uint32 tickNumber;
            protobuff.TransferTransactionsPerTick.Identity := id;
            protobuff.TransferTransactionsPerTick.Transactions := txs |} s) s m)
    !! (id, tickNumber) =
  match m !! id with
  | Some txs => Some {| protobuff.TransferTransactionsPerTick.TickNumber := uint32 tickNumber;
                        protobuff.TransferTransactionsPerTick.Identity := id;
                        protobuff.TransferTransactionsPerTick.Transactions := txs |}
  | None => store.identityTransferTxs s !! (id, tickNumber)
  end.
Proof.
  apply (map_fold_weak_ind (fun r m =>
    store.identityTransferTxs r !! (id, tickNumber) =
    match m !! id with
    | Some txs => Some {| protobuff.TransferTransactionsPerTick.TickNumber := uint32 tickNumber;
                          protobuff.TransferTransactionsPerTick.Identity := id;
                          protobuff.TransferTransactionsPerTick.Transactions := txs |}
    | None => store.identityTransferTxs s !! (id, tickNumber)
    end)).
  - now rewrite lookup_empty.
  - intros i x m' r Hi IH. simpl.
    destruct (decide (i = id)) as [->|Hne].
    + now rewrite !lookup_insert_eq.
    + rewrite lookup_insert_ne by congruence.
      rewrite (lookup_insert_ne m') by exact Hne. exact IH.
Qed.

Lemma flat_map_listed_twice {A} (f : A -> list A) (l : list A) (x : A) :
  x ∈ l -> f x = [x; x] ->
  exists before after, flat_map f l = before ++ [x; x] ++ after.
Proof.
  intros Hin Hf. apply list_elem_of_split in Hin as (l1 & l2 & ->).
  exists (flat_map f l1), (flat_map f l2).
  rewrite flat_map_app. simpl. now rewrite Hf.
Qed.

Section QxGrouping.
Context `{types.Connector}.

Lemma createQxAssetTransfersIdentityMap_loop_extends
  (txs : list tx.QxTransactionWithTransferAssetPayload.t) (tickNumber : Z)
  (m0 m : gmap string (list tx.QxAssetTransfer.t)) (id : string) :
  tx.createQxAssetTransfersIdentityMap_loop txs tickNumber m0 = Ok m ->
  (exists after, m !!! id = m0 !!! id ++ after) /\
  (is_Some (m0 !! id) -> is_Some (m !! id)).
Proof.
  revert m0. induction txs as [|qtx rest IH]; intros m0 Hok; simpl in Hok.
  - injection Hok as <-. split; [exists []; now rewrite app_nil_r|auto].
  - destruct (tx.toQxAssetTransfer qtx tickNumber) as [a|e]; [|discriminate Hok].
    simpl in Hok. apply IH in Hok as [(after & Hafter) Hsome]. split.
    + rewrite Hafter, !lookup_total_append_to, !lookup_total_ensure.
      repeat case_decide; rewrite <- ?app_assoc; eauto.
    + intros Hs. apply Hsome.
      now apply lookup_append_to_is_Some, lookup_append_to_is_Some,
                lookup_ensure_is_Some, lookup_ensure_is_Some.
Qed.

Lemma createQxAssetTransfersIdentityMap_loop_twice
  (txs : list tx.QxTransactionWithTransferAssetPayload.t) (tickNumber : Z)
  (m0 m : gmap string (list tx.QxAssetTransfer.t))
  (qtx : tx.QxTransactionWithTransferAssetPayload.t) (a : tx.QxAssetTransfer.t) :
  tx.createQxAssetTransfersIdentityMap_loop txs tickNumber m0 = Ok m ->
  qtx ∈ txs -> tx.toQxAssetTransfer qtx tickNumber = Ok a ->
  tx.QxAssetTransfer.DestId a = tx.QxAssetTransfer.SourceId a ->
  exists before after,
    m !! tx.QxAssetTransfer.SourceId a = Some (before ++ [a; a] ++ after).
Proof.
  intros Hok Hin Ha Hself. revert m0 Hok.
  induction txs as [|qtx' rest IH]; intros m0 Hok; [inversion Hin|].
  simpl in Hok.
  destruct (tx.toQxAssetTransfer qtx' tickNumber) as [a'|e] eqn:Ea'; [|discriminate Hok].
  simpl in Hok.
  apply elem_of_cons in Hin as [->|Hin]; [|now apply (IH Hin _ Hok)].
  rewrite Ha in Ea'. injection Ea' as <-.
  apply (createQxAssetTransfersIdentityMap_loop_extends _ _ _ _
           (tx.QxAssetTransfer.SourceId a)) in Hok as [(after & Hafter) Hsome].
  rewrite Hself in Hafter, Hsome.
  rewrite !lookup_total_append_to, !lookup_total_ensure in Hafter.
  rewrite !decide_True in Hafter by reflexivity.
  rewrite lookup_append_to_eq in Hsome.
  exists (m0 !!! tx.QxAssetTransfer.SourceId a), after.
  rewrite lookup_lookup_total by (apply Hsome; eauto).
  rewrite Hafter, <- !app_assoc. reflexivity.
Qed.

End QxGrouping.

(** The two groupings fail only where a conversion of the node library
    fails. *)
Lemma removeNonTransferTransactionsAndConvert_ok `{types.Connector}
  (transactions : list types.Transaction.t) :
  Forall (fun t => types.Transaction.Amount t <> 0 -> is_ok (tx.txToProto t) = true)
         transactions ->
  exists ps, tx.removeNonTransferTransactionsAndConvert transactions = Ok ps.
Proof.
  induction 1 as [|t rest Ht _ [ps IH]]; cbn [tx.removeNonTransferTransactionsAndConvert];
    [eauto|].
  case_decide; [eauto|].
  destruct (tx.txToProto t); [|now discriminate Ht]. cbn [wrapping rbind].
  rewrite IH. cbn [rbind]. eauto.
Qed.

Lemma createQxAssetTransfersIdentityMap_loop_ok `{types.Connector}
  (txs : list tx.QxTransactionWithTransferAssetPayload.t) (tickNumber : Z)
  (m0 : gmap string (list tx.QxAssetTransfer.t)) :
  Forall (fun qtx => is_ok (tx.toQxAssetTransfer qtx tickNumber) = true) txs ->
  exists m, tx.createQxAssetTransfersIdentityMap_loop txs tickNumber m0 = Ok m.
Proof.
  intros Hall. revert m0.
  induction Hall as [|qtx rest Hqtx _ IH]; intros m0;
    cbn [tx.createQxAssetTransfersIdentityMap_loop]; [eauto|].
  destruct (tx.toQxAssetTransfer qtx tickNumber); [|discriminate Hqtx].
  cbn [rbind]. apply IH.
Qed.

(** C9: a transfer with a positive amount whose source is its destination
    stands twice, side by side, in the record stored for that identity and
    tick; an asset transfer whose new owner is its source stands twice in
    the list grouped for that identity. The two functions do succeed:
    [storeTransferTransactions] when the node library converts the
    transactions with an amount, [createQxAssetTransfersIdentityMap] when
    it converts the asset transfers. *)
Theorem self_transfer_listed_twice `{types.Connector} :
  (forall (transactions : list types.Transaction.t) (tickNumber : Z)
          (s s' : store.PebbleStore) (t : types.Transaction.t)
          (p : protobuff.Transaction.t),
     tx_store.storeTransferTransactions tickNumber transactions s = (Ok tt, s') ->
     t ∈ transactions -> 0 < types.Transaction.Amount t -> tx.txToProto t = Ok p ->
     protobuff.Transaction.SourceId p = protobuff.Transaction.DestId p ->
     exists before after,
       store.identityTransferTxs s' !! (protobuff.Transaction.SourceId p, tickNumber) =
       Some {| protobuff.TransferTransactionsPerTick.TickNumber := uint32 tickNumber;
               protobuff.TransferTransactionsPerTick.Identity := protobuff.Transaction.SourceId p;
               protobuff.TransferTransactionsPerTick.Transactions :=
                 before ++ [p; p] ++ after |}) /\
  (forall (transactions : list types.Transaction.t) (tickNumber : Z)
          (s : store.PebbleStore),
     Forall (fun t => types.Transaction.Amount t <> 0 -> is_ok (tx.txToProto t) = true)
            transactions ->
     exists s', tx_store.storeTransferTransactions tickNumber transactions s = (Ok tt, s')) /\
  (forall (txs : list tx.QxTransactionWithTransferAssetPayload.t) (tickNumber : Z)
          (m : gmap string (list tx.QxAssetTransfer.t))
          (qtx : tx.QxTransactionWithTransferAssetPayload.t) (a : tx.QxAssetTransfer.t),
     tx.createQxAssetTransfersIdentityMap txs tickNumber = Ok m ->
     qtx ∈ txs -> tx.toQxAssetTransfer qtx tickNumber = Ok a ->
     qx.QxTransferAssetPayload.DestId (tx.QxTransactionWithTransferAssetPayload.TransferPayload qtx)
       = tx.QxAssetTransfer.SourceId a ->
     exists before after,
       m !! tx.QxAssetTransfer.SourceId a = Some (before ++ [a; a] ++ after)) /\
  (forall (txs : list tx.QxTransactionWithTransferAssetPayload.t) (tickNumber : Z),
     Forall (fun qtx => is_ok (tx.toQxAssetTransfer qtx tickNumber) = true) txs ->
     exists m, tx.createQxAssetTransfersIdentityMap txs tickNumber = Ok m).
Proof.
  split; [|split; [|split]].
  - intros transactions tickNumber s s' t p Hrun Hin Hamount Hp Hself.
    unfold tx_store.storeTransferTransactions, mbind, wrapM, lift, modify in Hrun.
    destruct (tx.removeNonTransferTransactionsAndConvert transactions) as [ps|e] eqn:Eps;
      [|discriminate Hrun].
    simpl in Hrun.
    destruct (createTransferTransactionsIdentityMap_lookup ps
                (protobuff.Transaction.SourceId p)) as (m & Em & Hm & Hsome).
    unfold tx.createTransferTransactionsIdentityMap in Em. injection Em as Em.
    rewrite Em in Hrun. injection Hrun as <-.
    assert (Hps : p ∈ ps).
    { eapply removeNonTransferTransactionsAndConvert_elem; eauto. lia. }
    rewrite PutTransferTransactionsPerTick_fold.
    rewrite lookup_lookup_total by (apply Hsome; eauto).
    rewrite Hm.
    destruct (flat_map_listed_twice
      (fun p0 =>
         (if decide (protobuff.Transaction.DestId p0 = protobuff.Transaction.SourceId p)
          then [p0] else []) ++
         (if decide (protobuff.Transaction.SourceId p0 = protobuff.Transaction.SourceId p)
          then [p0] else [])) ps p Hps) as (before & after & ->).
    { rewrite !decide_True by congruence. reflexivity. }
    eauto.
  - intros transactions tickNumber s Hall.
    destruct (removeNonTransferTransactionsAndConvert_ok transactions Hall) as [ps Eps].
    unfold tx_store.storeTransferTransactions, mbind, wrapM, lift, modify.
    rewrite Eps. cbn [wrapping]. unfold tx.createTransferTransactionsIdentityMap.
    cbn [wrapping]. eauto.
  - intros txs tickNumber m qtx a Hok Hin Ha Hself.
    unfold tx.createQxAssetTransfersIdentityMap in Hok.
    eapply createQxAssetTransfersIdentityMap_loop_twice; eauto.
    rewrite <- Hself. unfold tx.toQxAssetTransfer in Ha.
    destruct (types.Digest _); [|discriminate Ha]. simpl in Ha.
    destruct (types.FromPubKey _ true); [|discriminate Ha]. simpl in Ha.
    destruct (types.FromPubKey _ false); [|discriminate Ha]. simpl in Ha.
    injection Ha as <-. reflexivity.
  - intros txs tickNumber Hall.
    apply (createQxAssetTransfersIdentityMap_loop_ok txs tickNumber ∅ Hall).
Qed.

Lemma self_transfer_listed_twice_witness :
  let t := examples.transaction examples.alice examples.alice 100 0 [] x01 in
  let p := {| protobuff.Transaction.SourceId := EncodeToString examples.alice;
              protobuff.Transaction.DestId := EncodeToString examples.alice;
              protobuff.Transaction.Amount := 100;
              protobuff.Transaction.TickNumber := 7;
              protobuff.Transaction.InputType := 0;
              protobuff.Transaction.InputSize := 0;
              protobuff.Transaction.InputHex := "";
              protobuff.Transaction.SignatureHex := EncodeToString (replicate 64 x01);
              protobuff.Transaction.TxId := EncodeToString (replicate 32 x01) |} in
  let qtx :=
    {| tx.QxTransactionWithTransferAssetPayload.Transaction :=
         examples.transaction examples.alice examples.qxKey 0 2 [] x02;
       tx.QxTransactionWithTransferAssetPayload.TransferPayload :=
         {| qx.QxTransferAssetPayload.Issuer := EncodeToString examples.bob;
            qx.QxTransferAssetPayload.DestId := EncodeToString examples.alice;
            qx.QxTransferAssetPayload.AssetName := "CFB";
            qx.QxTransferAssetPayload.Amount := 5 |} |} in
  let a :=
    {| tx.QxAssetTransfer.AssetIssuer := EncodeToString examples.bob;
       tx.QxAssetTransfer.AssetName := "CFB";
       tx.QxAssetTransfer.SourceId := EncodeToString examples.alice;
       tx.QxAssetTransfer.DestId := EncodeToString examples.alice;
       tx.QxAssetTransfer.Amount := 5;
       tx.QxAssetTransfer.TxId := EncodeToString (replicate 32 x02);
       tx.QxAssetTransfer.TickNumber := 7 |} in
  (exists s' before after,
     tx_store.storeTransferTransactions 7 [t] store.empty = (Ok tt, s') /\
     store.identityTransferTxs s' !! (EncodeToString examples.alice, 7) =
     Some {| protobuff.TransferTransactionsPerTick.TickNumber := uint32 7;
             protobuff.TransferTransactionsPerTick.Identity := EncodeToString examples.alice;
             protobuff.TransferTransactionsPerTick.Transactions :=
               before ++ [p; p] ++ after |}) /\
  (exists m before after,
     tx.createQxAssetTransfersIdentityMap [qtx] 7 = Ok m /\
     m !! EncodeToString examples.alice = Some (before ++ [a; a] ++ after)).
Proof.
  intros t p qtx a.
  destruct self_transfer_listed_twice as (Htwice & Hstored & Htwice' & Hgrouped). split.
  - destruct (Hstored [t] 7 store.empty) as [s' Hrun].
    { constructor; [intros _; reflexivity|constructor]. }
    destruct (Htwice [t] 7 store.empty s' t p Hrun) as (before & after & Hrecord).
    + apply list_elem_of_here.
    + simpl. lia.
    + vm_compute. reflexivity.
    + reflexivity.
    + exists s', before, after. split; [exact Hrun|exact Hrecord].
  - destruct (Hgrouped [qtx] 7) as [m Hm].
    { constructor; [reflexivity|constructor]. }
    destruct (Htwice' [qtx] 7 m qtx a Hm) as (before & after & Hlist).
    + apply list_elem_of_here.
    + vm_compute. reflexivity.
    + reflexivity.
    + exists m, before, after. split; [exact Hm|exact Hlist].
Defined.

Lemma createQxAssetTransferAssetIdMap_lookup (transfers : list tx.QxAssetTransfer.t)
  (assetId : string) :
  exists m, tx.createQxAssetTransferAssetIdMap transfers = Ok m /\
    m !!! assetId =
    tx.toQxAssetTransferDB <$>
      filter (fun t => (tx.QxAssetTransfer.AssetIssuer t ++ tx.QxAssetTransfer.AssetName t)%string
                       = assetId) transfers.
Proof.
  unfold tx.createQxAssetTransferAssetIdMap. eexists. split; [reflexivity|].
  set (step := fun (m : gmap string (list protobuff.QxAssetTransferDB.t)) t => _).
  assert (G : forall transfers (m0 : gmap string (list protobuff.QxAssetTransferDB.t)),
             foldl step m0 transfers !!! assetId =
             m0 !!! assetId ++
             (tx.toQxAssetTransferDB <$>
                filter (fun t => (tx.QxAssetTransfer.AssetIssuer t ++
                                  tx.QxAssetTransfer.AssetName t)%string = assetId)
                       transfers)).
  { clear transfers. induction transfers as [|t transfers IH]; intros m0; simpl.
    - now rewrite app_nil_r.
    - rewrite IH. unfold step. rewrite lookup_total_append_to, lookup_total_ensure.
      rewrite filter_cons. case_decide.
      + rewrite fmap_cons, <- app_assoc. reflexivity.
      + reflexivity. }
  rewrite G. now rewrite lookup_total_empty.
Qed.

(** C10: the stored amount of an asset transfer is [uint64] of the signed
    [NumberOfUnits] of the payload: a negative number of units [n] is
    stored as [n + 2^64], a non-negative one as it is. *)
Theorem negative_units_stored_as_uint64 `{types.Connector}
  (input : qx.QxTransferAssetOwnershipAndPossessionInput.t)
  (qtx : tx.QxTransactionWithTransferAssetPayload.t) (tickNumber : Z)
  (a : tx.QxAssetTransfer.t) (transfers : list tx.QxAssetTransfer.t)
  (m : gmap string (list protobuff.QxAssetTransferDB.t)) :
  is_int64 (qx.QxTransferAssetOwnershipAndPossessionInput.NumberOfUnits input) ->
  qx.GetAssetTransfer input
    = Ok (tx.QxTransactionWithTransferAssetPayload.TransferPayload qtx) ->
  tx.toQxAssetTransfer qtx tickNumber = Ok a ->
  a ∈ transfers ->
  tx.createQxAssetTransferAssetIdMap transfers = Ok m ->
  let n := qx.QxTransferAssetOwnershipAndPossessionInput.NumberOfUnits input in
  exists r : protobuff.QxAssetTransferDB.t,
    r ∈ m !!! (tx.QxAssetTransfer.AssetIssuer a ++ tx.QxAssetTransfer.AssetName a)%string /\
    protobuff.QxAssetTransferDB.TxId r = tx.QxAssetTransfer.TxId a /\
    is_uint64 (protobuff.QxAssetTransferDB.Amount r) /\
    (n < 0 -> protobuff.QxAssetTransferDB.Amount r = n + 2 ^ 64) /\
    (0 <= n -> protobuff.QxAssetTransferDB.Amount r = n).
Proof.
  intros Hn Hpayload Ha Hin Hm n.
  assert (Hamount : tx.QxAssetTransfer.Amount a = n).
  { unfold qx.GetAssetTransfer in Hpayload.
    destruct (types.FromPubKey _ false); [|discriminate Hpayload]. simpl in Hpayload.
    destruct (types.FromPubKey _ false); [|discriminate Hpayload]. simpl in Hpayload.
    injection Hpayload as Hpayload.
    unfold tx.toQxAssetTransfer in Ha.
    destruct (types.Digest _); [|discriminate Ha]. simpl in Ha.
    destruct (types.FromPubKey _ true); [|discriminate Ha]. simpl in Ha.
    destruct (types.FromPubKey _ false); [|discriminate Ha]. simpl in Ha.
    injection Ha as <-. rewrite <- Hpayload. reflexivity. }
  destruct (createQxAssetTransferAssetIdMap_lookup transfers
    (tx.QxAssetTransfer.AssetIssuer a ++ tx.QxAssetTransfer.AssetName a)%string)
    as (m' & Em' & Hlookup).
  rewrite Hm in Em'. injection Em' as <-.
  exists (tx.toQxAssetTransferDB a). rewrite Hlookup.
  split; [|split; [reflexivity|]].
  - apply list_elem_of_fmap. exists a. split; [reflexivity|].
    apply list_elem_of_filter. split; [reflexivity|exact Hin].
  - cbn [tx.toQxAssetTransferDB protobuff.QxAssetTransferDB.Amount].
    rewrite Hamount. split; [|split].
    + unfold is_uint64, uint64. apply Z.mod_pos_bound. lia.
    + intros Hneg. apply uint64_negative. unfold is_int64 in Hn. fold n in Hn. lia.
    + intros Hpos. apply uint64_id. unfold is_int64 in Hn. fold n in Hn.
      unfold is_uint64. change (2 ^ 63) with 9223372036854775808 in Hn.
      change (2 ^ 64) with 18446744073709551616. lia.
Qed.

Lemma negative_units_stored_as_uint64_witness :
  let input :=
    {| qx.QxTransferAssetOwnershipAndPossessionInput.Issuer := examples.alice;
       qx.QxTransferAssetOwnershipAndPossessionInput.NewOwnerAndPossessor := examples.bob;
       qx.QxTransferAssetOwnershipAndPossessionInput.AssetName := 4343363;
       qx.QxTransferAssetOwnershipAndPossessionInput.NumberOfUnits := -5 |} in
  let payload :=
    {| qx.QxTransferAssetPayload.Issuer := EncodeToString examples.alice;
       qx.QxTransferAssetPayload.DestId := EncodeToString examples.bob;
       qx.QxTransferAssetPayload.AssetName := "CFB";
       qx.QxTransferAssetPayload.Amount := -5 |} in
  let qtx :=
    {| tx.QxTransactionWithTransferAssetPayload.Transaction :=
         examples.transaction examples.alice examples.qxKey 0 2 [] x01;
       tx.QxTransactionWithTransferAssetPayload.TransferPayload := payload |} in
  let a :=
    {| tx.QxAssetTransfer.AssetIssuer := EncodeToString examples.alice;
       tx.QxAssetTransfer.AssetName := "CFB";
       tx.QxAssetTransfer.SourceId := EncodeToString examples.alice;
       tx.QxAssetTransfer.DestId := EncodeToString examples.bob;
       tx.QxAssetTransfer.Amount := -5;
       tx.QxAssetTransfer.TxId := EncodeToString (replicate 32 x01);
       tx.QxAssetTransfer.TickNumber := 7 |} in
  exists r : protobuff.QxAssetTransferDB.t,
    r ∈ ({[ (EncodeToString examples.alice ++ "CFB")%string :=
              [tx.toQxAssetTransferDB a] ]} : gmap string (list protobuff.QxAssetTransferDB.t))
          !!! (tx.QxAssetTransfer.AssetIssuer a ++ tx.QxAssetTransfer.AssetName a)%string /\
    protobuff.QxAssetTransferDB.TxId r = tx.QxAssetTransfer.TxId a /\
    is_uint64 (protobuff.QxAssetTransferDB.Amount r) /\
    (-5 < 0 -> protobuff.QxAssetTransferDB.Amount r = -5 + 2 ^ 64) /\
    (0 <= -5 -> protobuff.QxAssetTransferDB.Amount r = -5).
Proof.
  intros input payload qtx a.
  apply (negative_units_stored_as_uint64 input qtx 7 a [a]).
  - unfold is_int64. simpl. lia.
  - vm_compute. reflexivity.
  - vm_compute. reflexivity.
  - apply list_elem_of_here.
  - vm_compute. reflexivity.
Defined.

(** ** Package [store]: the processed-tick bookkeeping *)

Lemma intervals_ascending_snoc (l : list protobuff.ProcessedTickInterval.t)
  (x : protobuff.ProcessedTickInterval.t) :
  spec.intervals_ascending (l ++ [x]) <->
  spec.intervals_ascending l /\
  (forall j, last l = Some j ->
     protobuff.ProcessedTickInterval.LastProcessedTick j
     < protobuff.ProcessedTickInterval.InitialProcessedTick x) /\
  protobuff.ProcessedTickInterval.InitialProcessedTick x
  <= protobuff.ProcessedTickInterval.LastProcessedTick x.
Proof.
  induction l as [|i l IH].
  - simpl. split; [intros (Hx & _ & _)|intros (_ & _ & Hx)]; repeat split; auto.
    intros j Hj; discriminate Hj.
  - destruct l as [|i' l].
    + simpl. split.
      * intros (Hi & Hlt & Hx & _). repeat split; auto.
        intros j [= <-]. exact Hlt.
      * intros ((Hi & _) & Hlt & Hx). repeat split; auto.
    + change ((i :: i' :: l) ++ [x]) with (i :: (i' :: l) ++ [x]).
      cbn [spec.intervals_ascending app] in *. rewrite IH. clear IH.
      rewrite last_cons_cons. tauto.
Qed.

Lemma set_last_LastProcessedTick_snoc (tick : Z)
  (l : list protobuff.ProcessedTickInterval.t) (x : protobuff.ProcessedTickInterval.t) :
  store.set_last_LastProcessedTick tick (l ++ [x]) =
  l ++ [spec.interval (protobuff.ProcessedTickInterval.InitialProcessedTick x) tick].
Proof.
  unfold store.set_last_LastProcessedTick.
  rewrite length_app. simpl.
  replace (Init.Nat.pred (length l + 1)) with (length l + 0)%nat by lia.
  now rewrite alter_app_r.
Qed.

Lemma intervals_SetProcessedTickIntervalPerEpoch (s : store.PebbleStore) (epoch : Z)
  (ptie : protobuff.ProcessedTickIntervalsPerEpoch.t) :
  spec.intervals (store.SetProcessedTickIntervalPerEpoch epoch ptie s) epoch =
  protobuff.ProcessedTickIntervalsPerEpoch.Intervals ptie.
Proof.
  unfold spec.intervals, store.getProcessedTickIntervalsPerEpoch. simpl.
  now rewrite lookup_insert_eq.
Qed.

(** What [SetLastProcessedTick] leaves under [ProcessedTickIntervals|epoch]. *)
Lemma intervals_SetLastProcessedTick (s : store.PebbleStore)
  (lpt : protobuff.ProcessedTick.t) :
  let epoch := protobuff.ProcessedTick.Epoch lpt in
  let tick := protobuff.ProcessedTick.TickNumber lpt in
  spec.intervals (store.SetLastProcessedTick lpt s) epoch =
  if decide (length (spec.intervals s epoch) = 0%nat)
  then [spec.interval tick tick]
  else store.set_last_LastProcessedTick tick (spec.intervals s epoch).
Proof.
  intros epoch tick. unfold store.SetLastProcessedTick.
  rewrite intervals_SetProcessedTickIntervalPerEpoch.
  fold epoch tick.
  set (s1 := store.with_lastProcessedTick _ _ s).
  change (store.getProcessedTickIntervalsPerEpoch s1 epoch)
    with (store.getProcessedTickIntervalsPerEpoch s epoch).
  unfold spec.intervals. case_decide; reflexivity.
Qed.

(** [AppendProcessedTickInterval] is what starts a new interval: it puts
    the given one after the intervals of the epoch. *)
Lemma AppendProcessedTickInterval_intervals (s : store.PebbleStore) (epoch : Z)
  (pti : protobuff.ProcessedTickInterval.t) :
  spec.intervals (store.AppendProcessedTickInterval epoch pti s) epoch
  = spec.intervals s epoch ++ [pti].
Proof.
  unfold store.AppendProcessedTickInterval.
  now rewrite intervals_SetProcessedTickIntervalPerEpoch.
Qed.

(** C6 (as amended): after [SetLastProcessedTick] the last interval of
    the epoch ends at the tick just processed. The function starts a new
    interval exactly when the epoch has none yet, and otherwise moves the
    end of the last interval to the tick, also over a gap. If the intervals
    of the epoch were ascending ranges apart from each other before the
    call and the tick is not below the start of the last of them, they are
    so after the call; with a tick below that start they are not. An
    interval after a gap is what [AppendProcessedTickInterval] starts,
    which appends the interval it is given. *)
Theorem SetLastProcessedTick_intervals (s : store.PebbleStore)
  (lpt : protobuff.ProcessedTick.t) :
  let epoch := protobuff.ProcessedTick.Epoch lpt in
  let tick := protobuff.ProcessedTick.TickNumber lpt in
  let before := spec.intervals s epoch in
  let after := spec.intervals (store.SetLastProcessedTick lpt s) epoch in
  (exists i, last after = Some i /\
             protobuff.ProcessedTickInterval.LastProcessedTick i = tick) /\
  (length after = S (length before) <-> before = []) /\
  (before = [] -> after = [spec.interval tick tick]) /\
  (forall l i, before = l ++ [i] ->
     after = l ++ [spec.interval
                     (protobuff.ProcessedTickInterval.InitialProcessedTick i) tick]) /\
  (spec.intervals_ascending before ->
   (forall i, last before = Some i ->
      protobuff.ProcessedTickInterval.InitialProcessedTick i <= tick) ->
   spec.intervals_ascending after) /\
  (forall i, last before = Some i ->
     tick < protobuff.ProcessedTickInterval.InitialProcessedTick i ->
     ~ spec.intervals_ascending after) /\
  (forall pti,
     spec.intervals (store.AppendProcessedTickInterval epoch pti s) epoch = before ++ [pti]).
Proof.
  intros epoch tick before after.
  assert (Happend : forall pti,
    spec.intervals (store.AppendProcessedTickInterval epoch pti s) epoch = before ++ [pti])
    by (intros pti; apply AppendProcessedTickInterval_intervals).
  assert (Hafter : after = if decide (length before = 0%nat)
                           then [spec.interval tick tick]
                           else store.set_last_LastProcessedTick tick before)
    by exact (intervals_SetLastProcessedTick s lpt).
  clearbody after before. subst after.
  destruct (decide (before = [])) as [->|Hne].
  - rewrite decide_True by reflexivity.
    split; [exists (spec.interval tick tick); split; reflexivity|].
    split; [simpl; tauto|]. split; [reflexivity|].
    split; [intros l i E; destruct l; discriminate E|].
    split; [intros _ _; simpl; lia|].
    split; [|exact Happend].
    intros i Hi. discriminate Hi.
  - destruct (exists_last Hne) as (l & i & ->).
    rewrite decide_False by (rewrite length_app; simpl; lia).
    rewrite set_last_LastProcessedTick_snoc.
    split; [eexists; split; [apply last_snoc|reflexivity]|].
    split; [rewrite !length_app; simpl; split; [lia|intros Habs; contradiction]|].
    split; [intros Habs; contradiction|].
    split; [intros l' i' E; apply app_inj_tail in E as [-> ->]; reflexivity|].
    split; [|split; [|exact Happend]].
    + intros Hasc Hlo.
      apply intervals_ascending_snoc in Hasc as (Hl & Hgap & Hi).
      specialize (Hlo i (last_snoc _ _)).
      apply intervals_ascending_snoc. repeat split; auto.
    + intros i' Hi' Hlt Hasc. rewrite last_snoc in Hi'. injection Hi' as <-.
      apply intervals_ascending_snoc in Hasc as (_ & _ & Hi). simpl in Hi. lia.
Qed.

Lemma SetLastProcessedTick_intervals_witness :
  let s := store.SetLastProcessedTick (spec.processedTick 10 100) store.empty in
  let lpt := spec.processedTick 11 100 in
  spec.intervals s 100 = [spec.interval 10 10] /\
  spec.intervals (store.SetLastProcessedTick lpt s) 100 = [spec.interval 10 11] /\
  spec.intervals_ascending (spec.intervals (store.SetLastProcessedTick lpt s) 100) /\
  ~ spec.intervals_ascending
      (spec.intervals (store.SetLastProcessedTick (spec.processedTick 9 100) s) 100).
Proof.
  intros s lpt.
  assert (E : spec.intervals s 100 = [spec.interval 10 10]) by reflexivity.
  split; [exact E|].
  destruct (SetLastProcessedTick_intervals s lpt) as (_ & _ & _ & Hmove & Hasc & _).
  destruct (SetLastProcessedTick_intervals s (spec.processedTick 9 100))
    as (_ & _ & _ & _ & _ & Hbelow & _).
  split; [exact (Hmove [] (spec.interval 10 10) E)|]. split.
  - apply Hasc.
    + change (protobuff.ProcessedTick.Epoch lpt) with 100. rewrite E. simpl. lia.
    + change (protobuff.ProcessedTick.Epoch lpt) with 100. rewrite E.
      intros i Hi. injection Hi as <-. simpl. lia.
  - apply (Hbelow (spec.interval 10 10)).
    + change (protobuff.ProcessedTick.Epoch (spec.processedTick 9 100)) with 100.
      rewrite E. reflexivity.
    + simpl. lia.
Defined.

(** C6 (as stated) fails: after the ticks 10, 11 and 12 of epoch 100 the
    tick 20 arrives, which is not 12 + 1; no new interval is started, the
    one interval now reads [10, 20]. *)
Lemma SetLastProcessedTick_extends_over_gap :
  let s := store.SetLastProcessedTick (spec.processedTick 12 100)
             (store.SetLastProcessedTick (spec.processedTick 11 100)
                (store.SetLastProcessedTick (spec.processedTick 10 100) store.empty)) in
  store.GetLastProcessedTick s = Ok (spec.processedTick 12 100) /\
  spec.intervals s 100 = [spec.interval 10 12] /\
  20 <> 12 + 1 /\
  spec.intervals (store.SetLastProcessedTick (spec.processedTick 20 100) s) 100
  = [spec.interval 10 20].
Proof. vm_compute. repeat split. discriminate. Qed.

(** ** Package [store]: the reverse asset-transaction reader *)

(** Scenario S6 of the specification: five asset transactions in one tick,
    read two at a time. *)
Example reader_pages_within_a_tick :
  let s := examples.history ["t1"; "t2"; "t3"; "t4"; "t5"] [] in
  let call endTick index :=
    match store.GetIdetityAssetTransactionsFromEnd s true
            (EncodeToString examples.alice) examples.asset endTick index 2 with
    | Ok (page, nextEndTick, nextIndex, _) => Some (examples.ids page, nextEndTick, nextIndex)
    | Err _ => None
    end in
  call 7 0 = Some (["t5"; "t4"], 7, 2) /\
  call 7 2 = Some (["t3"; "t2"], 7, 4) /\
  call 7 4 = Some (["t1"], 6, 0).
Proof. vm_compute. repeat split. Qed.

Lemma pages_S {codec : store.KeyCodec} (s : store.PebbleStore)
  (includeFailedTransactions : bool)
  (identity assetId : string) (maxTransactions : Z) (n : nat) (endTick txnIndexStart : Z) :
  store.pages s includeFailedTransactions identity assetId maxTransactions (S n)
              endTick txnIndexStart =
  (r <- store.GetIdetityAssetTransactionsFromEnd s includeFailedTransactions identity
          assetId endTick txnIndexStart maxTransactions ;;
   let '(page, nextEndTick, nextTxnIndexStart, _) := r in
   more <- store.pages s includeFailedTransactions identity assetId maxTransactions n
             nextEndTick nextTxnIndexStart ;;
   Ok (page :: more.1, more.2)).
Proof. reflexivity. Qed.

(** C1 fails on the code: tick 7 holds two asset transactions and tick 5 a
    third; read two at a time from tick 7, the page is full on the last
    entry of tick 7 and the cursor that comes back is again (7, 0). Every
    later call returns the same page: the two transactions are repeated
    without end and the one of tick 5 is never reached. *)
Theorem reader_repeats_a_full_tick (n : nat) :
  let s := examples.history ["t1"; "t2"] ["t0"] in
  match store.pages s true (EncodeToString examples.alice) examples.asset 2 n 7 0 with
  | Ok (pages, cursor) =>
    examples.ids <$> pages = replicate n ["t2"; "t1"] /\ cursor = (7, 0)
  | Err _ => False
  end.
Proof.
  intros s.
  assert (Hcall :
    exists page,
      store.GetIdetityAssetTransactionsFromEnd s true (EncodeToString examples.alice)
        examples.asset 7 0 2 = Ok (page, 7, 0, 7) /\
      examples.ids page = ["t2"; "t1"]).
  { eexists. split; vm_compute; reflexivity. }
  destruct Hcall as (page & Hcall & Hids).
  induction n as [|n IH].
  - simpl. split; reflexivity.
  - rewrite pages_S, Hcall. cbn [rbind].
    destruct (store.pages s true (EncodeToString examples.alice) examples.asset 2 n 7 0)
      as [[pages cursor]|e]; [|contradiction].
    destruct IH as [IHp ->]. cbn [rbind fst snd].
    split; [|reflexivity].
    rewrite fmap_cons, Hids, IHp. reflexivity.
Qed.

(** ** Package [asset_transactions]: the classifier *)

Lemma ReadFull_ok (n : nat) (r : list byte) :
  (n <= length r)%nat -> ReadFull n r = Ok (take n r, drop n r).
Proof. intros Hn. unfold ReadFull. now rewrite decide_True by exact Hn. Qed.

Lemma ReadFull_short (n : nat) (r : list byte) :
  (length r < n)%nat -> exists e, ReadFull n r = Err e.
Proof.
  intros Hn. unfold ReadFull. rewrite decide_False by lia.
  case_decide; eauto.
Qed.

(** The payload decodes exactly when it has the 80 bytes of the struct. *)
Lemma UnmarshalBinary_ok_iff (x : qx.QxTransferAssetOwnershipAndPossessionInput.t)
  (data : list byte) :
  (qx.UnmarshalBinary x data).2 = None <-> (80 <= length data)%nat.
Proof.
  unfold qx.UnmarshalBinary.
  destruct (decide (32 <= length data)%nat) as [H1|H1].
  2:{ destruct (ReadFull_short 32 data) as [e ->]; [lia|]. simpl. split; [discriminate|lia]. }
  rewrite (ReadFull_ok 32 data H1).
  destruct (decide (32 <= length (drop 32 data))%nat) as [H2|H2].
  2:{ destruct (ReadFull_short 32 (drop 32 data)) as [e ->]; [lia|]. simpl.
      rewrite length_drop in H2. split; [discriminate|lia]. }
  rewrite (ReadFull_ok 32 _ H2).
  destruct (decide (8 <= length (drop 32 (drop 32 data)))%nat) as [H3|H3].
  2:{ destruct (ReadFull_short 8 (drop 32 (drop 32 data))) as [e ->]; [lia|]. simpl.
      rewrite !length_drop in H3. split; [discriminate|lia]. }
  rewrite (ReadFull_ok 8 _ H3).
  destruct (decide (8 <= length (drop 8 (drop 32 (drop 32 data))))%nat) as [H4|H4].
  2:{ destruct (ReadFull_short 8 (drop 8 (drop 32 (drop 32 data)))) as [e ->]; [lia|].
      simpl. rewrite !length_drop in H4. split; [discriminate|lia]. }
  rewrite (ReadFull_ok 8 _ H4). simpl.
  rewrite !length_drop in H4. split; [lia|reflexivity].
Qed.

Section Classification.
Context `{types.Connector}.

Lemma ParseAssetTransaction_lean (t : types.Transaction.t)
  (lean : asset_transactions.LeanTransaction.t) :
  asset_transactions.txToLeanTransaction t = Ok lean ->
  asset_transactions.ParseAssetTransaction t =
  if decide (types.Transaction.InputType t = 0) then
    Ok {| asset_transactions.TransactionWithAssetPayload.Transaction := lean;
          asset_transactions.TransactionWithAssetPayload.QxTransferAssetPayload := None;
          asset_transactions.TransactionWithAssetPayload.SendManyTransaction := None |}
  else if decide (asset_transactions.LeanTransaction.DestId lean
                  = asset_transactions.SMART_CONTRACT_QUTIL) then
    if decide (types.Transaction.InputType t = 1)
    then asset_transactions.parseSendMany t lean
    else Err ErrNotValidTransaction
  else if decide (asset_transactions.LeanTransaction.DestId lean
                  = asset_transactions.SMART_CONTRACT_QX) then
    if decide (types.Transaction.InputType t = 2)
    then asset_transactions.parseTransferShare t lean
    else Err ErrNotValidTransaction
  else Err ErrNotValidTransaction.
Proof.
  intros Hlean. unfold asset_transactions.ParseAssetTransaction.
  now rewrite Hlean.
Qed.

Lemma parseSendMany_no_asset_payload (t : types.Transaction.t)
  (lean : asset_transactions.LeanTransaction.t)
  (r : asset_transactions.TransactionWithAssetPayload.t) :
  asset_transactions.parseSendMany t lean = Ok r ->
  asset_transactions.TransactionWithAssetPayload.QxTransferAssetPayload r = None.
Proof.
  unfold asset_transactions.parseSendMany.
  case_decide; [discriminate|].
  destruct (types.SendMany_UnmarshallBinary _); [|discriminate].
  destruct (types.GetTransfers _); [|discriminate].
  intros [= <-]. reflexivity.
Qed.

Lemma parseTransferShare_ok_iff (t : types.Transaction.t)
  (lean : asset_transactions.LeanTransaction.t) :
  (exists r payload,
     asset_transactions.parseTransferShare t lean = Ok r /\
     asset_transactions.TransactionWithAssetPayload.QxTransferAssetPayload r = Some payload) <->
  (80 <= length (types.Transaction.Input t))%nat /\
  is_ok (qx.GetAssetTransfer (qx.UnmarshalBinary qx.zero (types.Transaction.Input t)).1) = true.
Proof.
  unfold asset_transactions.parseTransferShare.
  rewrite <- (UnmarshalBinary_ok_iff qx.zero).
  destruct (qx.UnmarshalBinary qx.zero (types.Transaction.Input t)) as [input [e|]]; simpl.
  - split; [intros (r & payload & E & _); discriminate E|intros [E _]; discriminate E].
  - destruct (qx.GetAssetTransfer input) as [payload|e]; simpl.
    + split; [intros _; now split|intros _]. eexists _, payload. split; reflexivity.
    + split; [intros (r & payload & E & _); discriminate E|intros [_ E]; discriminate E].
Qed.

Lemma parseTransferShare_error (t : types.Transaction.t)
  (lean : asset_transactions.LeanTransaction.t) (e : error) :
  asset_transactions.parseTransferShare t lean = Err e -> e = ErrNotValidTransaction.
Proof.
  unfold asset_transactions.parseTransferShare.
  destruct (qx.UnmarshalBinary _ _) as [input [e'|]]; [now intros [= <-]|].
  destruct (qx.GetAssetTransfer input); [discriminate|now intros [= <-]].
Qed.

End Classification.

(** C2 (as amended): the classifier takes a transaction for an
    asset-ownership transfer exactly when its destination is the exchange
    contract, its input type is 2 and its input decodes (it has the 80
    bytes of the payload and the two keys in it have an identity text); a
    transaction of input type 2 with another destination is not classified
    and the classifier passes nothing of it on to the per-asset index. *)
Theorem ParseAssetTransaction_asset_transfer `{types.Connector}
  (t : types.Transaction.t) (lean : asset_transactions.LeanTransaction.t) :
  asset_transactions.txToLeanTransaction t = Ok lean ->
  ((exists r payload,
      asset_transactions.ParseAssetTransaction t = Ok r /\
      asset_transactions.TransactionWithAssetPayload.QxTransferAssetPayload r = Some payload) <->
   asset_transactions.LeanTransaction.DestId lean = asset_transactions.SMART_CONTRACT_QX /\
   types.Transaction.InputType t = 2 /\
   (80 <= length (types.Transaction.Input t))%nat /\
   is_ok (qx.GetAssetTransfer
            (qx.UnmarshalBinary qx.zero (types.Transaction.Input t)).1) = true) /\
  (types.Transaction.InputType t = 2 ->
   asset_transactions.LeanTransaction.DestId lean <> asset_transactions.SMART_CONTRACT_QX ->
   asset_transactions.ParseAssetTransaction t = Err ErrNotValidTransaction /\
   tx.removeNonTransactionWithAssetPayloadsAndConvert [t] = Ok []).
Proof.
  intros Hlean. rewrite (ParseAssetTransaction_lean t lean Hlean).
  split.
  - destruct (decide (types.Transaction.InputType t = 0)) as [H0|H0].
    { split; [intros (r & payload & [= <-] & E); discriminate E|].
      intros (_ & H2 & _). lia. }
    destruct (decide (asset_transactions.LeanTransaction.DestId lean
                      = asset_transactions.SMART_CONTRACT_QUTIL)) as [Hq|Hq].
    { split.
      - intros (r & payload & E & Ep). case_decide; [|discriminate E].
        apply parseSendMany_no_asset_payload in E. congruence.
      - intros (Hd & _). rewrite Hd in Hq. discriminate Hq. }
    destruct (decide (asset_transactions.LeanTransaction.DestId lean
                      = asset_transactions.SMART_CONTRACT_QX)) as [Hx|Hx].
    2:{ split; [intros (r & payload & E & _); discriminate E|].
        intros (Hd & _). contradiction. }
    destruct (decide (types.Transaction.InputType t = 2)) as [H2|H2].
    2:{ split; [intros (r & payload & E & _); discriminate E|].
        intros (_ & H2' & _). contradiction. }
    rewrite parseTransferShare_ok_iff. tauto.
  - intros H2 Hne.
    assert (E : (if decide (types.Transaction.InputType t = 0) then
                   Ok {| asset_transactions.TransactionWithAssetPayload.Transaction := lean;
                         asset_transactions.TransactionWithAssetPayload.QxTransferAssetPayload := None;
                         asset_transactions.TransactionWithAssetPayload.SendManyTransaction := None |}
                 else if decide (asset_transactions.LeanTransaction.DestId lean
                                 = asset_transactions.SMART_CONTRACT_QUTIL) then
                   if decide (types.Transaction.InputType t = 1)
                   then asset_transactions.parseSendMany t lean
                   else Err ErrNotValidTransaction
                 else if decide (asset_transactions.LeanTransaction.DestId lean
                                 = asset_transactions.SMART_CONTRACT_QX) then
                   if decide (types.Transaction.InputType t = 2)
                   then asset_transactions.parseTransferShare t lean
                   else Err ErrNotValidTransaction
                 else Err ErrNotValidTransaction) = Err ErrNotValidTransaction).
    { rewrite decide_False by lia.
      case_decide; [rewrite decide_False by lia; reflexivity|].
      rewrite decide_False by exact Hne. reflexivity. }
    split; [exact E|].
    cbn [tx.removeNonTransactionWithAssetPayloadsAndConvert].
    rewrite (ParseAssetTransaction_lean t lean Hlean), E. reflexivity.
Qed.

(** The test of package [qx]: the payload of scenario S3 is a transfer of
    4565118 units of the asset named CFB. *)
Example TestParseAssetTransfer :
  let '(input, err) := qx.UnmarshalBinary qx.zero examples.rawPayload in
  err = None /\
  qx.Uint64ToString (qx.QxTransferAssetOwnershipAndPossessionInput.AssetName input) = "CFB" /\
  qx.QxTransferAssetOwnershipAndPossessionInput.NumberOfUnits input = 4565118.
Proof. vm_compute. repeat split. Qed.

Lemma ParseAssetTransaction_asset_transfer_witness :
  let t := examples.transaction examples.alice examples.qxKey 0 2 examples.rawPayload x01 in
  let lean :=
    {| asset_transactions.LeanTransaction.SourceId := EncodeToString examples.alice;
       asset_transactions.LeanTransaction.DestId := asset_transactions.SMART_CONTRACT_QX;
       asset_transactions.LeanTransaction.TxId := EncodeToString (replicate 32 x01);
       asset_transactions.LeanTransaction.InputType := 2;
       asset_transactions.LeanTransaction.Input := examples.rawPayload |} in
  ((exists r payload,
      asset_transactions.ParseAssetTransaction t = Ok r /\
      asset_transactions.TransactionWithAssetPayload.QxTransferAssetPayload r = Some payload) <->
   asset_transactions.LeanTransaction.DestId lean = asset_transactions.SMART_CONTRACT_QX /\
   types.Transaction.InputType t = 2 /\
   (80 <= length (types.Transaction.Input t))%nat /\
   is_ok (qx.GetAssetTransfer
            (qx.UnmarshalBinary qx.zero (types.Transaction.Input t)).1) = true) /\
  (types.Transaction.InputType t = 2 ->
   asset_transactions.LeanTransaction.DestId lean <> asset_transactions.SMART_CONTRACT_QX ->
   asset_transactions.ParseAssetTransaction t = Err ErrNotValidTransaction /\
   tx.removeNonTransactionWithAssetPayloadsAndConvert [t] = Ok []).
Proof.
  intros t lean.
  apply (ParseAssetTransaction_asset_transfer t lean).
  vm_compute. reflexivity.
Defined.

(** C2 (as stated) fails: a transaction to the exchange contract with input
    type 2 and an empty input is not classified, and nothing of it reaches
    the per-asset index. *)
Lemma ParseAssetTransaction_undecodable_input :
  let t := examples.transaction examples.alice examples.qxKey 0 2 [] x01 in
  types.FromPubKey (types.Transaction.DestinationPublicKey t) false
    = Ok asset_transactions.SMART_CONTRACT_QX /\
  types.Transaction.InputType t = 2 /\
  asset_transactions.ParseAssetTransaction t = Err ErrNotValidTransaction /\
  tx.removeNonTransactionWithAssetPayloadsAndConvert [t] = Ok [].
Proof. vm_compute. repeat split. Qed.

(** The older grouping of [validator.go] looks at the input type alone: a
    transaction of input type 2 that is not sent to the exchange contract
    stays among the asset transfers. *)
Lemma removeNonQxAssetTransferTransactionsAndConvert_ignores_destination :
  let t := examples.transaction examples.alice examples.bob 0 2 examples.rawPayload x01 in
  types.FromPubKey (types.Transaction.DestinationPublicKey t) false
    <> Ok asset_transactions.SMART_CONTRACT_QX /\
  exists payload,
    tx.removeNonQxAssetTransferTransactionsAndConvert [t] =
    Ok [ {| tx.QxTransactionWithTransferAssetPayload.Transaction := t;
            tx.QxTransactionWithTransferAssetPayload.TransferPayload := payload |} ].
Proof.
  split; [vm_compute; discriminate|].
  eexists. vm_compute. reflexivity.
Qed.

(** ** Package [validator]: the pipeline of one tick *)

Section Pipeline.
Context `{types.Connector} {codec : store.KeyCodec}.
Variables (qu : validator.Connection) (ck : validator.Checks).

Lemma resolveComputors_at_hand (w : validator.World) (epoch : Z)
  (comps : store.Computors.t) :
  spec.computors_at_hand qu (validator.db w) epoch comps ->
  exists fetched,
    (fetched = [] \/ fetched = [validator.FetchComputors]) /\
    validator.resolveComputors qu epoch w =
    (Ok comps, {| validator.db := validator.db w;
                  validator.trace := validator.trace w ++ fetched |}).
Proof.
  unfold validator.resolveComputors, validator.computors_Get, spec.computors_at_hand.
  intros [Hs|[Hs Hn]]; rewrite Hs.
  - exists []. split; [now left|]. rewrite app_nil_r. now destruct w.
  - exists [validator.FetchComputors]. split; [now right|].
    rewrite decide_False by (simpl; intros Hc; now apply Hc).
    unfold mbind, validator.log, modify, wrapM, lift. simpl. now rewrite Hn.
Qed.

(** [ValidateTick] up to the validation of the quorum: the votes are
    fetched, the computors resolved, validated and stored. *)
Lemma ValidateTick_to_quorum (tickNumber : Z) (w : validator.World)
  (vote0 : store.QuorumTickData.t) (votes : list store.QuorumTickData.t)
  (comps : store.Computors.t) :
  validator.GetQuorumVotes qu (uint32 tickNumber) = Ok (vote0 :: votes) ->
  spec.computors_at_hand qu (validator.db w) (store.QuorumTickData.Epoch vote0) comps ->
  validator.computors_Validate ck comps = None ->
  exists fetched,
    (fetched = [] \/ fetched = [validator.FetchComputors]) /\
    let w' := {| validator.db :=
                   store.SetComputors (store.Computors.Epoch comps) comps (validator.db w);
                 validator.trace := validator.trace w ++ spec.steps_to_quorum fetched |} in
    validator.ValidateTick qu ck tickNumber w =
    match validator.quorum_Validate ck (vote0 :: votes) comps with
    | Some e => (Err (Wrap e "validating quorum"), w')
    | None =>
      if decide (store.QuorumTickData.TxDigest vote0 = replicate 32 x00) then (Ok tt, w')
      else
        (validator.log validator.FetchTickData ;;;
         tickData <~ wrapM (lift (validator.GetTickData qu (uint32 tickNumber)))
                           "getting tick data" ;;
         validator.log validator.ValidateTickData ;;;
         wrapM (validator.check (validator.tick_Validate ck tickData vote0 comps))
               "validating tick data" ;;;
         validator.log validator.FetchTickTransactions ;;;
         transactions <~ wrapM (lift (validator.GetTickTransactions qu (uint32 tickNumber)))
                               "getting tick transactions" ;;
         validator.log validator.ValidateTransactions ;;;
         validTxs <~ wrapM (lift (tx.Validate (validator.sigVerifierFunc ck) transactions
                                              tickData))
                           "validating transactions" ;;
         validator.log validator.StoreQuorumVotes ;;;
         wrapM (validator.quorum_Store (uint32 tickNumber) (vote0 :: votes))
               "storing quorum votes" ;;;
         validator.log validator.StoreTickData ;;;
         wrapM (validator.tick_Store tickData) "storing tick data" ;;;
         validator.log validator.StoreTransactions ;;;
         wrapM (validator.on_db (tx_store.Store (uint32 tickNumber) validTxs))
               "storing transactions") w'
    end.
Proof.
  intros Hvotes Hcomps Hvalid.
  destruct (resolveComputors_at_hand
              {| validator.db := validator.db w;
                 validator.trace := validator.trace w ++ [validator.FetchQuorumVotes] |}
              _ comps Hcomps) as (fetched & Hf & Hres).
  exists fetched. split; [exact Hf|]. intros w'.
  unfold validator.ValidateTick.
  unfold mbind at 1. unfold validator.log at 1, modify at 1.
  unfold mbind at 1. unfold wrapM at 1, lift at 1. rewrite Hvotes.
  cbn [wrapping].
  unfold mbind at 1. rewrite Hres.
  unfold mbind at 1. unfold validator.log at 1, modify at 1.
  unfold mbind at 1. unfold wrapM at 1. rewrite Hvalid.
  unfold validator.check at 1, mret at 1. cbn [wrapping].
  unfold mbind at 1. unfold validator.log at 1, modify at 1.
  unfold mbind at 1. unfold wrapM at 1, validator.computors_Store, validator.on_db,
    modify at 1.
  cbn [validator.db validator.trace wrapping].
  unfold mbind at 1. unfold validator.log at 1, modify at 1.
  cbn [validator.db validator.trace].
  rewrite <- !app_assoc. subst w'. unfold spec.steps_to_quorum.
  unfold mbind at 1. unfold wrapM at 1.
  destruct (validator.quorum_Validate ck (vote0 :: votes) comps) as [e|].
  - reflexivity.
  - unfold validator.check at 1, mret at 1. cbn [wrapping].
    case_decide; reflexivity.
Qed.

End Pipeline.

Lemma SetComputors_same (s : store.PebbleStore) (epoch : Z) (comps : store.Computors.t) :
  store.GetComputors s epoch = Ok comps -> store.SetComputors epoch comps s = s.
Proof.
  unfold store.GetComputors, store.get, store.SetComputors, store.with_computors.
  destruct (store.computors s !! epoch) as [c|] eqn:E; [|discriminate].
  intros [= ->]. rewrite insert_id by exact E. now destruct s.
Qed.

(** C3 (as amended): when the validation of the quorum fails, [ValidateTick]
    returns that error, and the one thing it has written by then is the
    validated computor list under [Computors|epoch]; every other record,
    [LastProcessedTick] among them, is as before, and the store as a whole
    is as before when it held that list already. *)
Theorem ValidateTick_invalid_quorum `{types.Connector} {codec : store.KeyCodec}
  (qu : validator.Connection) (ck : validator.Checks) (tickNumber : Z)
  (w : validator.World) (vote0 : store.QuorumTickData.t)
  (votes : list store.QuorumTickData.t) (comps : store.Computors.t) (e : error) :
  validator.GetQuorumVotes qu (uint32 tickNumber) = Ok (vote0 :: votes) ->
  spec.computors_at_hand qu (validator.db w) (store.QuorumTickData.Epoch vote0) comps ->
  validator.computors_Validate ck comps = None ->
  validator.quorum_Validate ck (vote0 :: votes) comps = Some e ->
  let run := validator.ValidateTick qu ck tickNumber w in
  run.1 = Err (Wrap e "validating quorum") /\
  validator.db run.2
    = store.SetComputors (store.Computors.Epoch comps) comps (validator.db w) /\
  store.lastProcessedTick (validator.db run.2) = store.lastProcessedTick (validator.db w) /\
  (store.GetComputors (validator.db w) (store.Computors.Epoch comps) = Ok comps ->
   validator.db run.2 = validator.db w) /\
  exists fetched,
    (fetched = [] \/ fetched = [validator.FetchComputors]) /\
    validator.trace run.2 = validator.trace w ++ spec.steps_to_quorum fetched.
Proof.
  intros Hvotes Hcomps Hvalid Hquorum run.
  destruct (ValidateTick_to_quorum qu ck tickNumber w vote0 votes comps
              Hvotes Hcomps Hvalid) as (fetched & Hf & Hrun).
  cbv zeta in Hrun. rewrite Hquorum in Hrun.
  subst run. rewrite Hrun. cbn [fst snd validator.db validator.trace].
  split; [reflexivity|]. split; [reflexivity|]. split; [reflexivity|].
  split; [apply SetComputors_same|eauto].
Qed.

Lemma ValidateTick_invalid_quorum_witness :
  let run := validator.ValidateTick (examples.nodeWith 450 (replicate 32 x07))
               examples.checks 7 examples.freshWorld in
  run.1 = Err (Wrap (New "not enough quorum votes") "validating quorum") /\
  validator.db run.2
    = store.SetComputors 100 examples.computors100 store.empty /\
  store.lastProcessedTick (validator.db run.2) = None /\
  (store.GetComputors store.empty 100 = Ok examples.computors100 ->
   validator.db run.2 = store.empty) /\
  exists fetched,
    (fetched = [] \/ fetched = [validator.FetchComputors]) /\
    validator.trace run.2 = [] ++ spec.steps_to_quorum fetched.
Proof.
  apply (ValidateTick_invalid_quorum (examples.nodeWith 450 (replicate 32 x07))
           examples.checks 7 examples.freshWorld
           (examples.vote (replicate 32 x07))
           (replicate 449 (examples.vote (replicate 32 x07)))
           examples.computors100 (New "not enough quorum votes")).
  - reflexivity.
  - right. split; reflexivity.
  - reflexivity.
  - vm_compute. reflexivity.
Defined.

(** C3 (as stated) fails: scenario S4, only 450 computors vote. The
    quorum is refused, and the store, empty before the call, holds the
    computor list of epoch 100 after it. *)
Lemma ValidateTick_stores_computors_before_quorum :
  let run := validator.ValidateTick (examples.nodeWith 450 (replicate 32 x07))
               examples.checks 7 examples.freshWorld in
  run.1 = Err (Wrap (New "not enough quorum votes") "validating quorum") /\
  store.GetComputors (validator.db examples.freshWorld) 100 = Err ErrNotFound /\
  store.GetComputors (validator.db run.2) 100 = Ok examples.computors100 /\
  validator.db run.2 <> validator.db examples.freshWorld.
Proof.
  split; [vm_compute; reflexivity|]. split; [reflexivity|].
  assert (E : store.GetComputors
                (validator.db (validator.ValidateTick
                   (examples.nodeWith 450 (replicate 32 x07))
                   examples.checks 7 examples.freshWorld).2) 100
              = Ok examples.computors100) by (vm_compute; reflexivity).
  split; [exact E|].
  intros Heq. rewrite Heq in E. discriminate E.
Qed.

Lemma GetEmptyTicksForEpoch_SetEmptyTicksForEpoch (s : store.PebbleStore)
  (epoch emptyTicksCount : Z) :
  is_uint32 emptyTicksCount ->
  store.GetEmptyTicksForEpoch (store.SetEmptyTicksForEpoch epoch emptyTicksCount s) epoch
  = Ok emptyTicksCount.
Proof.
  intros Hn. unfold store.GetEmptyTicksForEpoch, store.SetEmptyTicksForEpoch, store.get.
  cbn [store.emptyTicksPerEpoch store.with_emptyTicksPerEpoch].
  rewrite lookup_insert_eq. cbn [rbind].
  rewrite take_ge by (unfold PutUint32; rewrite length_le_bytes; lia).
  unfold PutUint32. rewrite le_value_le_bytes.
  change (2 ^ (8 * Z.of_nat 4)) with (2 ^ 32).
  unfold is_uint32 in Hn. now rewrite Z.mod_small.
Qed.

Section Appends.
Context `{types.Connector} {codec : store.KeyCodec}.

Lemma appends_mbind {A B} (c : M validator.World A) (k : A -> M validator.World B) :
  spec.appends c -> (forall a, spec.appends (k a)) -> spec.appends (mbind c k).
Proof.
  intros Hc Hk w r w'. unfold mbind.
  destruct (c w) as [[a|e] w1] eqn:E; destruct (Hc _ _ _ E) as [more1 H1].
  - intros Hrun. destruct (Hk _ _ _ _ Hrun) as [more2 H2].
    exists (more1 ++ more2). now rewrite H2, H1, app_assoc.
  - intros [= <- <-]. eauto.
Qed.

Lemma appends_wrapM {A} (c : M validator.World A) (msg : string) :
  spec.appends c -> spec.appends (wrapM c msg).
Proof.
  intros Hc w r w'. unfold wrapM. destruct (c w) as [r1 w1] eqn:E.
  intros [= _ <-]. exact (Hc _ _ _ E).
Qed.

Lemma appends_lift {A} (r : result A) : spec.appends (lift r).
Proof. intros w r' w' [= _ <-]. exists []. now rewrite app_nil_r. Qed.

Lemma appends_check (e : option error) : spec.appends (validator.check e).
Proof.
  intros w r w'. destruct e; intros [= _ <-]; exists []; now rewrite app_nil_r.
Qed.

Lemma appends_log (e : validator.step) : spec.appends (validator.log e).
Proof. intros w r w' [= _ <-]. now exists [e]. Qed.

Lemma appends_on_db {A} (c : M store.PebbleStore A) : spec.appends (validator.on_db c).
Proof.
  intros w r w'. unfold validator.on_db. destruct (c (validator.db w)) as [r1 s1].
  intros [= _ <-]. exists []. cbn [validator.trace]. now rewrite app_nil_r.
Qed.

End Appends.

(** C4 (as amended): what [ValidateTick] tests is the transaction digest
    of the first vote that the node returned. When that digest is all
    zeros and the computors and the quorum validate, [ValidateTick]
    succeeds after the validation of the quorum: it neither fetches nor
    validates nor stores a tick body or transactions, so it writes no
    [TickData|T] and no [TickTx], and it leaves [EmptyTicksPerEpoch] and
    [LastProcessedTick] as they are; its one write is the computor list.
    When the digest of the first vote is not all zeros, [ValidateTick]
    goes on to fetch the tick data, whatever the other votes carry. The
    counter and the last processed tick are what the caller sets:
    [SetEmptyTicksForEpoch] stores the count it is given. *)
Theorem ValidateTick_empty_tick `{types.Connector} {codec : store.KeyCodec}
  (qu : validator.Connection) (ck : validator.Checks) (tickNumber : Z)
  (w : validator.World) (vote0 : store.QuorumTickData.t)
  (votes : list store.QuorumTickData.t) (comps : store.Computors.t) :
  validator.GetQuorumVotes qu (uint32 tickNumber) = Ok (vote0 :: votes) ->
  spec.computors_at_hand qu (validator.db w) (store.QuorumTickData.Epoch vote0) comps ->
  validator.computors_Validate ck comps = None ->
  validator.quorum_Validate ck (vote0 :: votes) comps = None ->
  let run := validator.ValidateTick qu ck tickNumber w in
  (store.QuorumTickData.TxDigest vote0 = replicate 32 x00 ->
   run.1 = Ok tt /\
   (exists fetched,
      (fetched = [] \/ fetched = [validator.FetchComputors]) /\
      validator.trace run.2 = validator.trace w ++ spec.steps_to_quorum fetched /\
      forall step,
        step ∈ [validator.FetchTickData; validator.ValidateTickData;
                validator.FetchTickTransactions; validator.ValidateTransactions;
                validator.StoreQuorumVotes; validator.StoreTickData;
                validator.StoreTransactions] ->
        step ∉ spec.steps_to_quorum fetched) /\
   validator.db run.2
     = store.SetComputors (store.Computors.Epoch comps) comps (validator.db w) /\
   store.tickData (validator.db run.2) = store.tickData (validator.db w) /\
   store.tickTx (validator.db run.2) = store.tickTx (validator.db w) /\
   store.emptyTicksPerEpoch (validator.db run.2)
     = store.emptyTicksPerEpoch (validator.db w) /\
   store.lastProcessedTick (validator.db run.2)
     = store.lastProcessedTick (validator.db w)) /\
  (store.QuorumTickData.TxDigest vote0 <> replicate 32 x00 ->
   exists fetched more,
     (fetched = [] \/ fetched = [validator.FetchComputors]) /\
     validator.trace run.2 =
       validator.trace w ++ spec.steps_to_quorum fetched ++
       validator.FetchTickData :: more) /\
  (forall s epoch emptyTicksCount,
     is_uint32 emptyTicksCount ->
     store.GetEmptyTicksForEpoch (store.SetEmptyTicksForEpoch epoch emptyTicksCount s) epoch
     = Ok emptyTicksCount).
Proof.
  intros Hvotes Hcomps Hvalid Hquorum run.
  destruct (ValidateTick_to_quorum qu ck tickNumber w vote0 votes comps
              Hvotes Hcomps Hvalid) as (fetched & Hf & Hrun).
  cbv zeta in Hrun. rewrite Hquorum in Hrun.
  split; [|split].
  - intros Hzero. rewrite decide_True in Hrun by exact Hzero.
    subst run. rewrite Hrun. cbn [fst snd validator.db validator.trace].
    split; [reflexivity|]. split.
    { exists fetched. split; [exact Hf|]. split; [reflexivity|].
      intros step Hstep Hin. unfold spec.steps_to_quorum in Hin.
      destruct Hf as [-> | ->]; simpl in Hin;
        repeat (apply elem_of_cons in Hin as [->|Hin];
                [repeat (apply elem_of_cons in Hstep as [Hstep|Hstep];
                         [discriminate Hstep|]);
                 inversion Hstep|]);
        inversion Hin. }
    repeat split; reflexivity.
  - intros Hnonzero. rewrite decide_False in Hrun by exact Hnonzero.
    exists fetched.
    match type of Hrun with
    | _ = mbind ?c ?k ?w1 =>
      assert (Hk : spec.appends (k tt));
        [|destruct (Hk {| validator.db := validator.db w1;
                           validator.trace := validator.trace w1 ++ [validator.FetchTickData] |}
                       run.1 run.2) as [more Hmore]]
    end.
    + repeat first
        [ apply appends_mbind; [|intros ?]
        | apply appends_wrapM
        | apply appends_lift
        | apply appends_check
        | apply appends_log
        | apply appends_on_db
        | unfold validator.quorum_Store, validator.tick_Store ].
    + subst run. rewrite Hrun. unfold mbind at 1, validator.log at 1, modify at 1.
      apply surjective_pairing.
    + exists more. split; [exact Hf|]. rewrite Hmore. cbn [validator.trace].
      rewrite <- !app_assoc. reflexivity.
  - intros s epoch n. apply GetEmptyTicksForEpoch_SetEmptyTicksForEpoch.
Qed.

Lemma ValidateTick_empty_tick_witness :
  let run := validator.ValidateTick (examples.nodeWith 451 (replicate 32 x00))
               examples.checks 7 examples.freshWorld in
  let run' := validator.ValidateTick (examples.nodeWith 451 (replicate 32 x07))
                examples.checks 7 examples.freshWorld in
  (run.1 = Ok tt /\
   (exists fetched,
      (fetched = [] \/ fetched = [validator.FetchComputors]) /\
      validator.trace run.2 = [] ++ spec.steps_to_quorum fetched /\
      forall step,
        step ∈ [validator.FetchTickData; validator.ValidateTickData;
                validator.FetchTickTransactions; validator.ValidateTransactions;
                validator.StoreQuorumVotes; validator.StoreTickData;
                validator.StoreTransactions] ->
        step ∉ spec.steps_to_quorum fetched) /\
   validator.db run.2 = store.SetComputors 100 examples.computors100 store.empty /\
   store.tickData (validator.db run.2) = ∅ /\
   store.tickTx (validator.db run.2) = ∅ /\
   store.emptyTicksPerEpoch (validator.db run.2) = ∅ /\
   store.lastProcessedTick (validator.db run.2) = None) /\
  (exists fetched more,
     (fetched = [] \/ fetched = [validator.FetchComputors]) /\
     validator.trace run'.2 =
       [] ++ spec.steps_to_quorum fetched ++ validator.FetchTickData :: more).
Proof.
  intros run run'. split.
  - apply (ValidateTick_empty_tick (examples.nodeWith 451 (replicate 32 x00))
             examples.checks 7 examples.freshWorld
             (examples.vote (replicate 32 x00))
             (replicate 450 (examples.vote (replicate 32 x00)))
             examples.computors100).
    + reflexivity.
    + right. split; reflexivity.
    + reflexivity.
    + vm_compute. reflexivity.
    + reflexivity.
  - apply (ValidateTick_empty_tick (examples.nodeWith 451 (replicate 32 x07))
             examples.checks 7 examples.freshWorld
             (examples.vote (replicate 32 x07))
             (replicate 450 (examples.vote (replicate 32 x07)))
             examples.computors100).
    + reflexivity.
    + right. split; reflexivity.
    + reflexivity.
    + vm_compute. reflexivity.
    + vm_compute. discriminate.
Defined.

(** C4 (as stated) fails: 451 computors agree on an all-zero transaction
    digest for tick 7. [ValidateTick] succeeds, and after it the store has
    no [TickData|7], no counter of empty ticks for epoch 100 and no last
    processed tick. *)
Lemma ValidateTick_empty_tick_writes_no_tick_data :
  let run := validator.ValidateTick (examples.nodeWith 451 (replicate 32 x00))
               examples.checks 7 examples.freshWorld in
  run.1 = Ok tt /\
  store.GetTickData (validator.db run.2) 7 = Err ErrNotFound /\
  store.GetEmptyTicksForEpoch (validator.db run.2) 100 = Err ErrNotFound /\
  store.GetLastProcessedTick (validator.db run.2) = Err ErrNotFound /\
  validator.trace run.2 =
    [validator.FetchQuorumVotes; validator.FetchComputors; validator.ValidateComputors;
     validator.StoreComputors; validator.ValidateQuorum].
Proof. vm_compute. repeat split. Qed.

(** A tick with one transfer (scenario S2) runs through the whole pipeline:
    every step is taken in order, and the tick body, the transaction and
    the transfer records of both parties are in the store afterwards. *)
Example ValidateTick_single_transfer :
  let t := examples.transaction examples.alice examples.bob 100 0 [] x01 in
  let qu :=
    {| validator.GetQuorumVotes tickNumber :=
         Ok (replicate 451 (examples.vote (replicate 32 x07)));
       validator.GetComputors := Ok examples.computors100;
       validator.GetTickData tickNumber := Ok (examples.tickBody [examples.alice]);
       validator.GetTickTransactions tickNumber := Ok [t] |} in
  let run := validator.ValidateTick qu examples.checks 7 examples.freshWorld in
  run.1 = Ok tt /\
  validator.trace run.2 =
    [validator.FetchQuorumVotes; validator.FetchComputors; validator.ValidateComputors;
     validator.StoreComputors; validator.ValidateQuorum; validator.FetchTickData;
     validator.ValidateTickData; validator.FetchTickTransactions;
     validator.ValidateTransactions; validator.StoreQuorumVotes; validator.StoreTickData;
     validator.StoreTransactions] /\
  is_ok (store.GetTickData (validator.db run.2) 7) = true /\
  is_ok (store.GetTransaction (validator.db run.2) (EncodeToString (replicate 32 x01))) = true /\
  is_Some (store.identityTransferTxs (validator.db run.2)
             !! (EncodeToString examples.alice, 7)) /\
  is_Some (store.identityTransferTxs (validator.db run.2)
             !! (EncodeToString examples.bob, 7)).
Proof.
  vm_compute. repeat split; eauto.
Qed.

(** ** Package [qx]: more on the payload codec *)

Lemma byte_of_Z_add_256 (a k : Z) : byte_of_Z (a + 256 * k) = byte_of_Z a.
Proof.
  unfold byte_of_Z. replace ((a + 256 * k) mod 256) with (a mod 256); [reflexivity|].
  rewrite Z.mul_comm, Z_mod_plus_full. reflexivity.
Qed.

Lemma le_value_cons (b : byte) (rest : list byte) :
  le_value (b :: rest) = Z_of_byte b + 256 * le_value rest.
Proof. cbn [le_value]. apply lor_low_high, Z_of_byte_range. Qed.

Lemma le_value_range (bs : list byte) :
  0 <= le_value bs < 2 ^ (8 * Z.of_nat (length bs)).
Proof.
  induction bs as [|b bs IH].
  - simpl. lia.
  - rewrite le_value_cons. pose proof (Z_of_byte_range b) as Hb.
    replace (8 * Z.of_nat (length (b :: bs))) with (8 + 8 * Z.of_nat (length bs))
      by (simpl length; lia).
    rewrite Z.pow_add_r by lia. change (2 ^ 8) with 256. nia.
Qed.

Lemma le_bytes_le_value (bs : list byte) : le_bytes (length bs) (le_value bs) = bs.
Proof.
  induction bs as [|b bs IH]; [reflexivity|].
  rewrite le_value_cons. cbn [length le_bytes].
  rewrite byte_of_Z_add_256, byte_of_Z_of_byte. f_equal.
  rewrite Z.shiftr_div_pow2 by lia. change (2 ^ 8) with 256.
  pose proof (Z_of_byte_range b) as Hb.
  replace ((Z_of_byte b + 256 * le_value bs) / 256) with (le_value bs); [exact IH|].
  apply Z.div_unique with (r := Z_of_byte b); lia.
Qed.

Lemma uint64_int64 (v : Z) : uint64 (int64 v) = uint64 v.
Proof.
  unfold uint64, int64.
  rewrite <- Zminus_mod_idemp_l.
  rewrite Z.mod_mod by lia. 
  rewrite Zminus_mod_idemp_l. f_equal. lia.
Qed.

Lemma int64_range (v : Z) : is_int64 (int64 v).
Proof.
  unfold is_int64, int64.
  pose proof (Z.mod_pos_bound (v + 2 ^ 63) (2 ^ 64) ltac:(lia)) as H.
  change (2 ^ 64) with (2 * 2 ^ 63) in *. lia.
Qed.

Lemma ReadFull_error (n : nat) (r : list byte) :
  (length r < n)%nat ->
  ReadFull n r = Err (if decide (length r = 0%nat) then EOF else ErrUnexpectedEOF).
Proof.
  intros Hn. unfold ReadFull. rewrite decide_False by lia. case_decide; reflexivity.
Qed.

(** The struct that the first 80 bytes of [data] decode to. *)
Lemma UnmarshalBinary_ok (x0 : qx.QxTransferAssetOwnershipAndPossessionInput.t)
  (data : list byte) :
  (80 <= length data)%nat ->
  qx.UnmarshalBinary x0 data =
  ({| qx.QxTransferAssetOwnershipAndPossessionInput.Issuer := take 32 data;
      qx.QxTransferAssetOwnershipAndPossessionInput.NewOwnerAndPossessor :=
        take 32 (drop 32 data);
      qx.QxTransferAssetOwnershipAndPossessionInput.AssetName :=
        le_value (take 8 (drop 64 data));
      qx.QxTransferAssetOwnershipAndPossessionInput.NumberOfUnits :=
        int64 (le_value (take 8 (drop 72 data))) |}, None).
Proof.
  intros Hlen. unfold qx.UnmarshalBinary.
  rewrite (ReadFull_ok 32 data) by lia.
  rewrite (ReadFull_ok 32 (drop 32 data)) by (rewrite length_drop; lia).
  rewrite (ReadFull_ok 8 (drop 32 (drop 32 data))) by (rewrite !length_drop; lia).
  rewrite (ReadFull_ok 8 (drop 8 (drop 32 (drop 32 data)))) by (rewrite !length_drop; lia).
  rewrite !drop_drop. reflexivity.
Qed.

(** X1: whatever has at least 80 bytes decodes, to a value of the right
    widths, and encoding that value gives the first 80 bytes back. *)
Theorem MarshalBinary_UnmarshalBinary
  (x0 : qx.QxTransferAssetOwnershipAndPossessionInput.t) (data : list byte) :
  (80 <= length data)%nat ->
  exists x,
    qx.UnmarshalBinary x0 data = (x, None) /\
    qx.QxTransferAssetOwnershipAndPossessionInput.well_typed x /\
    qx.MarshalBinary x = Ok (take 80 data).
Proof.
  intros Hlen. eexists. split; [apply UnmarshalBinary_ok, Hlen|].
  assert (L8a : length (take 8 (drop 64 data)) = 8%nat)
    by (rewrite length_take_le; [reflexivity|rewrite length_drop; lia]).
  assert (L8b : length (take 8 (drop 72 data)) = 8%nat)
    by (rewrite length_take_le; [reflexivity|rewrite length_drop; lia]).
  pose proof (le_value_range (take 8 (drop 64 data))) as Ra. rewrite L8a in Ra.
  pose proof (le_value_range (take 8 (drop 72 data))) as Rb. rewrite L8b in Rb.
  change (2 ^ (8 * Z.of_nat 8)) with (2 ^ 64) in Ra, Rb.
  split.
  - unfold qx.QxTransferAssetOwnershipAndPossessionInput.well_typed. simpl.
    split; [apply length_take_le; lia|].
    split; [apply length_take_le; rewrite length_drop; lia|].
    split; [exact Ra|apply int64_range].
  - unfold qx.MarshalBinary.
    cbn [qx.QxTransferAssetOwnershipAndPossessionInput.Issuer
         qx.QxTransferAssetOwnershipAndPossessionInput.NewOwnerAndPossessor
         qx.QxTransferAssetOwnershipAndPossessionInput.AssetName
         qx.QxTransferAssetOwnershipAndPossessionInput.NumberOfUnits].
    f_equal.
    rewrite uint64_int64, (uint64_id _ Rb).
    unfold PutUint64.
    pose proof (le_bytes_le_value (take 8 (drop 64 data))) as Ea. rewrite L8a in Ea.
    pose proof (le_bytes_le_value (take 8 (drop 72 data))) as Eb. rewrite L8b in Eb.
    rewrite Ea, Eb.
    change 80%nat with (32 + (32 + (8 + 8)))%nat.
    rewrite <- !take_take_drop, !drop_drop. reflexivity.
Qed.

Lemma MarshalBinary_UnmarshalBinary_witness :
  exists x,
    qx.UnmarshalBinary qx.zero examples.rawPayload = (x, None) /\
    qx.QxTransferAssetOwnershipAndPossessionInput.well_typed x /\
    qx.MarshalBinary x = Ok (take 80 examples.rawPayload).
Proof.
  apply (MarshalBinary_UnmarshalBinary qx.zero examples.rawPayload).
  simpl. lia.
Defined.

(** X2: with fewer than 80 bytes [UnmarshalBinary] fails, with [io.EOF]
    when the data ends exactly where a field begins and with
    [io.ErrUnexpectedEOF] when it ends inside a field; with 80 bytes or
    more the result depends neither on the bytes after the 80th nor on
    what the receiver held. *)
Theorem UnmarshalBinary_reads_80_bytes
  (x0 x1 : qx.QxTransferAssetOwnershipAndPossessionInput.t) (data : list byte) :
  ((length data < 80)%nat ->
   exists e msg,
     (qx.UnmarshalBinary x0 data).2 = Some (Wrap e msg) /\
     e = (if decide (length data = 0 \/ length data = 32 \/ length data = 64 \/
                     length data = 72)%nat then EOF else ErrUnexpectedEOF)) /\
  ((80 <= length data)%nat ->
   forall trailing,
     qx.UnmarshalBinary x0 (data ++ trailing) = qx.UnmarshalBinary x1 (take 80 data)).
Proof.
  split.
  - intros Hlen. unfold qx.UnmarshalBinary.
    destruct (decide (32 <= length data)%nat) as [H1|H1].
    2:{ rewrite ReadFull_error by lia. do 2 eexists. split; [reflexivity|].
        repeat case_decide; try reflexivity; lia. }
    rewrite (ReadFull_ok 32 data H1).
    destruct (decide (32 <= length (drop 32 data))%nat) as [H2|H2].
    2:{ rewrite ReadFull_error by lia. do 2 eexists. split; [reflexivity|].
        rewrite length_drop in *. repeat case_decide; try reflexivity; lia. }
    rewrite (ReadFull_ok 32 _ H2).
    destruct (decide (8 <= length (drop 32 (drop 32 data)))%nat) as [H3|H3].
    2:{ rewrite ReadFull_error by lia. do 2 eexists. split; [reflexivity|].
        rewrite !length_drop in *. repeat case_decide; try reflexivity; lia. }
    rewrite (ReadFull_ok 8 _ H3).
    destruct (decide (8 <= length (drop 8 (drop 32 (drop 32 data))))%nat) as [H4|H4].
    2:{ rewrite ReadFull_error by lia. do 2 eexists. split; [reflexivity|].
        rewrite !length_drop in *. repeat case_decide; try reflexivity; lia. }
    rewrite !length_drop in H4. lia.
  - intros Hlen trailing.
    rewrite !UnmarshalBinary_ok by (rewrite ?length_app, ?length_take; lia).
    rewrite (take_app_le data trailing 32) by lia.
    rewrite !(drop_app_le data trailing) by lia.
    rewrite !(take_app_le _ trailing) by (rewrite length_drop; lia).
    rewrite take_take.
    rewrite !(take_drop_commute (take 80 data)), !take_take.
    rewrite !(take_drop_commute data).
    reflexivity.
Qed.

Lemma le_bytes_snoc (n : nat) (v : Z) :
  le_bytes (S n) v = le_bytes n v ++ [byte_of_Z (Z.shiftr v (8 * Z.of_nat n))].
Proof.
  revert v. induction n as [|n IH]; intros v.
  - simpl. now rewrite Z.shiftr_0_r.
  - change (le_bytes (S (S n)) v) with (byte_of_Z v :: le_bytes (S n) (Z.shiftr v 8)).
    rewrite IH. cbn [le_bytes app]. do 3 f_equal.
    rewrite Z.shiftr_shiftr by lia.
    replace (8 + 8 * Z.of_nat n) with (8 * Z.of_nat (S n)) by lia. reflexivity.
Qed.

Lemma trimLeftByte_snoc (s : list byte) (c : byte) :
  trimLeftByte (s ++ [c]) c =
  match trimLeftByte s c with [] => [] | t => t ++ [c] end.
Proof.
  induction s as [|b s IH]; simpl.
  - assert (E : Byte.eqb c c = true) by now apply Byte.byte_dec_lb.
    now rewrite E.
  - destruct (Byte.eqb b c); [exact IH|reflexivity].
Qed.

Lemma trimLeftByte_cons_same (s : list byte) (c : byte) :
  trimLeftByte (c :: s) c = trimLeftByte s c.
Proof.
  simpl. assert (E : Byte.eqb c c = true) by now apply Byte.byte_dec_lb.
  now rewrite E.
Qed.

Lemma Trim1_snoc (s : list byte) (c : byte) : Trim1 (s ++ [c]) c = Trim1 s c.
Proof.
  unfold Trim1, trimRightByte. rewrite reverse_snoc, trimLeftByte_cons_same. reflexivity.
Qed.

Lemma Trim1_cons (s : list byte) (c : byte) : Trim1 (c :: s) c = Trim1 s c.
Proof.
  unfold Trim1, trimRightByte. rewrite reverse_cons, trimLeftByte_snoc.
  destruct (trimLeftByte (reverse s) c) as [|b t] eqn:E.
  - reflexivity.
  - rewrite reverse_snoc, trimLeftByte_cons_same. reflexivity.
Qed.

(** X3: two asset names that differ by a zero lowest byte get one text:
    the name [256 * value] reads like the name [value]. *)
Theorem Uint64ToString_ignores_leading_zero (value : Z) :
  0 <= value < 2 ^ 56 ->
  qx.Uint64ToString (256 * value) = qx.Uint64ToString value.
Proof.
  intros Hv. unfold qx.Uint64ToString, PutUint64. f_equal.
  assert (E1 : le_bytes 8 (256 * value) = x00 :: le_bytes 7 value).
  { change (le_bytes 8 (256 * value))
      with (byte_of_Z (256 * value) :: le_bytes 7 (Z.shiftr (256 * value) 8)).
    f_equal.
    - replace (256 * value) with (0 + 256 * value) by lia.
      rewrite byte_of_Z_add_256. reflexivity.
    - f_equal. rewrite Z.shiftr_div_pow2 by lia. change (2 ^ 8) with 256.
      rewrite Z.mul_comm. apply Z.div_mul. lia. }
  assert (E2 : le_bytes 8 value = le_bytes 7 value ++ [x00]).
  { rewrite le_bytes_snoc. do 2 f_equal.
    rewrite Z.shiftr_div_pow2 by lia. change (8 * Z.of_nat 7) with 56.
    rewrite Z.div_small by exact Hv. reflexivity. }
  rewrite E1, E2, Trim1_cons, Trim1_snoc. reflexivity.
Qed.

Lemma Uint64ToString_ignores_leading_zero_witness :
  qx.Uint64ToString (256 * 65) = qx.Uint64ToString 65.
Proof.
  apply (Uint64ToString_ignores_leading_zero 65). lia.
Defined.

(** ** Package [validator/tx]: what validation and grouping guarantee *)

Section ValidateOk.
Context `{types.Connector}.
Variable sigVerifierFunc : list byte -> list byte -> list byte -> option error.

Lemma validateTransactions_loop_ok (digestsMap : gset string)
  (transactions validTransactions valid : list types.Transaction.t) :
  tx.validateTransactions_loop sigVerifierFunc digestsMap transactions validTransactions
    = Ok valid ->
  valid = validTransactions ++ transactions /\
  Forall (spec.validated sigVerifierFunc digestsMap) transactions.
Proof.
  revert validTransactions.
  induction transactions as [|t rest IH]; intros acc Hok; simpl in Hok.
  - injection Hok as <-. now rewrite app_nil_r.
  - destruct (tx.getDigestFromTransaction t) as [digest|] eqn:Ed; [|discriminate Hok].
    simpl in Hok.
    destruct (types.ID t) as [txId|]; [|discriminate Hok]. simpl in Hok.
    destruct (decide (EncodeToString digest ∈ digestsMap)) as [Hin|]; [|discriminate Hok].
    destruct (types.MarshallBinary t) as [bytes|] eqn:Em; [|discriminate Hok].
    simpl in Hok.
    destruct (types.K12Hash (take (length bytes - 64) bytes)) as [cd|] eqn:Ek;
      [|discriminate Hok].
    simpl in Hok.
    destruct (sigVerifierFunc _ cd _) eqn:Es; [discriminate Hok|].
    apply IH in Hok as [-> Hrest]. split.
    + now rewrite <- app_assoc.
    + constructor; [|exact Hrest]. exists digest, bytes, cd. auto.
Qed.

End ValidateOk.

(** X4: the transactions [Validate] returns are the ones it was given, all
    of them and in their order, or none when the tick body lists no
    non-zero digest; in the first case there are as many as distinct
    non-zero digests, the hash of each is one of those digests and its
    signature has been verified. *)
Theorem Validate_ok `{types.Connector}
  (sigVerifierFunc : list byte -> list byte -> list byte -> option error)
  (transactions valid : list types.Transaction.t) (tickData : types.TickData.t) :
  tx.Validate sigVerifierFunc transactions tickData = Ok valid ->
  let digests := types.TickData.TransactionDigests tickData in
  (Forall (fun d => d = tx.emptyTxDigest) digests /\ valid = []) \/
  (valid = transactions /\
   length transactions = length (remove_dups (filter (fun d => d <> tx.emptyTxDigest) digests)) /\
   forall t, t ∈ transactions ->
     exists digest txDataBytes constructedDigest,
       tx.getDigestFromTransaction t = Ok digest /\
       digest ∈ digests /\ digest <> tx.emptyTxDigest /\
       types.MarshallBinary t = Ok txDataBytes /\
       types.K12Hash (take (length txDataBytes - 64) txDataBytes) = Ok constructedDigest /\
       sigVerifierFunc (types.Transaction.SourcePublicKey t) constructedDigest
                       (types.Transaction.Signature t) = None).
Proof.
  intros Hok digests. unfold tx.Validate in Hok.
  pose proof (size_createTxDigestsMap tickData) as Hsize. fold digests in Hsize.
  destruct (decide (size (tx.createTxDigestsMap tickData) = 0%nat)) as [Hz|Hnz].
  - left. injection Hok as <-. split; [|reflexivity].
    rewrite Hz in Hsize. symmetry in Hsize. apply length_zero_iff_nil in Hsize.
    apply Forall_forall. intros d Hd.
    destruct (decide (d = tx.emptyTxDigest)) as [|Hne]; [assumption|].
    assert (Hin : d ∈ remove_dups (filter (fun d => d <> tx.emptyTxDigest) digests)).
    { apply elem_of_remove_dups, list_elem_of_filter. now split. }
    rewrite Hsize in Hin. inversion Hin.
  - right. destruct (decide (length transactions <> size (tx.createTxDigestsMap tickData)))
      as [|Heq]; [discriminate Hok|].
    unfold tx.validateTransactions in Hok.
    destruct (tx.validateTransactions_loop _ _ _ _) as [v|] eqn:Ev; [|discriminate Hok].
    injection Hok as <-.
    apply validateTransactions_loop_ok in Ev as [-> Hall].
    split; [reflexivity|]. split; [lia|].
    intros t Ht. rewrite Forall_forall in Hall.
    destruct (Hall t Ht) as (digest & bytes & cd & Hd & Hin & Hm & Hk & Hs).
    exists digest, bytes, cd. rewrite createTxDigestsMap_list in Hin.
    apply elem_of_list_to_set, list_elem_of_fmap in Hin as (d' & Henc & Hd').
    apply (inj EncodeToString) in Henc. subst d'.
    apply list_elem_of_filter in Hd' as [Hne Hd'].
    repeat split; assumption.
Qed.

Lemma Validate_ok_witness :
  let t := examples.transaction examples.alice examples.bob 100 0 [] x01 in
  let digests := [examples.alice] in
  (Forall (fun d => d = tx.emptyTxDigest) digests /\ [t] = []) \/
  ([t] = [t] /\
   length [t] = length (remove_dups (filter (fun d => d <> tx.emptyTxDigest) digests)) /\
   forall t', t' ∈ [t] ->
     exists digest txDataBytes constructedDigest,
       tx.getDigestFromTransaction t' = Ok digest /\
       digest ∈ digests /\ digest <> tx.emptyTxDigest /\
       types.MarshallBinary t' = Ok txDataBytes /\
       types.K12Hash (take (length txDataBytes - 64) txDataBytes) = Ok constructedDigest /\
       examples.acceptSignature (types.Transaction.SourcePublicKey t') constructedDigest
                                (types.Transaction.Signature t') = None).
Proof.
  intros t digests.
  apply (Validate_ok examples.acceptSignature [t] [t] (examples.tickBody digests)).
  vm_compute. reflexivity.
Defined.

(** The records [storeTransferTransactions] puts, at any key. *)
Lemma PutTransferTransactionsPerTick_fold_any (tickNumber : Z)
  (m : gmap string (list protobuff.Transaction.t)) (s : store.PebbleStore)
  (id : string) (tick' : Z) :
  let s' := map_fold (fun id txs s =>
       store.PutTransferTransactionsPerTick id tickNumber
         {| protobuff.TransferTransactionsPerTick.TickNumber := uint32 tickNumber;
            protobuff.TransferTransactionsPerTick.Identity := id;
            protobuff.TransferTransactionsPerTick.Transactions := txs |} s) s m in
  store.with_identityTransferTxs (fun _ => store.identityTransferTxs s) s' = s /\
  store.identityTransferTxs s' !! (id, tick') =
  match m !! id with
  | Some txs =>
    if decide (tick' = tickNumber)
    then Some {| protobuff.TransferTransactionsPerTick.TickNumber := uint32 tickNumber;
                 protobuff.TransferTransactionsPerTick.Identity := id;
                 protobuff.TransferTransactionsPerTick.Transactions := txs |}
    else store.identityTransferTxs s !! (id, tick')
  | None => store.identityTransferTxs s !! (id, tick')
  end.
Proof.
  intros s'. subst s'.
  apply (map_fold_weak_ind (fun r m =>
    store.with_identityTransferTxs (fun _ => store.identityTransferTxs s) r = s /\
    store.identityTransferTxs r !! (id, tick') =
    match m !! id with
    | Some txs =>
      if decide (tick' = tickNumber)
      then Some {| protobuff.TransferTransactionsPerTick.TickNumber := uint32 tickNumber;
                   protobuff.TransferTransactionsPerTick.Identity := id;
                   protobuff.TransferTransactionsPerTick.Transactions := txs |}
      else store.identityTransferTxs s !! (id, tick')
    | None => store.identityTransferTxs s !! (id, tick')
    end)).
  - rewrite lookup_empty. split; [now destruct s|reflexivity].
  - intros i x m' r Hi [IHs IH]. split.
    + rewrite <- IHs at 1. reflexivity.
    + simpl. destruct (decide (i = id)) as [->|Hne].
      * rewrite (lookup_insert_eq m'). case_decide as Ht.
        -- subst tick'. now rewrite lookup_insert_eq.
        -- rewrite lookup_insert_ne by congruence. rewrite Hi in IH. exact IH.
      * rewrite lookup_insert_ne by congruence.
        rewrite (lookup_insert_ne m') by exact Hne. exact IH.
Qed.

Lemma removeNonTransferTransactionsAndConvert_inv `{types.Connector}
  (transactions : list types.Transaction.t) (ps : list protobuff.Transaction.t)
  (p : protobuff.Transaction.t) :
  tx.removeNonTransferTransactionsAndConvert transactions = Ok ps ->
  p ∈ ps ->
  exists t, t ∈ transactions /\ types.Transaction.Amount t <> 0 /\ tx.txToProto t = Ok p.
Proof.
  revert ps. induction transactions as [|t rest IH]; intros ps Hok Hin; simpl in Hok.
  - injection Hok as <-. inversion Hin.
  - destruct (decide (types.Transaction.Amount t = 0)) as [Hz|Hnz].
    + destruct (IH _ Hok Hin) as (t' & Ht' & Hrest). exists t'. split; [now right|exact Hrest].
    + destruct (tx.txToProto t) as [p'|] eqn:Ep; [|discriminate Hok]. simpl in Hok.
      destruct (tx.removeNonTransferTransactionsAndConvert rest) as [ps'|] eqn:Er;
        [|discriminate Hok].
      injection Hok as <-. apply elem_of_cons in Hin as [->|Hin].
      * exists t. split; [now left|]. split; assumption.
      * destruct (IH _ eq_refl Hin) as (t' & Ht' & Hrest).
        exists t'. split; [now right|exact Hrest].
Qed.

(** X5: what [storeTransferTransactions] leaves in the store. Every
    transfer with a non-zero amount is in the record of its source and in
    the record of its destination for this tick, and those records hold
    nothing but such transfers; the records of other ticks and of
    identities without a transfer, and every other kind of record, are as
    before. *)
Theorem storeTransferTransactions_index `{types.Connector}
  (tickNumber : Z) (transactions : list types.Transaction.t)
  (s s' : store.PebbleStore) :
  tx_store.storeTransferTransactions tickNumber transactions s = (Ok tt, s') ->
  let transfer_of id p :=
    exists t, t ∈ transactions /\ types.Transaction.Amount t <> 0 /\
              tx.txToProto t = Ok p /\
              (protobuff.Transaction.SourceId p = id \/ protobuff.Transaction.DestId p = id) in
  (forall id p, transfer_of id p ->
     exists record,
       store.identityTransferTxs s' !! (id, tickNumber) = Some record /\
       protobuff.TransferTransactionsPerTick.Identity record = id /\
       p ∈ protobuff.TransferTransactionsPerTick.Transactions record /\
       forall q, q ∈ protobuff.TransferTransactionsPerTick.Transactions record ->
                 transfer_of id q) /\
  (forall id tick',
     tick' <> tickNumber \/ (forall p, ~ transfer_of id p) ->
     store.identityTransferTxs s' !! (id, tick') = store.identityTransferTxs s !! (id, tick')) /\
  store.with_identityTransferTxs (fun _ => store.identityTransferTxs s) s' = s.
Proof.
  intros Hrun transfer_of.
  unfold tx_store.storeTransferTransactions, mbind, wrapM, lift, modify in Hrun.
  destruct (tx.removeNonTransferTransactionsAndConvert transactions) as [ps|e] eqn:Eps;
    [|discriminate Hrun].
  simpl in Hrun. injection Hrun as <-.
  set (m := foldl _ ∅ ps).
  assert (Hm : forall id,
    m !!! id =
      flat_map (fun p =>
        (if decide (protobuff.Transaction.DestId p = id) then [p] else []) ++
        (if decide (protobuff.Transaction.SourceId p = id) then [p] else [])) ps /\
    ((exists p, p ∈ ps /\ (protobuff.Transaction.DestId p = id \/
                           protobuff.Transaction.SourceId p = id)) ->
     is_Some (m !! id))).
  { intros id. destruct (createTransferTransactionsIdentityMap_lookup ps id)
      as (m' & Em' & H1 & H2).
    unfold tx.createTransferTransactionsIdentityMap in Em'. injection Em' as <-.
    split; assumption. }
  assert (Hlisted : forall id q,
    q ∈ m !!! id <->
    q ∈ ps /\ (protobuff.Transaction.DestId q = id \/ protobuff.Transaction.SourceId q = id)).
  { intros id q. rewrite (proj1 (Hm id)), list_elem_of_In, in_flat_map.
    setoid_rewrite <- list_elem_of_In. split.
    - intros (p & Hp & Hq). apply elem_of_app in Hq.
      destruct Hq as [Hq|Hq]; case_decide; try (now inversion Hq);
        apply list_elem_of_singleton in Hq; subst q; auto.
    - intros [Hq Hid]. exists q. split; [exact Hq|].
      apply elem_of_app.
      destruct Hid as [Hid|Hid]; [left|right]; rewrite decide_True by exact Hid;
        apply list_elem_of_here. }
  assert (Hnone : forall id, (forall p, ~ transfer_of id p) -> m !! id = None).
  { intros id Hno. destruct (m !! id) as [l|] eqn:E; [|reflexivity]. exfalso.
    clear Hm Hlisted. revert E. subst m.
    assert (G : forall ps (m0 : gmap string (list protobuff.Transaction.t)),
      (forall p, p ∈ ps -> protobuff.Transaction.DestId p <> id /\
                           protobuff.Transaction.SourceId p <> id) ->
      foldl (fun txsPerIdentity p =>
               tx.append_to (protobuff.Transaction.SourceId p) p
                 (tx.append_to (protobuff.Transaction.DestId p) p
                    (tx.ensure (protobuff.Transaction.SourceId p)
                       (tx.ensure (protobuff.Transaction.DestId p) txsPerIdentity))))
            m0 ps !! id = m0 !! id).
    { clear. induction ps as [|p ps IH]; intros m0 Hps; [reflexivity|].
      simpl. rewrite IH by (intros q Hq; apply Hps; now right).
      destruct (Hps p (list_elem_of_here _ _)) as [Hd Hs].
      unfold tx.append_to, tx.ensure.
      rewrite !lookup_insert_ne by assumption.
      repeat (case_match; rewrite ?lookup_insert_ne by assumption); reflexivity. }
    rewrite G; [now rewrite lookup_empty|].
    intros p Hp.
    destruct (removeNonTransferTransactionsAndConvert_inv _ _ _ Eps Hp) as (t & Ht & Ha & Hc).
    split; intros Hid; apply (Hno p); exists t; auto. }
  split; [|split].
  - intros id p (t & Ht & Ha & Hp & Hid).
    assert (Hps : p ∈ ps) by (eapply removeNonTransferTransactionsAndConvert_elem; eauto).
    destruct (PutTransferTransactionsPerTick_fold_any tickNumber m s id tickNumber)
      as [_ Hlook].
    assert (Hs : is_Some (m !! id)) by (apply (proj2 (Hm id)); exists p; tauto).
    rewrite Hlook, (lookup_lookup_total _ _ Hs), decide_True by reflexivity.
    eexists. split; [reflexivity|]. split; [reflexivity|]. simpl. split.
    + apply Hlisted. tauto.
    + intros q Hq. apply Hlisted in Hq as [Hq Hqid].
      destruct (removeNonTransferTransactionsAndConvert_inv _ _ _ Eps Hq)
        as (t' & Ht' & Ha' & Hc').
      exists t'. tauto.
  - intros id tick' Hcase.
    destruct (PutTransferTransactionsPerTick_fold_any tickNumber m s id tick')
      as [_ Hlook].
    rewrite Hlook. destruct Hcase as [Hne|Hno].
    + destruct (m !! id); [|reflexivity]. now rewrite decide_False by exact Hne.
    + now rewrite (Hnone id Hno).
  - apply (PutTransferTransactionsPerTick_fold_any tickNumber m s "" 0).
Qed.

Lemma storeTransferTransactions_index_witness :
  let t := examples.transaction examples.alice examples.bob 100 0 [] x01 in
  let s' := (tx_store.storeTransferTransactions 7 [t] store.empty).2 in
  exists p record,
    tx.txToProto t = Ok p /\
    store.identityTransferTxs s' !! (EncodeToString examples.bob, 7) = Some record /\
    p ∈ protobuff.TransferTransactionsPerTick.Transactions record.
Proof.
  intros t s'.
  assert (Hrun : tx_store.storeTransferTransactions 7 [t] store.empty = (Ok tt, s'))
    by (vm_compute; reflexivity).
  destruct (tx.txToProto t) as [p|] eqn:Ep; [|vm_compute in Ep; discriminate Ep].
  destruct (storeTransferTransactions_index 7 [t] store.empty s' Hrun) as [Hin _].
  destruct (Hin (EncodeToString examples.bob) p) as (record & Hr & _ & Hp & _).
  { exists t. split; [apply list_elem_of_here|]. split; [simpl; lia|].
    split; [exact Ep|]. right. vm_compute in Ep. injection Ep as <-. reflexivity. }
  exists p, record. auto.
Defined.

(** X6: [createQxAssetTransferAssetIdMap] never fails; the list under an
    asset id holds the stored form of exactly the transfers of that issuer
    and name, in the order they came, and an asset id without a transfer
    has no key. *)
Theorem createQxAssetTransferAssetIdMap_buckets (transfers : list tx.QxAssetTransfer.t) :
  exists m,
    tx.createQxAssetTransferAssetIdMap transfers = Ok m /\
    forall assetId,
      m !! assetId =
      match filter (fun t => (tx.QxAssetTransfer.AssetIssuer t ++
                              tx.QxAssetTransfer.AssetName t)%string = assetId)
                   transfers with
      | [] => None
      | of_asset => Some (tx.toQxAssetTransferDB <$> of_asset)
      end.
Proof.
  unfold tx.createQxAssetTransferAssetIdMap. eexists. split; [reflexivity|].
  intros assetId.
  set (step := fun (m : gmap string (list protobuff.QxAssetTransferDB.t)) t => _).
  set (P := fun t => (tx.QxAssetTransfer.AssetIssuer t ++
                      tx.QxAssetTransfer.AssetName t)%string = assetId).
  assert (G : forall transfers (m0 : gmap string (list protobuff.QxAssetTransferDB.t)),
             foldl step m0 transfers !! assetId =
             match filter P transfers with
             | [] => m0 !! assetId
             | of_asset => Some (m0 !!! assetId ++ (tx.toQxAssetTransferDB <$> of_asset))
             end).
  { clear transfers. induction transfers as [|t transfers IH]; intros m0; [reflexivity|].
    cbn [foldl]. rewrite IH, filter_cons. unfold step.
    destruct (decide (P t)) as [HP|HP]; unfold P in HP;
      destruct (filter P transfers) as [|t' l].
    - rewrite HP, lookup_append_to_eq, lookup_total_ensure. reflexivity.
    - rewrite lookup_total_append_to, lookup_total_ensure, decide_True by exact HP.
      now rewrite <- app_assoc.
    - unfold tx.append_to. rewrite lookup_insert_ne by exact HP.
      unfold tx.ensure. case_match; [reflexivity|].
      now rewrite lookup_insert_ne by exact HP.
    - rewrite lookup_total_append_to, lookup_total_ensure, decide_False by exact HP.
      reflexivity. }
  rewrite G, lookup_empty, lookup_total_empty.
  now destruct (filter P transfers).
Qed.

(** X7: [removeNonQxAssetTransferTransactionsAndConvert] never fails; it
    keeps, in their order, exactly the transactions of input type 2 whose
    input has the 80 bytes of the payload and whose two keys have an
    identity text, each with the payload decoded from its input. The
    destination of a transaction plays no part. *)
Theorem removeNonQxAssetTransferTransactionsAndConvert_keeps `{types.Connector}
  (transactions : list types.Transaction.t) :
  exists kept,
    tx.removeNonQxAssetTransferTransactionsAndConvert transactions = Ok kept /\
    tx.QxTransactionWithTransferAssetPayload.Transaction <$> kept =
      filter (fun t =>
                types.Transaction.InputType t = 2 /\
                (80 <= length (types.Transaction.Input t))%nat /\
                is_ok (qx.GetAssetTransfer
                         (qx.UnmarshalBinary qx.zero (types.Transaction.Input t)).1) = true)
             transactions /\
    Forall (fun k =>
              qx.GetAssetTransfer
                (qx.UnmarshalBinary qx.zero
                   (types.Transaction.Input
                      (tx.QxTransactionWithTransferAssetPayload.Transaction k))).1
              = Ok (tx.QxTransactionWithTransferAssetPayload.TransferPayload k)) kept.
Proof.
  induction transactions as [|t rest (kept & IH & Hk & Hp)].
  - exists []. repeat split. constructor.
  - cbn [tx.removeNonQxAssetTransferTransactionsAndConvert]. rewrite filter_cons.
    destruct (decide (types.Transaction.InputType t <> 2)) as [Hne|He].
    { exists kept. rewrite decide_False by tauto. auto. }
    pose proof (UnmarshalBinary_ok_iff qx.zero (types.Transaction.Input t)) as Hlen.
    destruct (qx.UnmarshalBinary qx.zero (types.Transaction.Input t)) as [input [e|]] eqn:Eu.
    { exists kept. rewrite decide_False; [auto|].
      intros (_ & H80 & _). apply Hlen in H80. discriminate H80. }
    simpl in Hlen. cbn [fst]. destruct (qx.GetAssetTransfer input) as [payload|e] eqn:Eg.
    + rewrite IH. cbn [rbind]. eexists. split; [reflexivity|]. split.
      * rewrite decide_True.
        -- rewrite fmap_cons, Hk. reflexivity.
        -- split; [lia|]. split; [now apply Hlen|reflexivity].
      * constructor; [|exact Hp]. simpl. now rewrite Eu.
    + exists kept. rewrite decide_False; [auto|].
      intros (_ & _ & Hok). discriminate Hok.
Qed.

(** ** Package [asset_transactions]: participants and currency *)

(** The participants collected so far have no repetition, and [seen] is
    the set of them. *)
Lemma add_participant_inv (id : string) (result : list string) (seen : gset string) :
  NoDup result -> seen = list_to_set result ->
  let acc := asset_transactions.add_participant id (result, seen) in
  NoDup acc.1 /\ acc.2 = list_to_set acc.1 /\
  (forall x, x ∈ acc.1 <-> x ∈ result \/ x = id) /\
  (exists more, acc.1 = result ++ more).
Proof.
  intros Hnd ->. unfold asset_transactions.add_participant.
  destruct (decide (id ∈ (list_to_set result : gset string))) as [Hin|Hin]; simpl.
  - apply elem_of_list_to_set in Hin. split; [exact Hnd|]. split; [reflexivity|]. split.
    + intros x. split; [now left|]. intros [H| ->]; assumption.
    + exists []. now rewrite app_nil_r.
  - rewrite elem_of_list_to_set in Hin. split; [|split; [|split]].
    + apply NoDup_app. split; [exact Hnd|]. split.
      * intros x Hx Hx'. apply list_elem_of_singleton in Hx'. now subst.
      * apply NoDup_singleton.
    + rewrite list_to_set_app_L. simpl. set_solver.
    + intros x. rewrite elem_of_app, list_elem_of_singleton. tauto.
    + eauto.
Qed.

Lemma add_participants_inv (ids result : list string) (seen : gset string) :
  NoDup result -> seen = list_to_set result ->
  let acc := foldl (fun acc id => asset_transactions.add_participant id acc)
                   (result, seen) ids in
  NoDup acc.1 /\ acc.2 = list_to_set acc.1 /\
  (forall x, x ∈ acc.1 <-> x ∈ result \/ x ∈ ids) /\
  (exists more, acc.1 = result ++ more).
Proof.
  revert result seen. induction ids as [|id ids IH]; intros result seen Hnd Hseen;
    cbn [foldl fst snd].
  - split; [exact Hnd|]. split; [exact Hseen|]. split.
    + intros x. split; [now left|]. intros [Hx|Hx]; [assumption|inversion Hx].
    + exists []. now rewrite app_nil_r.
  - destruct (add_participant_inv id result seen Hnd Hseen) as (H1 & H2 & H3 & more & H4).
    destruct (asset_transactions.add_participant id (result, seen)) as [r1 s1].
    cbn [fst snd] in *. destruct (IH r1 s1 H1 H2) as (K1 & K2 & K3 & more' & K4).
    split; [exact K1|]. split; [exact K2|]. split.
    + intros x. specialize (K3 x). specialize (H3 x).
      pose proof (elem_of_cons ids x id) as Hc. tauto.
    + exists (more ++ more'). rewrite K4, H4. now rewrite app_assoc.
Qed.

Lemma add_participant_start (id : string) :
  asset_transactions.add_participant id ([], ∅) = ([id], list_to_set [id]).
Proof.
  unfold asset_transactions.add_participant.
  destruct (decide (id ∈ (∅ : gset string))) as [Hin|_]; [set_solver|reflexivity].
Qed.

Lemma Ok_inj {A} (a b : A) : @Ok A a = Ok b -> a = b.
Proof. congruence. Qed.

(** X8: the participants that [findTransactionParticipants] returns are
    pairwise different, whatever the transaction (a transfer to oneself,
    a send-many that pays the same identity twice or pays its sender); when
    there are any, the first one is the sender: the source of the
    transaction, or for a send-many the source recorded in its payload. *)
Theorem findTransactionParticipants_NoDup
  (t : asset_transactions.TransactionWithAssetPayload.t) (participants : list string) :
  asset_transactions.findTransactionParticipants t = Ok participants ->
  NoDup participants /\
  (participants = [] \/
   head participants =
   Some (asset_transactions.LeanTransaction.SourceId
           (asset_transactions.TransactionWithAssetPayload.Transaction t)) \/
   exists sendMany,
     asset_transactions.TransactionWithAssetPayload.SendManyTransaction t = Some sendMany /\
     head participants = Some (protobuff.SendManyTransaction.SourceId sendMany)).
Proof.
  unfold asset_transactions.findTransactionParticipants. cbv zeta.
  set (lean := asset_transactions.TransactionWithAssetPayload.Transaction t).
  rewrite !add_participant_start.
  destruct (decide (asset_transactions.LeanTransaction.InputType lean = 0)) as [_|_].
  { intros Hok%Ok_inj. subst participants.
    destruct (add_participant_inv (asset_transactions.LeanTransaction.DestId lean)
                [asset_transactions.LeanTransaction.SourceId lean] _
                (NoDup_singleton _) eq_refl) as (K1 & _ & _ & more & K4).
    split; [exact K1|]. right. left. rewrite K4. reflexivity. }
  destruct (decide (asset_transactions.LeanTransaction.DestId lean =
                    asset_transactions.SMART_CONTRACT_QUTIL)) as [_|_].
  { destruct (decide (asset_transactions.LeanTransaction.InputType lean = 1)) as [_|_].
    - destruct (asset_transactions.TransactionWithAssetPayload.SendManyTransaction t)
        as [sendMany|]; [|discriminate].
      rewrite add_participant_start.
      intros Hok%Ok_inj. subst participants.
      pose proof (add_participants_inv
        (protobuff.SendManyTransfer.DestId <$> protobuff.SendManyTransaction.Transfers sendMany)
        [protobuff.SendManyTransaction.SourceId sendMany] _
        (NoDup_singleton _) eq_refl) as HK.
      cbv zeta in HK. rewrite foldl_fmap in HK. destruct HK as (K1 & _ & _ & more & K4).
      split; [exact K1|]. right. right. exists sendMany. split; [reflexivity|].
      rewrite K4. reflexivity.
    - intros Hok%Ok_inj. subst participants. split; [constructor|now left]. }
  destruct (decide (asset_transactions.LeanTransaction.DestId lean =
                    asset_transactions.SMART_CONTRACT_QX)) as [_|_].
  { destruct (decide (asset_transactions.LeanTransaction.InputType lean = 2)) as [_|_].
    - destruct (asset_transactions.TransactionWithAssetPayload.QxTransferAssetPayload t)
        as [payload|]; [|discriminate].
      intros Hok%Ok_inj. subst participants.
      destruct (add_participant_inv (qx.QxTransferAssetPayload.DestId payload)
                  [asset_transactions.LeanTransaction.SourceId lean] _
                  (NoDup_singleton _) eq_refl) as (K1 & _ & _ & more & K4).
      split; [exact K1|]. right. left. rewrite K4. reflexivity.
    - intros Hok%Ok_inj. subst participants. split; [constructor|now left]. }
  intros Hok%Ok_inj. subst participants. split; [constructor|now left].
Qed.

Lemma findTransactionParticipants_NoDup_witness :
  let t := {| asset_transactions.TransactionWithAssetPayload.Transaction :=
                {| asset_transactions.LeanTransaction.SourceId := "ALICE";
                   asset_transactions.LeanTransaction.DestId := "ALICE";
                   asset_transactions.LeanTransaction.TxId := "tx";
                   asset_transactions.LeanTransaction.InputType := 0;
                   asset_transactions.LeanTransaction.Input := [] |};
              asset_transactions.TransactionWithAssetPayload.QxTransferAssetPayload := None;
              asset_transactions.TransactionWithAssetPayload.SendManyTransaction := None |} in
  asset_transactions.findTransactionParticipants t = Ok ["ALICE"] /\ NoDup ["ALICE"].
Proof.
  intros t. assert (E : asset_transactions.findTransactionParticipants t = Ok ["ALICE"])
    by (vm_compute; reflexivity).
  split; [exact E|]. exact (proj1 (findTransactionParticipants_NoDup t ["ALICE"] E)).
Defined.

Section ClassifyThenFind.
Context `{types.Connector}.

Lemma txToLeanTransaction_InputType (t : types.Transaction.t)
  (lean : asset_transactions.LeanTransaction.t) :
  asset_transactions.txToLeanTransaction t = Ok lean ->
  asset_transactions.LeanTransaction.InputType lean = types.Transaction.InputType t /\
  asset_transactions.LeanTransaction.Input lean = types.Transaction.Input t.
Proof.
  unfold asset_transactions.txToLeanTransaction.
  destruct (types.Digest t) as [digest|]; [|discriminate]. cbn [wrapping rbind].
  destruct (types.FromPubKey digest true); [|discriminate]. cbn [wrapping rbind].
  destruct (types.FromPubKey (types.Transaction.SourcePublicKey t) false);
    [|discriminate]. cbn [wrapping rbind].
  destruct (types.FromPubKey (types.Transaction.DestinationPublicKey t) false);
    [|discriminate]. cbn [wrapping rbind].
  intros [= <-]. split; reflexivity.
Qed.

(** X9: what [ParseAssetTransaction] lets through,
    [FindTransactionIdParticipantsAndCurrency] accepts: it never answers
    a parsed transaction with a missing-payload error or with
    [ErrNotValidTransaction]. The result carries the id of the
    transaction, participants without repetition that start with its
    source, and as currency the issuer and name of the Qx payload when
    there is one, the native coin otherwise. *)
Theorem ParseAssetTransaction_has_participants_and_currency
  (t : types.Transaction.t) (parsed : asset_transactions.TransactionWithAssetPayload.t) :
  asset_transactions.ParseAssetTransaction t = Ok parsed ->
  exists found,
    asset_transactions.FindTransactionIdParticipantsAndCurrency parsed = Ok found /\
    asset_transactions.TransactionIdParticipantsAndCurrency.TxId found =
      asset_transactions.LeanTransaction.TxId
        (asset_transactions.TransactionWithAssetPayload.Transaction parsed) /\
    NoDup (asset_transactions.TransactionIdParticipantsAndCurrency.Identities found) /\
    head (asset_transactions.TransactionIdParticipantsAndCurrency.Identities found) =
      Some (asset_transactions.LeanTransaction.SourceId
              (asset_transactions.TransactionWithAssetPayload.Transaction parsed)) /\
    asset_transactions.TransactionIdParticipantsAndCurrency.Currency found =
      match asset_transactions.TransactionWithAssetPayload.QxTransferAssetPayload parsed with
      | Some payload =>
        {| asset_transactions.TransactionCurrency.AssetIssuer :=
             qx.QxTransferAssetPayload.Issuer payload;
           asset_transactions.TransactionCurrency.AssetName :=
             qx.QxTransferAssetPayload.AssetName payload |}
      | None =>
        {| asset_transactions.TransactionCurrency.AssetIssuer :=
             asset_transactions.NATIVE_QUBIC_ASSET_ISSUER;
           asset_transactions.TransactionCurrency.AssetName :=
             asset_transactions.NATIVE_QUBIC_ASSET_NAME |}
      end.
Proof.
  intros Hparse.
  destruct (asset_transactions.txToLeanTransaction t) as [lean|e] eqn:Hlean.
  2:{ unfold asset_transactions.ParseAssetTransaction in Hparse.
      rewrite Hlean in Hparse. discriminate Hparse. }
  rewrite (ParseAssetTransaction_lean t lean Hlean) in Hparse.
  destruct (txToLeanTransaction_InputType t lean Hlean) as [Hty _].
  assert (Hfind : forall participants currency,
    asset_transactions.findTransactionParticipants parsed = Ok participants ->
    asset_transactions.findTransactionCurrency parsed = Ok currency ->
    asset_transactions.FindTransactionIdParticipantsAndCurrency parsed =
    Ok {| asset_transactions.TransactionIdParticipantsAndCurrency.TxId :=
            asset_transactions.LeanTransaction.TxId
              (asset_transactions.TransactionWithAssetPayload.Transaction parsed);
          asset_transactions.TransactionIdParticipantsAndCurrency.Currency := currency;
          asset_transactions.TransactionIdParticipantsAndCurrency.Identities := participants |}).
  { intros participants currency Ep Ec.
    unfold asset_transactions.FindTransactionIdParticipantsAndCurrency.
    rewrite Ep, Ec. reflexivity. }
  unfold asset_transactions.findTransactionParticipants,
    asset_transactions.findTransactionCurrency in Hfind. cbv zeta in Hfind.
  rewrite !add_participant_start in Hfind.
  destruct (decide (types.Transaction.InputType t = 0)) as [H0|H0].
  { apply Ok_inj in Hparse. subst parsed.
    cbn [asset_transactions.TransactionWithAssetPayload.Transaction
         asset_transactions.TransactionWithAssetPayload.QxTransferAssetPayload] in *.
    rewrite !decide_True in Hfind by congruence.
    eexists. split; [apply Hfind; reflexivity|].
    cbn [asset_transactions.TransactionIdParticipantsAndCurrency.TxId
         asset_transactions.TransactionIdParticipantsAndCurrency.Identities
         asset_transactions.TransactionIdParticipantsAndCurrency.Currency].
    destruct (add_participant_inv (asset_transactions.LeanTransaction.DestId lean)
                [asset_transactions.LeanTransaction.SourceId lean] _
                (NoDup_singleton _) eq_refl) as (K1 & _ & _ & more & K4).
    split; [reflexivity|]. split; [exact K1|]. split; [|reflexivity].
    rewrite K4. reflexivity. }
  destruct (decide (asset_transactions.LeanTransaction.DestId lean =
                    asset_transactions.SMART_CONTRACT_QUTIL)) as [Hq|Hq].
  { destruct (decide (types.Transaction.InputType t = 1)) as [H1|H1]; [|discriminate Hparse].
    unfold asset_transactions.parseSendMany in Hparse.
    destruct (decide (asset_transactions.LeanTransaction.DestId lean <> types.QutilAddress));
      [discriminate Hparse|].
    destruct (types.SendMany_UnmarshallBinary _) as [sendManyPayload|]; [|discriminate Hparse].
    destruct (types.GetTransfers _) as [transfers|]; [|discriminate Hparse].
    cbv zeta in Hparse. apply Ok_inj in Hparse. subst parsed.
    cbn [asset_transactions.TransactionWithAssetPayload.Transaction
         asset_transactions.TransactionWithAssetPayload.QxTransferAssetPayload
         asset_transactions.TransactionWithAssetPayload.SendManyTransaction
         protobuff.SendManyTransaction.SourceId
         protobuff.SendManyTransaction.Transfers] in *.
    rewrite decide_False in Hfind by congruence.
    rewrite !(decide_True (P := asset_transactions.LeanTransaction.DestId lean = _)) in Hfind
      by exact Hq.
    rewrite !(decide_True (P := asset_transactions.LeanTransaction.InputType lean = 1)) in Hfind
      by congruence.
    rewrite decide_False in Hfind by congruence.
    rewrite add_participant_start in Hfind.
    eexists. split; [apply Hfind; reflexivity|].
    cbn [asset_transactions.TransactionIdParticipantsAndCurrency.TxId
         asset_transactions.TransactionIdParticipantsAndCurrency.Identities
         asset_transactions.TransactionIdParticipantsAndCurrency.Currency].
    match goal with
    | |- context [foldl _ _ ?l] =>
      pose proof (add_participants_inv (protobuff.SendManyTransfer.DestId <$> l)
        [asset_transactions.LeanTransaction.SourceId lean] _
        (NoDup_singleton _) eq_refl) as HK
    end.
    cbv zeta in HK. rewrite foldl_fmap in HK. destruct HK as (K1 & _ & _ & more & K4).
    split; [reflexivity|]. split; [exact K1|]. split; [|reflexivity].
    rewrite K4. reflexivity. }
  destruct (decide (asset_transactions.LeanTransaction.DestId lean =
                    asset_transactions.SMART_CONTRACT_QX)) as [Hx|Hx]; [|discriminate Hparse].
  destruct (decide (types.Transaction.InputType t = 2)) as [H2|H2]; [|discriminate Hparse].
  unfold asset_transactions.parseTransferShare in Hparse.
  destruct (qx.UnmarshalBinary _ _) as [input [e|]]; [discriminate Hparse|].
  destruct (qx.GetAssetTransfer input) as [payload|]; [|discriminate Hparse].
  apply Ok_inj in Hparse. subst parsed.
  cbn [asset_transactions.TransactionWithAssetPayload.Transaction
       asset_transactions.TransactionWithAssetPayload.QxTransferAssetPayload
       asset_transactions.TransactionWithAssetPayload.SendManyTransaction] in *.
  rewrite !(decide_False (P := asset_transactions.LeanTransaction.InputType lean = 0)) in Hfind
    by congruence.
  rewrite !(decide_False (P := asset_transactions.LeanTransaction.DestId lean =
                               asset_transactions.SMART_CONTRACT_QUTIL)) in Hfind by exact Hq.
  rewrite !(decide_True (P := asset_transactions.LeanTransaction.DestId lean =
                              asset_transactions.SMART_CONTRACT_QX)) in Hfind by exact Hx.
  rewrite !(decide_True (P := asset_transactions.LeanTransaction.InputType lean = 2)) in Hfind
    by congruence.
  eexists. split; [apply Hfind; reflexivity|].
  cbn [asset_transactions.TransactionIdParticipantsAndCurrency.TxId
       asset_transactions.TransactionIdParticipantsAndCurrency.Identities
       asset_transactions.TransactionIdParticipantsAndCurrency.Currency].
  destruct (add_participant_inv (qx.QxTransferAssetPayload.DestId payload)
              [asset_transactions.LeanTransaction.SourceId lean] _
              (NoDup_singleton _) eq_refl) as (K1 & _ & _ & more & K4).
  split; [reflexivity|]. split; [exact K1|]. split; [|reflexivity].
  rewrite K4. reflexivity.
Qed.

End ClassifyThenFind.

Lemma ParseAssetTransaction_has_participants_and_currency_witness :
  let t := examples.transaction examples.alice examples.qxKey 0 2 examples.rawPayload x01 in
  exists parsed found,
    asset_transactions.ParseAssetTransaction t = Ok parsed /\
    asset_transactions.FindTransactionIdParticipantsAndCurrency parsed = Ok found /\
    asset_transactions.TransactionIdParticipantsAndCurrency.TxId found =
      EncodeToString (replicate 32 x01) /\
    head (asset_transactions.TransactionIdParticipantsAndCurrency.Identities found) =
      Some (EncodeToString examples.alice) /\
    asset_transactions.TransactionCurrency.AssetName
      (asset_transactions.TransactionIdParticipantsAndCurrency.Currency found) = "CFB".
Proof.
  intros t.
  destruct (asset_transactions.ParseAssetTransaction t) as [parsed|e] eqn:E;
    [|vm_compute in E; discriminate E].
  destruct (ParseAssetTransaction_has_participants_and_currency t parsed E)
    as (found & Hfound & Hid & _ & Hhead & Hcur).
  exists parsed, found. split; [reflexivity|]. split; [exact Hfound|].
  vm_compute in E. apply Ok_inj in E. subst parsed.
  split; [exact Hid|]. split; [exact Hhead|]. rewrite Hcur. reflexivity.
Defined.

(** ** Package [validator/tx]: the index of asset transactions *)

Lemma findTransactionParticipants_distinct
  (t : asset_transactions.TransactionWithAssetPayload.t) (participants : list string) :
  asset_transactions.findTransactionParticipants t = Ok participants -> NoDup participants.
Proof.
  unfold asset_transactions.findTransactionParticipants. cbv zeta.
  rewrite !add_participant_start.
  repeat match goal with
         | |- context [decide ?P] => destruct (decide P) as [_|_]
         end;
    try (destruct (asset_transactions.TransactionWithAssetPayload.SendManyTransaction t)
           as [sendMany|]; [rewrite ?add_participant_start|discriminate]);
    try (destruct (asset_transactions.TransactionWithAssetPayload.QxTransferAssetPayload t)
           as [payload|]; [|discriminate]);
    intros Hok%Ok_inj; subst participants; try constructor.
  - exact (proj1 (add_participant_inv _ [_] _ (NoDup_singleton _) eq_refl)).
  - match goal with
    | |- context [foldl _ _ ?l] =>
      pose proof (add_participants_inv (protobuff.SendManyTransfer.DestId <$> l)
                    [protobuff.SendManyTransaction.SourceId sendMany] _
                    (NoDup_singleton _) eq_refl) as HK
    end.
    cbv zeta in HK. rewrite foldl_fmap in HK. exact (proj1 HK).
  - exact (proj1 (add_participant_inv _ [_] _ (NoDup_singleton _) eq_refl)).
Qed.

Lemma FindTransactionIdParticipantsAndCurrency_ok
  (t : asset_transactions.TransactionWithAssetPayload.t)
  (found : asset_transactions.TransactionIdParticipantsAndCurrency.t) :
  asset_transactions.FindTransactionIdParticipantsAndCurrency t = Ok found ->
  asset_transactions.findTransactionParticipants t =
    Ok (asset_transactions.TransactionIdParticipantsAndCurrency.Identities found) /\
  asset_transactions.findTransactionCurrency t =
    Ok (asset_transactions.TransactionIdParticipantsAndCurrency.Currency found) /\
  asset_transactions.TransactionIdParticipantsAndCurrency.TxId found =
    asset_transactions.LeanTransaction.TxId
      (asset_transactions.TransactionWithAssetPayload.Transaction t).
Proof.
  unfold asset_transactions.FindTransactionIdParticipantsAndCurrency,
    asset_transactions.wrap_unless_not_valid.
  destruct (asset_transactions.findTransactionParticipants t) as [ps|[]];
    cbn [rbind]; try discriminate.
  destruct (asset_transactions.findTransactionCurrency t) as [c|[]];
    cbn [rbind]; try discriminate.
  intros [= <-]. repeat split.
Qed.

Section IdentityMap.
Implicit Types (identityMap : gmap string (gmap string (list string)))
  (identity assetId txId : string).

Lemma lookup_add_asset_transaction assetId txId identityMap identity identity' assetId' :
  tx.add_asset_transaction assetId txId identityMap identity !! identity'
    ≫= (.!! assetId') =
  if decide (identity' = identity /\ assetId' = assetId)
  then Some (default [] (identityMap !! identity ≫= (.!! assetId)) ++ [txId])
  else identityMap !! identity' ≫= (.!! assetId').
Proof.
  unfold tx.add_asset_transaction. cbv zeta.
  destruct (decide (identity' = identity)) as [->|Hi].
  - rewrite lookup_insert_eq. unfold tx.append_to.
    change (Some ?x ≫= ?f) with (f x). cbv beta.
    destruct (decide (assetId' = assetId)) as [->|Ha].
    + rewrite decide_True by done. rewrite lookup_insert_eq. f_equal. f_equal.
      rewrite lookup_total_alt. destruct (identityMap !! identity); reflexivity.
    + rewrite decide_False by tauto. rewrite lookup_insert_ne by done.
      destruct (identityMap !! identity); reflexivity.
  - rewrite decide_False by tauto. rewrite lookup_insert_ne by done. reflexivity.
Qed.

Lemma lookup_add_asset_transactions assetId txId (identities : list string)
  identityMap identity' assetId' :
  NoDup identities ->
  foldl (tx.add_asset_transaction assetId txId) identityMap identities !! identity'
    ≫= (.!! assetId') =
  if decide (identity' ∈ identities /\ assetId' = assetId)
  then Some (default [] (identityMap !! identity' ≫= (.!! assetId)) ++ [txId])
  else identityMap !! identity' ≫= (.!! assetId').
Proof.
  revert identityMap. induction identities as [|id ids IH]; intros identityMap Hnd.
  - cbn [foldl]. rewrite decide_False; [reflexivity|]. intros [Hin _]. inversion Hin.
  - apply NoDup_cons in Hnd as [Hid Hnd]. cbn [foldl]. rewrite (IH _ Hnd).
    rewrite !lookup_add_asset_transaction.
    destruct (decide (identity' ∈ ids /\ assetId' = assetId)) as [[Hin ->]|Hno].
    + rewrite (decide_True (P := identity' ∈ id :: ids /\ assetId = assetId))
        by (split; [now apply list_elem_of_further|reflexivity]).
      rewrite decide_False; [reflexivity|]. intros [-> _]. contradiction.
    + destruct (decide (identity' = id /\ assetId' = assetId)) as [[-> ->]|Hno'].
      * rewrite decide_True by (split; [apply list_elem_of_here|reflexivity]). reflexivity.
      * rewrite decide_False; [reflexivity|]. intros [Hin ->].
        apply elem_of_cons in Hin as [->|Hin]; tauto.
Qed.

End IdentityMap.

(** The loop of [createIdentityMap]: what it adds to the map it starts
    from. *)
Lemma createIdentityMap_loop_lookup
  (txs : list asset_transactions.TransactionWithAssetPayload.t)
  (identityMap0 identityMap : gmap string (gmap string (list string)))
  (identity assetId : string) (listed : list string) :
  tx.createIdentityMap_loop txs identityMap0 = Ok identityMap ->
  identityMap0 !! identity ≫= (.!! assetId) =
    (if decide (listed = []) then None else Some listed) ->
  identityMap !! identity ≫= (.!! assetId) =
    (if decide (listed ++ spec.assetTransactionIds identity assetId txs = []) then None
     else Some (listed ++ spec.assetTransactionIds identity assetId txs)).
Proof.
  revert identityMap0 listed. induction txs as [|t rest IH]; intros identityMap0 listed.
  - intros [= <-] H0. cbn [spec.assetTransactionIds omap list_omap]. now rewrite app_nil_r.
  - cbn [tx.createIdentityMap_loop]. unfold spec.assetTransactionIds.
    cbn [omap list_omap]. fold (spec.assetTransactionIds identity assetId rest).
    destruct (asset_transactions.FindTransactionIdParticipantsAndCurrency t)
      as [found|e] eqn:Efound.
    + destruct (FindTransactionIdParticipantsAndCurrency_ok t found Efound)
        as (Eps & _ & Eid).
      apply findTransactionParticipants_distinct in Eps. cbv zeta.
      intros Hloop H0.
      set (assetId' :=
        (asset_transactions.TransactionCurrency.AssetIssuer
           (asset_transactions.TransactionIdParticipantsAndCurrency.Currency found) ++
         asset_transactions.TransactionCurrency.AssetName
           (asset_transactions.TransactionIdParticipantsAndCurrency.Currency found))%string)
        in *.
      assert (Hd : default [] (identityMap0 !! identity ≫= (.!! assetId)) = listed).
      { rewrite H0. case_decide; [now subst|reflexivity]. }
      destruct (decide (identity ∈
                  asset_transactions.TransactionIdParticipantsAndCurrency.Identities found /\
                assetId = assetId')) as [[Hin Ha]|Hno].
      * rewrite Eid. rewrite (cons_middle _ listed), app_assoc.
        apply (IH _ (listed ++ [_]) Hloop).
        rewrite (lookup_add_asset_transactions _ _ _ _ _ _ Eps).
        rewrite decide_True by (split; assumption).
        rewrite <- Ha, Hd. rewrite decide_False; [reflexivity|].
        intros E. now apply app_eq_nil in E as [_ E].
      * apply (IH _ listed Hloop).
        rewrite (lookup_add_asset_transactions _ _ _ _ _ _ Eps).
        rewrite decide_False by exact Hno. exact H0.
    + destruct e; try discriminate. intros Hloop H0. now apply (IH _ listed Hloop).
Qed.

(** X10: [createIdentityMap] groups the transaction ids per identity and
    per asset id: the list under a pair holds, in input order, the id of
    every transaction that has the identity among its participants and
    the asset id as its currency, once per transaction (a transfer to
    oneself is listed once); a pair without such a transaction has no
    entry, and transactions without participants and currency are
    skipped. *)
Theorem createIdentityMap_lookup
  (txs : list asset_transactions.TransactionWithAssetPayload.t)
  (identityMap : gmap string (gmap string (list string))) (identity assetId : string) :
  tx.createIdentityMap txs = Ok identityMap ->
  identityMap !! identity ≫= (.!! assetId) =
    (if decide (spec.assetTransactionIds identity assetId txs = []) then None
     else Some (spec.assetTransactionIds identity assetId txs)).
Proof.
  intros Hok.
  apply (createIdentityMap_loop_lookup txs ∅ identityMap identity assetId [] Hok).
  rewrite lookup_empty. reflexivity.
Qed.

Lemma createIdentityMap_lookup_witness :
  let selfTransfer :=
    {| asset_transactions.TransactionWithAssetPayload.Transaction :=
         {| asset_transactions.LeanTransaction.SourceId := "ALICE";
            asset_transactions.LeanTransaction.DestId := "ALICE";
            asset_transactions.LeanTransaction.TxId := "tx1";
            asset_transactions.LeanTransaction.InputType := 0;
            asset_transactions.LeanTransaction.Input := [] |};
       asset_transactions.TransactionWithAssetPayload.QxTransferAssetPayload := None;
       asset_transactions.TransactionWithAssetPayload.SendManyTransaction := None |} in
  exists identityMap,
    tx.createIdentityMap [selfTransfer] = Ok identityMap /\
    identityMap !! "ALICE" ≫= (.!! "00") = Some ["tx1"] /\
    identityMap !! "BOB" ≫= (.!! "00") = None.
Proof.
  intros selfTransfer.
  destruct (tx.createIdentityMap [selfTransfer]) as [identityMap|e] eqn:E;
    [|vm_compute in E; discriminate E].
  exists identityMap. split; [reflexivity|].
  rewrite !(createIdentityMap_lookup [selfTransfer] identityMap _ _ E).
  split; reflexivity.
Defined.

(** The records one batch of [PutAssetTransactionsPerTickBatch] sets. *)
Lemma PutAssetTransactionsPerTickBatch_inner (tickNumber : Z) (identity : string)
  (assetIdMap : gmap string (list string))
  (m : gmap (string * string * Z) protobuff.AssetTransactionsPerTickDB.t)
  (identity' assetId' : string) (tick' : Z) :
  map_fold (fun assetId transactionIds m =>
              <[(identity, assetId, tickNumber) :=
                  {| protobuff.AssetTransactionsPerTickDB.Transactions := transactionIds |}]> m)
           m assetIdMap !! (identity', assetId', tick') =
  match assetIdMap !! assetId' with
  | Some transactionIds =>
    if decide (identity' = identity /\ tick' = tickNumber)
    then Some {| protobuff.AssetTransactionsPerTickDB.Transactions := transactionIds |}
    else m !! (identity', assetId', tick')
  | None => m !! (identity', assetId', tick')
  end.
Proof.
  apply (map_fold_weak_ind (fun r assetIdMap =>
    r !! (identity', assetId', tick') =
    match assetIdMap !! assetId' with
    | Some transactionIds =>
      if decide (identity' = identity /\ tick' = tickNumber)
      then Some {| protobuff.AssetTransactionsPerTickDB.Transactions := transactionIds |}
      else m !! (identity', assetId', tick')
    | None => m !! (identity', assetId', tick')
    end)).
  - now rewrite lookup_empty.
  - intros a ids am r Ha IH. destruct (decide (a = assetId')) as [->|Hne].
    + rewrite (lookup_insert_eq am). case_decide as Hit.
      * destruct Hit as [-> ->]. now rewrite lookup_insert_eq.
      * rewrite lookup_insert_ne by (intros E; simplify_eq; tauto).
        rewrite Ha in IH. exact IH.
    + rewrite (lookup_insert_ne am) by exact Hne.
      rewrite lookup_insert_ne by congruence. exact IH.
Qed.

Lemma PutAssetTransactionsPerTickBatch_lookup
  (identityMap : gmap string (gmap string (list string))) (tickNumber : Z)
  (s : store.PebbleStore) (identity assetId : string) (tick' : Z) :
  store.qxIdentityAssetTransfers
    (store.PutAssetTransactionsPerTickBatch identityMap tickNumber s)
    !! (identity, assetId, tick') =
  match identityMap !! identity ≫= (.!! assetId) with
  | Some transactionIds =>
    if decide (tick' = tickNumber)
    then Some {| protobuff.AssetTransactionsPerTickDB.Transactions := transactionIds |}
    else store.qxIdentityAssetTransfers s !! (identity, assetId, tick')
  | None => store.qxIdentityAssetTransfers s !! (identity, assetId, tick')
  end.
Proof.
  unfold store.PutAssetTransactionsPerTickBatch.
  cbn [store.with_qxIdentityAssetTransfers store.qxIdentityAssetTransfers].
  generalize (store.qxIdentityAssetTransfers s). intros m.
  apply (map_fold_weak_ind (fun r identityMap =>
    r !! (identity, assetId, tick') =
    match identityMap !! identity ≫= (.!! assetId) with
    | Some transactionIds =>
      if decide (tick' = tickNumber)
      then Some {| protobuff.AssetTransactionsPerTickDB.Transactions := transactionIds |}
      else m !! (identity, assetId, tick')
    | None => m !! (identity, assetId, tick')
    end)).
  - now rewrite lookup_empty.
  - intros i am im r Hi IH. rewrite PutAssetTransactionsPerTickBatch_inner.
    destruct (decide (i = identity)) as [->|Hne].
    + rewrite (lookup_insert_eq im). change (Some am ≫= (.!! assetId)) with (am !! assetId).
      rewrite Hi in IH. change (None ≫= (.!! assetId)) with (@None (list string)) in IH.
      destruct (am !! assetId) as [ids|]; [|exact IH].
      destruct (decide (tick' = tickNumber)) as [->|Ht].
      * now rewrite decide_True.
      * rewrite decide_False by tauto. exact IH.
    + rewrite (lookup_insert_ne im) by exact Hne.
      destruct (am !! assetId) as [ids|]; [|exact IH].
      rewrite decide_False by (intros [-> _]; congruence). exact IH.
Qed.

Lemma PutAssetTransactionsPerTickBatch_frame
  (identityMap : gmap string (gmap string (list string))) (tickNumber : Z)
  (s : store.PebbleStore) :
  store.with_qxIdentityAssetTransfers (fun _ => store.qxIdentityAssetTransfers s)
    (store.PutAssetTransactionsPerTickBatch identityMap tickNumber s) = s.
Proof. now destruct s. Qed.

Section AssetIndex.
Context `{types.Connector}.

(** What the classifier lets through has its participants and its
    currency. *)
Lemma ParseAssetTransaction_found (t : types.Transaction.t)
  (parsed : asset_transactions.TransactionWithAssetPayload.t) :
  asset_transactions.ParseAssetTransaction t = Ok parsed ->
  is_ok (asset_transactions.FindTransactionIdParticipantsAndCurrency parsed) = true.
Proof.
  intros Hparse.
  destruct (asset_transactions.txToLeanTransaction t) as [lean|e] eqn:Hlean.
  2:{ unfold asset_transactions.ParseAssetTransaction in Hparse.
      rewrite Hlean in Hparse. discriminate Hparse. }
  rewrite (ParseAssetTransaction_lean t lean Hlean) in Hparse.
  destruct (txToLeanTransaction_InputType t lean Hlean) as [Hty _].
  unfold asset_transactions.FindTransactionIdParticipantsAndCurrency,
    asset_transactions.findTransactionParticipants,
    asset_transactions.findTransactionCurrency. cbv zeta.
  destruct (decide (types.Transaction.InputType t = 0)) as [H0|H0].
  { apply Ok_inj in Hparse. subst parsed.
    cbn [asset_transactions.TransactionWithAssetPayload.Transaction].
    rewrite !decide_True by congruence. reflexivity. }
  rewrite <- Hty in H0.
  destruct (decide (asset_transactions.LeanTransaction.DestId lean =
                    asset_transactions.SMART_CONTRACT_QUTIL)) as [Hq|Hq].
  { destruct (decide (types.Transaction.InputType t = 1)) as [H1|H1]; [|discriminate Hparse].
    unfold asset_transactions.parseSendMany in Hparse.
    destruct (decide (asset_transactions.LeanTransaction.DestId lean <> types.QutilAddress));
      [discriminate Hparse|].
    destruct (types.SendMany_UnmarshallBinary _) as [sendManyPayload|]; [|discriminate Hparse].
    destruct (types.GetTransfers _) as [transfers|]; [|discriminate Hparse].
    cbv zeta in Hparse. apply Ok_inj in Hparse. subst parsed.
    cbn [asset_transactions.TransactionWithAssetPayload.Transaction
         asset_transactions.TransactionWithAssetPayload.SendManyTransaction].
    rewrite !(decide_False (P := asset_transactions.LeanTransaction.InputType lean = 0))
      by exact H0.
    rewrite !(decide_True (P := asset_transactions.LeanTransaction.DestId lean = _))
      by exact Hq.
    rewrite !(decide_True (P := asset_transactions.LeanTransaction.InputType lean = 1))
      by congruence.
    reflexivity. }
  destruct (decide (asset_transactions.LeanTransaction.DestId lean =
                    asset_transactions.SMART_CONTRACT_QX)) as [Hx|Hx]; [|discriminate Hparse].
  destruct (decide (types.Transaction.InputType t = 2)) as [H2|H2]; [|discriminate Hparse].
  unfold asset_transactions.parseTransferShare in Hparse.
  destruct (qx.UnmarshalBinary _ _) as [input [e|]]; [discriminate Hparse|].
  destruct (qx.GetAssetTransfer input) as [payload|]; [|discriminate Hparse].
  apply Ok_inj in Hparse. subst parsed.
  cbn [asset_transactions.TransactionWithAssetPayload.Transaction
       asset_transactions.TransactionWithAssetPayload.QxTransferAssetPayload].
  rewrite !(decide_False (P := asset_transactions.LeanTransaction.InputType lean = 0))
    by exact H0.
  rewrite !(decide_False (P := asset_transactions.LeanTransaction.DestId lean =
                               asset_transactions.SMART_CONTRACT_QUTIL)) by exact Hq.
  rewrite !(decide_True (P := asset_transactions.LeanTransaction.DestId lean =
                              asset_transactions.SMART_CONTRACT_QX)) by exact Hx.
  rewrite !(decide_True (P := asset_transactions.LeanTransaction.InputType lean = 2))
    by congruence.
  reflexivity.
Qed.

Lemma removeNonTransactionWithAssetPayloadsAndConvert_found
  (transactions : list types.Transaction.t)
  (parsed : list asset_transactions.TransactionWithAssetPayload.t) :
  tx.removeNonTransactionWithAssetPayloadsAndConvert transactions = Ok parsed ->
  Forall (fun p =>
            is_ok (asset_transactions.FindTransactionIdParticipantsAndCurrency p) = true)
         parsed.
Proof.
  revert parsed. induction transactions as [|t rest IH]; intros parsed;
    cbn [tx.removeNonTransactionWithAssetPayloadsAndConvert].
  - intros [= <-]. constructor.
  - destruct (asset_transactions.ParseAssetTransaction t) as [p|e] eqn:Ep.
    + destruct (tx.removeNonTransactionWithAssetPayloadsAndConvert rest) as [ps|];
        [|discriminate]. cbn [rbind]. intros [= <-].
      constructor; [exact (ParseAssetTransaction_found t p Ep)|now apply IH].
    + destruct e; try discriminate. exact (IH parsed).
Qed.

End AssetIndex.

Lemma createIdentityMap_loop_total
  (txs : list asset_transactions.TransactionWithAssetPayload.t)
  (identityMap0 : gmap string (gmap string (list string))) :
  Forall (fun p =>
            is_ok (asset_transactions.FindTransactionIdParticipantsAndCurrency p) = true) txs ->
  exists identityMap, tx.createIdentityMap_loop txs identityMap0 = Ok identityMap.
Proof.
  intros Hall. revert identityMap0. induction Hall as [|t rest Ht _ IH]; intros identityMap0.
  - eexists. reflexivity.
  - cbn [tx.createIdentityMap_loop].
    destruct (asset_transactions.FindTransactionIdParticipantsAndCurrency t);
      [|discriminate Ht]. apply IH.
Qed.

(** X11: [StoreAssetTransactions] does not fail once the transactions
    have been parsed, and what it leaves in the store is the index of the
    tick: under (identity, asset id, tick) the ids of the parsed
    transactions of that identity in that currency, where there is one;
    the entries of pairs without a transaction, the entries of other
    ticks and every other kind of record are as before. *)
Theorem StoreAssetTransactions_index `{types.Connector}
  (tickNumber : Z) (transactions : list types.Transaction.t)
  (parsed : list asset_transactions.TransactionWithAssetPayload.t)
  (s : store.PebbleStore) :
  tx.removeNonTransactionWithAssetPayloadsAndConvert transactions = Ok parsed ->
  exists s',
    tx_store.StoreAssetTransactions tickNumber transactions s = (Ok tt, s') /\
    (forall identity assetId,
       store.qxIdentityAssetTransfers s' !! (identity, assetId, tickNumber) =
       if decide (spec.assetTransactionIds identity assetId parsed = [])
       then store.qxIdentityAssetTransfers s !! (identity, assetId, tickNumber)
       else Some {| protobuff.AssetTransactionsPerTickDB.Transactions :=
                      spec.assetTransactionIds identity assetId parsed |}) /\
    (forall identity assetId tick',
       tick' <> tickNumber ->
       store.qxIdentityAssetTransfers s' !! (identity, assetId, tick') =
       store.qxIdentityAssetTransfers s !! (identity, assetId, tick')) /\
    store.with_qxIdentityAssetTransfers (fun _ => store.qxIdentityAssetTransfers s) s' = s.
Proof.
  intros Hparsed.
  destruct (createIdentityMap_loop_total parsed ∅
              (removeNonTransactionWithAssetPayloadsAndConvert_found _ _ Hparsed))
    as [identityMap Hmap].
  exists (store.PutAssetTransactionsPerTickBatch identityMap tickNumber s).
  split; [|split; [|split]].
  - unfold tx_store.StoreAssetTransactions, mbind, wrapM, lift, modify.
    rewrite Hparsed. cbn [wrapping]. unfold tx.createIdentityMap. rewrite Hmap. reflexivity.
  - intros identity assetId. rewrite PutAssetTransactionsPerTickBatch_lookup.
    rewrite (createIdentityMap_loop_lookup parsed ∅ identityMap identity assetId [] Hmap)
      by now rewrite lookup_empty.
    cbn [app]. case_decide; [reflexivity|]. now rewrite decide_True.
  - intros identity assetId tick' Hne. rewrite PutAssetTransactionsPerTickBatch_lookup.
    destruct (identityMap !! identity ≫= (.!! assetId)); [|reflexivity].
    now rewrite decide_False.
  - apply PutAssetTransactionsPerTickBatch_frame.
Qed.

Lemma StoreAssetTransactions_index_witness :
  let t := examples.transaction examples.alice examples.alice 100 0 [] x01 in
  exists s',
    tx_store.StoreAssetTransactions 7 [t] store.empty = (Ok tt, s') /\
    store.qxIdentityAssetTransfers s' !! (EncodeToString examples.alice, "00", 7) =
      Some {| protobuff.AssetTransactionsPerTickDB.Transactions :=
                [EncodeToString (replicate 32 x01)] |} /\
    store.qxIdentityAssetTransfers s' !! (EncodeToString examples.alice, "00", 6) = None.
Proof.
  intros t.
  destruct (tx.removeNonTransactionWithAssetPayloadsAndConvert [t]) as [parsed|e] eqn:E;
    [|vm_compute in E; discriminate E].
  destruct (StoreAssetTransactions_index 7 [t] parsed store.empty E)
    as (s' & Hrun & Hidx & Hother & _).
  exists s'. split; [exact Hrun|]. split.
  - rewrite Hidx. vm_compute in E. apply Ok_inj in E. subst parsed. reflexivity.
  - rewrite Hother by lia. reflexivity.
Defined.

(** ** Package [store]: reading the transactions of a tick *)

Section TickTransactions.
Context {codec : store.KeyCodec}.

(** How [GetTransaction] fails: the transaction is not there, or its id
    has no key. *)
Lemma GetTransaction_error (s : store.PebbleStore) (txID : string) (e : error) :
  store.GetTransaction s txID = Err e ->
  e = ErrNotFound \/
  exists err, store.tickTxKey txID = Err err /\ e = Wrap err "getting tx key".
Proof.
  unfold store.GetTransaction, store.get.
  destruct (store.tickTxKey txID) as [key|err]; cbn [wrapping rbind].
  - destruct (store.tickTx s !! key); [discriminate|]. intros [= <-]. now left.
  - intros [= <-]. right. eauto.
Qed.

(** Both loops over the transaction ids of a tick read every id, and
    they fail on the same one with the same error. *)
Lemma GetTickTransactions_loop_app (s : store.PebbleStore) (transactionIds : list string)
  (txs : list protobuff.Transaction.t) :
  store.GetTickTransactions_loop s transactionIds txs =
  match store.GetTickTransactions_loop s transactionIds [] with
  | Ok all => Ok (txs ++ all)
  | Err e => Err e
  end.
Proof.
  revert txs. induction transactionIds as [|txID rest IH]; intros txs;
    cbn [store.GetTickTransactions_loop].
  - now rewrite app_nil_r.
  - destruct (store.not_found_or_wrap (store.GetTransaction s txID) _) as [t|e];
      cbn [rbind]; [|reflexivity].
    rewrite (IH (txs ++ [t])), (IH ([] ++ [t])).
    destruct (store.GetTickTransactions_loop s rest []); [|reflexivity].
    now rewrite <- app_assoc.
Qed.

Lemma GetTickTransferTransactions_loop_filter (s : store.PebbleStore)
  (transactionIds : list string) (txs : list protobuff.Transaction.t) :
  store.GetTickTransferTransactions_loop s transactionIds txs =
  match store.GetTickTransactions_loop s transactionIds [] with
  | Ok all => Ok (txs ++ filter (fun tx => 0 < protobuff.Transaction.Amount tx) all)
  | Err e => Err e
  end.
Proof.
  revert txs. induction transactionIds as [|txID rest IH]; intros txs;
    cbn [store.GetTickTransferTransactions_loop store.GetTickTransactions_loop].
  - cbn. now rewrite app_nil_r.
  - destruct (store.not_found_or_wrap (store.GetTransaction s txID) _) as [t|e];
      cbn [rbind]; [|reflexivity].
    rewrite (GetTickTransactions_loop_app s rest ([] ++ [t])).
    destruct (decide (protobuff.Transaction.Amount t <= 0)) as [Hle|Hgt]; rewrite IH;
      destruct (store.GetTickTransactions_loop s rest []) as [all|]; try reflexivity;
      cbn [app]; rewrite filter_cons.
    + destruct (decide (0 < protobuff.Transaction.Amount t)); [lia|reflexivity].
    + destruct (decide (0 < protobuff.Transaction.Amount t)); [|lia].
      now rewrite <- app_assoc.
Qed.

Lemma GetTickTransactions_loop_error (s : store.PebbleStore) (transactionIds : list string)
  (txs : list protobuff.Transaction.t) (e : error) :
  store.GetTickTransactions_loop s transactionIds txs = Err e ->
  e = ErrNotFound \/
  exists txID err,
    txID ∈ transactionIds /\ store.tickTxKey txID = Err err /\
    e = Wrap (Wrap err "getting tx key") "getting tx for id: %s".
Proof.
  revert txs. induction transactionIds as [|txID rest IH]; intros txs;
    cbn [store.GetTickTransactions_loop]; [discriminate|].
  destruct (store.GetTransaction s txID) as [t|e0] eqn:Eget; cbn [store.not_found_or_wrap rbind].
  - intros Hrest. apply IH in Hrest as [->|(txID' & err & Hin & Hkey & ->)]; [now left|].
    right. exists txID', err. split; [now apply list_elem_of_further|]. now split.
  - destruct (Is e0 ErrNotFound) eqn:Eis; cbn [rbind]; intros [= <-]; [now left|].
    apply GetTransaction_error in Eget as [->|(err & Hkey & ->)]; [discriminate Eis|].
    right. exists txID, err. split; [apply list_elem_of_here|]. now split.
Qed.

End TickTransactions.

(** X12: [GetTickTransferTransactions] answers what [GetTickTransactions]
    answers, less the transactions whose amount is not positive: the same
    error when the tick data or one of the listed transactions is missing
    (also one that would have been left out) or when one of the listed ids
    has no key. That error is [ErrNotFound] itself, or the error of the
    key codec wrapped by [GetTransaction] and by the loop. *)
Theorem GetTickTransferTransactions_filter {codec : store.KeyCodec}
  (s : store.PebbleStore) (tickNumber : Z) :
  store.GetTickTransferTransactions s tickNumber =
  match store.GetTickTransactions s tickNumber with
  | Ok txs => Ok (filter (fun tx => 0 < protobuff.Transaction.Amount tx) txs)
  | Err e => Err e
  end /\
  match store.GetTickTransactions s tickNumber with
  | Ok _ => True
  | Err e =>
    e = ErrNotFound \/
    exists td txID err,
      store.GetTickData s tickNumber = Ok td /\
      txID ∈ protobuff.TickData.TransactionIds td /\
      store.tickTxKey txID = Err err /\
      e = Wrap (Wrap err "getting tx key") "getting tx for id: %s"
  end.
Proof.
  unfold store.GetTickTransferTransactions, store.GetTickTransactions, store.GetTickData.
  unfold store.get.
  destruct (store.tickData s !! tickNumber) as [td|]; cbn [store.not_found_or_wrap Is rbind].
  - rewrite GetTickTransferTransactions_loop_filter.
    destruct (store.GetTickTransactions_loop s _ []) as [all|e] eqn:Eloop;
      cbn [app]; split; try reflexivity; try exact I.
    apply GetTickTransactions_loop_error in Eloop as [->|(txID & err & Hin & Hkey & ->)];
      [now left|].
    right. exists td, txID, err. repeat split; assumption.
  - split; [reflexivity|now left].
Qed.

Lemma GetTickTransferTransactions_filter_witness :
  let id := EncodeToString (replicate 32 x01) in
  let s := store.SetTickData 7 (examples.storedTick 7 [id; "t1"]) store.empty in
  let s' := store.SetTickData 7 (examples.storedTick 7 ["t1"; id]) store.empty in
  store.GetTickTransferTransactions (codec := examples.digestKeys) s 7 = Err ErrNotFound /\
  store.GetTickTransferTransactions (codec := examples.digestKeys) s' 7 =
  Err (Wrap (Wrap (InvalidByteError "t") "getting tx key") "getting tx for id: %s").
Proof.
  intros id s s'. split.
  - rewrite (proj1 (GetTickTransferTransactions_filter (codec := examples.digestKeys) s 7)).
    reflexivity.
  - rewrite (proj1 (GetTickTransferTransactions_filter (codec := examples.digestKeys) s' 7)).
    reflexivity.
Defined.

Section StoredTransactions.
Context {codec : store.KeyCodec}.

Lemma SetTransactions_batch_keys (txs : list protobuff.Transaction.t)
  (keys : list (list byte)) :
  Forall2 (fun t key => store.tickTxKey (protobuff.Transaction.TxId t) = Ok key) txs keys ->
  store.SetTransactions_batch txs = Ok (zip keys txs).
Proof.
  induction 1 as [|t key txs keys Hkey _ IH]; cbn [store.SetTransactions_batch zip zip_with];
    [reflexivity|].
  rewrite Hkey, IH. reflexivity.
Qed.

Lemma SetTransactions_batch_refused (stored : list protobuff.Transaction.t)
  (t : protobuff.Transaction.t) (rest : list protobuff.Transaction.t) (err : error) :
  Forall (fun t => is_ok (store.tickTxKey (protobuff.Transaction.TxId t)) = true) stored ->
  store.tickTxKey (protobuff.Transaction.TxId t) = Err err ->
  store.SetTransactions_batch (stored ++ t :: rest) =
  Err (Wrap err "creating tx key for id: %s").
Proof.
  intros Hstored Hkey.
  induction Hstored as [|t0 stored Ht0 _ IH]; cbn [app store.SetTransactions_batch].
  - rewrite Hkey. reflexivity.
  - destruct (store.tickTxKey (protobuff.Transaction.TxId t0)); [|discriminate Ht0].
    cbn [wrapping rbind]. rewrite IH. reflexivity.
Qed.

Lemma batch_lookup_notin (m : gmap (list byte) protobuff.Transaction.t)
  (keys : list (list byte)) (txs : list protobuff.Transaction.t) (key : list byte) :
  key ∉ keys ->
  foldl (fun m '(key, tx) => <[key := tx]> m) m (zip keys txs) !! key = m !! key.
Proof.
  revert m txs. induction keys as [|k keys IH]; intros m txs Hnotin; [reflexivity|].
  destruct txs as [|t txs]; [reflexivity|].
  cbn [zip zip_with foldl]. apply not_elem_of_cons in Hnotin as [Hne Hnotin].
  rewrite IH by exact Hnotin. now apply lookup_insert_ne.
Qed.

Lemma batch_lookup (m : gmap (list byte) protobuff.Transaction.t)
  (keys : list (list byte)) (txs : list protobuff.Transaction.t)
  (key : list byte) (t : protobuff.Transaction.t) :
  NoDup keys -> (key, t) ∈ zip keys txs ->
  foldl (fun m '(key, tx) => <[key := tx]> m) m (zip keys txs) !! key = Some t.
Proof.
  revert m txs. induction keys as [|k keys IH]; intros m txs Hnd Hin.
  - inversion Hin.
  - destruct txs as [|t0 txs]; [inversion Hin|].
    cbn [zip zip_with foldl] in *. apply NoDup_cons in Hnd as [Hk Hnd].
    apply elem_of_cons in Hin as [[= -> ->]|Hin].
    + rewrite batch_lookup_notin by exact Hk. apply lookup_insert_eq.
    + now apply IH.
Qed.

(** When every transaction is read back under its id, the loop returns
    the transactions in the order of the ids. *)
Lemma GetTickTransactions_loop_all (s : store.PebbleStore)
  (txs acc : list protobuff.Transaction.t) :
  Forall (fun t => store.GetTransaction s (protobuff.Transaction.TxId t) = Ok t) txs ->
  store.GetTickTransactions_loop s (protobuff.Transaction.TxId <$> txs) acc = Ok (acc ++ txs).
Proof.
  intros Hall. revert acc.
  induction Hall as [|t txs Ht _ IH]; intros acc;
    cbn [fmap list_fmap store.GetTickTransactions_loop].
  - now rewrite app_nil_r.
  - rewrite Ht. cbn [store.not_found_or_wrap rbind]. rewrite IH.
    now rewrite <- app_assoc.
Qed.

End StoredTransactions.

(** X13: the transactions of a tick can be read back. When the codec has
    a key for the id of every transaction and the keys are pairwise
    different (a later transaction under the key of an earlier one
    replaces it), [SetTransactions] succeeds, and once the tick data that
    lists the ids is stored with [SetTickData], [GetTickTransactions]
    returns the transactions in the listed order, and
    [GetTickTransferTransactions] those with a positive amount. When the
    codec refuses the id of one of the transactions, [SetTransactions]
    returns that error, wrapped, and the store is as it was: the
    transactions before that one are not written either. *)
Theorem GetTickTransactions_SetTransactions {codec : store.KeyCodec}
  (txs : list protobuff.Transaction.t) (tickNumber : Z) (td : protobuff.TickData.t)
  (s : store.PebbleStore) :
  (forall keys : list (list byte),
     Forall2 (fun t key => store.tickTxKey (protobuff.Transaction.TxId t) = Ok key)
             txs keys ->
     NoDup keys ->
     protobuff.TickData.TransactionIds td = protobuff.Transaction.TxId <$> txs ->
     exists s1,
       store.SetTransactions txs s = (Ok tt, s1) /\
       let s' := store.SetTickData tickNumber td s1 in
       store.GetTickTransactions s' tickNumber = Ok txs /\
       store.GetTickTransferTransactions s' tickNumber =
         Ok (filter (fun tx => 0 < protobuff.Transaction.Amount tx) txs)) /\
  (forall stored t rest err,
     txs = stored ++ t :: rest ->
     Forall (fun t => is_ok (store.tickTxKey (protobuff.Transaction.TxId t)) = true)
            stored ->
     store.tickTxKey (protobuff.Transaction.TxId t) = Err err ->
     store.SetTransactions txs s = (Err (Wrap err "creating tx key for id: %s"), s)).
Proof.
  split.
  - intros keys Hkeys Hnd Hids.
    unfold store.SetTransactions. rewrite (SetTransactions_batch_keys txs keys Hkeys).
    eexists. split; [reflexivity|]. cbv zeta.
    set (s1 := store.with_tickTx _ s).
    assert (Hall : Forall (fun t => store.GetTransaction
                                      (store.SetTickData tickNumber td s1)
                                      (protobuff.Transaction.TxId t) = Ok t) txs).
    { apply Forall_forall. intros t Ht.
      apply list_elem_of_lookup in Ht as [i Hi].
      destruct (Forall2_lookup_l _ _ _ _ _ Hkeys Hi) as (key & Hkey & Hk).
      unfold store.GetTransaction. rewrite Hk. cbn [wrapping rbind].
      unfold store.get, store.SetTickData.
      cbn [store.with_tickData store.tickTx]. subst s1. cbn [store.with_tickTx store.tickTx].
      rewrite (batch_lookup _ keys txs key t Hnd); [reflexivity|].
      apply list_elem_of_lookup. exists i. apply lookup_zip_with_Some. eauto. }
    assert (Htd : store.GetTickData (store.SetTickData tickNumber td s1) tickNumber = Ok td).
    { unfold store.GetTickData, store.get, store.SetTickData.
      cbn [store.with_tickData store.tickData]. now rewrite lookup_insert_eq. }
    unfold store.GetTickTransferTransactions, store.GetTickTransactions.
    rewrite Htd. cbn [store.not_found_or_wrap rbind]. rewrite Hids.
    rewrite GetTickTransferTransactions_loop_filter.
    rewrite (GetTickTransactions_loop_all _ txs [] Hall). split; reflexivity.
  - intros stored t rest err -> Hstored Hkey.
    unfold store.SetTransactions.
    now rewrite (SetTransactions_batch_refused stored t rest err Hstored Hkey).
Qed.

Lemma GetTickTransactions_SetTransactions_witness :
  let id1 := EncodeToString (replicate 32 x01) in
  let id2 := EncodeToString (replicate 32 x02) in
  let txs := [examples.storedTransaction id1 7; examples.storedTransaction id2 7] in
  (exists s1,
     store.SetTransactions (codec := examples.digestKeys) txs store.empty = (Ok tt, s1) /\
     let s' := store.SetTickData 7 (examples.storedTick 7 [id1; id2]) s1 in
     store.GetTickTransactions (codec := examples.digestKeys) s' 7 = Ok txs /\
     store.GetTickTransferTransactions (codec := examples.digestKeys) s' 7 =
       Ok (filter (fun tx => 0 < protobuff.Transaction.Amount tx) txs)) /\
  store.SetTransactions (codec := examples.digestKeys)
    (txs ++ [examples.storedTransaction "t1" 7]) store.empty =
  (Err (Wrap (InvalidByteError "t") "creating tx key for id: %s"), store.empty).
Proof.
  intros id1 id2 txs. split.
  - apply (proj1 (GetTickTransactions_SetTransactions (codec := examples.digestKeys)
                    txs 7 (examples.storedTick 7 [id1; id2]) store.empty)
                 [replicate 32 x01; replicate 32 x02]).
    + repeat constructor.
    + repeat constructor; set_solver.
    + reflexivity.
  - apply (proj2 (GetTickTransactions_SetTransactions (codec := examples.digestKeys)
                    (txs ++ [examples.storedTransaction "t1" 7]) 7
                    (examples.storedTick 7 [id1; id2]) store.empty)
                 txs (examples.storedTransaction "t1" 7) []).
    + reflexivity.
    + repeat constructor.
    + reflexivity.
Defined.

(** ** Package [store]: intervals after a gap, and the empty-tick counters *)

Lemma intervals_other_epoch (s : store.PebbleStore) (epoch e : Z)
  (ptie : protobuff.ProcessedTickIntervalsPerEpoch.t) :
  e <> epoch ->
  spec.intervals (store.SetProcessedTickIntervalPerEpoch epoch ptie s) e = spec.intervals s e.
Proof.
  intros Hne. unfold spec.intervals, store.getProcessedTickIntervalsPerEpoch,
    store.SetProcessedTickIntervalPerEpoch.
  cbn [store.with_processedTickIntervals store.processedTickIntervals].
  now rewrite lookup_insert_ne by congruence.
Qed.

(** What [GetLastProcessedTick] reads after [SetLastProcessedTick]: the
    record that was set, unless its bytes are eight, which are read as a
    tick number in the old format. *)
Lemma GetLastProcessedTick_SetLastProcessedTick (s : store.PebbleStore)
  (lpt : protobuff.ProcessedTick.t) :
  let value := protobuff.ProcessedTick.Marshal lpt in
  (length value <> 8%nat ->
   store.GetLastProcessedTick (store.SetLastProcessedTick lpt s) = Ok lpt) /\
  (length value = 8%nat ->
   exists read,
     store.GetLastProcessedTick (store.SetLastProcessedTick lpt s) = Ok read /\
     protobuff.ProcessedTick.TickNumber read = uint32 (le_value value)).
Proof.
  intros value. unfold store.GetLastProcessedTick, store.SetLastProcessedTick.
  cbv zeta.
  cbn [store.SetProcessedTickIntervalPerEpoch store.with_processedTickIntervals
       store.with_lastProcessedTick store.lastProcessedTick store.value_bytes].
  fold value. split; intros Hlen.
  - rewrite decide_False by exact Hlen. reflexivity.
  - rewrite decide_True by exact Hlen. eexists. split; reflexivity.
Qed.

(** X14: a gap in the processed ticks gets an interval of its own when
    [AppendProcessedTickInterval] comes before [SetLastProcessedTick]: the
    intervals of the epoch are the ones before followed by the appended
    one, now ending at the tick; they are still ascending when the
    appended interval starts after the end of the last one and not after
    the tick. The intervals of the other epochs are as before. The tick
    and the epoch are read back as the last processed tick when the bytes
    of the record are not eight; eight bytes are read as a tick number in
    the old format. *)
Theorem AppendProcessedTickInterval_SetLastProcessedTick (s : store.PebbleStore)
  (epoch tick : Z) (pti : protobuff.ProcessedTickInterval.t) :
  let before := spec.intervals s epoch in
  let s' := store.SetLastProcessedTick (spec.processedTick tick epoch)
              (store.AppendProcessedTickInterval epoch pti s) in
  let value := protobuff.ProcessedTick.Marshal (spec.processedTick tick epoch) in
  spec.intervals_ascending before ->
  (forall i, last before = Some i ->
     protobuff.ProcessedTickInterval.LastProcessedTick i
     < protobuff.ProcessedTickInterval.InitialProcessedTick pti) ->
  protobuff.ProcessedTickInterval.InitialProcessedTick pti <= tick ->
  spec.intervals s' epoch =
    before ++ [spec.interval (protobuff.ProcessedTickInterval.InitialProcessedTick pti) tick] /\
  spec.intervals_ascending (spec.intervals s' epoch) /\
  (forall e, e <> epoch -> spec.intervals s' e = spec.intervals s e) /\
  (length value <> 8%nat ->
   store.GetLastProcessedTick s' = Ok (spec.processedTick tick epoch)) /\
  (length value = 8%nat ->
   exists read,
     store.GetLastProcessedTick s' = Ok read /\
     protobuff.ProcessedTick.TickNumber read = uint32 (le_value value)).
Proof.
  intros before s' value Hasc Hgap Hlo.
  assert (E : spec.intervals s' epoch =
              before ++ [spec.interval
                           (protobuff.ProcessedTickInterval.InitialProcessedTick pti) tick]).
  { subst s'.
    pose proof (intervals_SetLastProcessedTick
                  (store.AppendProcessedTickInterval epoch pti s)
                  (spec.processedTick tick epoch)) as Hset.
    cbv zeta in Hset. cbn [spec.processedTick protobuff.ProcessedTick.Epoch
                           protobuff.ProcessedTick.TickNumber] in Hset.
    rewrite Hset, AppendProcessedTickInterval_intervals.
    rewrite decide_False by (rewrite length_app; simpl; lia).
    apply set_last_LastProcessedTick_snoc. }
  split; [exact E|]. split; [|split].
  - rewrite E. apply intervals_ascending_snoc. split; [exact Hasc|]. split; [exact Hgap|].
    exact Hlo.
  - intros e Hne. subst s'. unfold store.SetLastProcessedTick. cbv zeta.
    cbn [spec.processedTick protobuff.ProcessedTick.Epoch protobuff.ProcessedTick.TickNumber].
    rewrite intervals_other_epoch by exact Hne.
    unfold store.AppendProcessedTickInterval.
    change (spec.intervals (store.with_lastProcessedTick ?v ?f ?x) e)
      with (spec.intervals x e).
    now rewrite intervals_other_epoch by exact Hne.
  - exact (GetLastProcessedTick_SetLastProcessedTick _ _).
Qed.

Lemma AppendProcessedTickInterval_SetLastProcessedTick_witness :
  let s := store.SetLastProcessedTick (spec.processedTick 12 100)
             (store.SetLastProcessedTick (spec.processedTick 10 100) store.empty) in
  let s' := store.SetLastProcessedTick (spec.processedTick 21 100)
              (store.AppendProcessedTickInterval 100 (spec.interval 20 20) s) in
  spec.intervals s 100 = [spec.interval 10 12] /\
  spec.intervals s' 100 = [spec.interval 10 12; spec.interval 20 21] /\
  spec.intervals_ascending (spec.intervals s' 100) /\
  store.GetLastProcessedTick s' = Ok (spec.processedTick 21 100).
Proof.
  intros s s'.
  assert (E : spec.intervals s 100 = [spec.interval 10 12]) by reflexivity.
  split; [exact E|].
  destruct (AppendProcessedTickInterval_SetLastProcessedTick s 100 21 (spec.interval 20 20))
    as (H1 & H2 & _ & H3 & _).
  - rewrite E. simpl. lia.
  - rewrite E. intros i [= <-]. simpl. lia.
  - simpl. lia.
  - split; [|split; [exact H2|]].
    + fold s' in H1. rewrite H1, E. reflexivity.
    + apply H3. vm_compute. lia.
Defined.

(** The record of tick 15000000 in epoch 130 has eight bytes, a tag and
    four bytes of varint for the tick, a tag and two bytes for the epoch:
    [GetLastProcessedTick] takes them for the old format and answers with
    the first four of them as a tick number, and with no epoch. *)
Example GetLastProcessedTick_eight_bytes :
  let lpt := spec.processedTick 15000000 130 in
  let s := store.SetLastProcessedTick lpt store.empty in
  protobuff.ProcessedTick.Marshal lpt = [x08; xc0; xc3; x93; x07; x10; x82; x01] /\
  store.GetLastProcessedTick s = Ok (spec.processedTick 2479079432 0) /\
  store.GetLastProcessedTicksPerEpoch s !! 130 = Some 15000000.
Proof. vm_compute. repeat split. Qed.

Lemma GetEmptyTicksForEpochs_loop_lookup (s : store.PebbleStore) (epochs : list Z)
  (emptyTickMap0 : gmap Z Z) :
  exists emptyTickMap,
    store.GetEmptyTicksForEpochs_loop s epochs emptyTickMap0 = Ok emptyTickMap /\
    forall epoch,
      emptyTickMap !! epoch =
      if decide (epoch ∈ epochs)
      then Some (match store.GetEmptyTicksForEpoch s epoch with
                 | Ok emptyTicks => emptyTicks
                 | Err _ => 0
                 end)
      else emptyTickMap0 !! epoch.
Proof.
  revert emptyTickMap0. induction epochs as [|e rest IH]; intros emptyTickMap0;
    cbn [store.GetEmptyTicksForEpochs_loop].
  - exists emptyTickMap0. split; [reflexivity|]. intros epoch.
    rewrite decide_False; [reflexivity|]. intros Hin. inversion Hin.
  - assert (Hstep : exists m1,
      match store.GetEmptyTicksForEpoch s e with
      | Ok emptyTicks =>
        store.GetEmptyTicksForEpochs_loop s rest (<[e := emptyTicks]> emptyTickMap0)
      | Err err =>
        if Is err ErrNotFound
        then store.GetEmptyTicksForEpochs_loop s rest (<[e := 0]> emptyTickMap0)
        else Err (Wrap err "getting empty ticks for epoch %d")
      end =
      store.GetEmptyTicksForEpochs_loop s rest m1 /\
      m1 = <[e := match store.GetEmptyTicksForEpoch s e with
                  | Ok emptyTicks => emptyTicks
                  | Err _ => 0
                  end]> emptyTickMap0).
    { unfold store.GetEmptyTicksForEpoch, store.get.
      destruct (store.emptyTicksPerEpoch s !! e); cbn [rbind Is bool_decide];
        eexists; split; reflexivity. }
    destruct Hstep as (m1 & -> & ->).
    destruct (IH (<[e := match store.GetEmptyTicksForEpoch s e with
                         | Ok emptyTicks => emptyTicks
                         | Err _ => 0
                         end]> emptyTickMap0)) as (m & Hm & Hlookup).
    exists m. split; [exact Hm|]. intros epoch. rewrite Hlookup.
    destruct (decide (epoch ∈ rest)) as [Hin|Hin].
    + rewrite decide_True by now apply list_elem_of_further. reflexivity.
    + destruct (decide (epoch = e)) as [->|Hne].
      * rewrite decide_True by apply list_elem_of_here. apply lookup_insert_eq.
      * rewrite decide_False by (intros [?|?]%elem_of_cons; tauto).
        apply lookup_insert_ne. congruence.
Qed.

(** X15: [GetEmptyTicksForEpochs] does not fail on a missing counter. It
    answers with a map that has exactly the epochs asked for: the counter
    stored for the epoch, and 0 for an epoch that has none, so that an
    epoch whose counter was never written or was deleted cannot be told
    from one without empty ticks. After [SetEmptyTicksForEpoch] the
    counter is the one set, and after [DeleteEmptyTicksKeyForEpoch] it
    is 0. *)
Theorem GetEmptyTicksForEpochs_counts (s : store.PebbleStore) (epochs : list Z) :
  (exists emptyTickMap,
     store.GetEmptyTicksForEpochs s epochs = Ok emptyTickMap /\
     forall epoch,
       emptyTickMap !! epoch =
       if decide (epoch ∈ epochs)
       then Some (match store.emptyTicksPerEpoch s !! epoch with
                  | Some value => le_value (take 4 value)
                  | None => 0
                  end)
       else None) /\
  (forall epoch emptyTicksCount,
     store.GetEmptyTicksForEpochs (store.SetEmptyTicksForEpoch epoch emptyTicksCount s) [epoch]
     = Ok {[ epoch := uint32 emptyTicksCount ]}) /\
  (forall epoch,
     store.GetEmptyTicksForEpochs (store.DeleteEmptyTicksKeyForEpoch epoch s) [epoch]
     = Ok {[ epoch := 0 ]}).
Proof.
  split; [|split].
  - destruct (GetEmptyTicksForEpochs_loop_lookup s epochs ∅) as (m & Hm & Hlookup).
    exists m. split; [exact Hm|]. intros epoch. rewrite Hlookup.
    unfold store.GetEmptyTicksForEpoch, store.get.
    destruct (store.emptyTicksPerEpoch s !! epoch); reflexivity.
  - intros epoch n. unfold store.GetEmptyTicksForEpochs.
    cbn [store.GetEmptyTicksForEpochs_loop].
    unfold store.GetEmptyTicksForEpoch, store.SetEmptyTicksForEpoch, store.get.
    cbn [store.emptyTicksPerEpoch store.with_emptyTicksPerEpoch].
    rewrite lookup_insert_eq. cbn [rbind].
    rewrite take_ge by (unfold PutUint32; rewrite length_le_bytes; lia).
    unfold PutUint32. rewrite le_value_le_bytes. reflexivity.
  - intros epoch. unfold store.GetEmptyTicksForEpochs.
    cbn [store.GetEmptyTicksForEpochs_loop].
    unfold store.GetEmptyTicksForEpoch, store.DeleteEmptyTicksKeyForEpoch, store.get.
    cbn [store.emptyTicksPerEpoch store.with_emptyTicksPerEpoch].
    rewrite lookup_delete_eq. reflexivity.
Qed.

(** ** Package [store]: the pages of the reverse reader *)


Section Reader.
Context {codec : store.KeyCodec}.
Variables (s : store.PebbleStore) (includeFailedTransactions : bool)
  (maxTransactions : Z).



End Reader.



(** ** Package [validator]: what a run of the pipeline writes *)

Section Frames.
Context `{types.Connector} {codec : store.KeyCodec}.

Lemma preserves_mbind {S A A' B} (f : S -> B) (c : M S A) (k : A -> M S A') :
  spec.preserves f c -> (forall a, spec.preserves f (k a)) -> spec.preserves f (mbind c k).
Proof.
  intros Hc Hk s r s'. unfold mbind.
  destruct (c s) as [[a|e] s1] eqn:E; pose proof (Hc _ _ _ E) as H1.
  - intros Hrun. apply Hk in Hrun. congruence.
  - intros [= <- <-]. exact H1.
Qed.

Lemma preserves_wrapM {S A B} (f : S -> B) (c : M S A) (msg : string) :
  spec.preserves f c -> spec.preserves f (wrapM c msg).
Proof.
  intros Hc s r s'. unfold wrapM. destruct (c s) as [r1 s1] eqn:E.
  intros [= _ <-]. exact (Hc _ _ _ E).
Qed.

Lemma preserves_lift {S A B} (f : S -> B) (r : result A) : spec.preserves f (lift r).
Proof. intros s r' s' [= _ <-]. reflexivity. Qed.

Lemma preserves_modify {S B} (f : S -> B) (g : S -> S) :
  (forall s, f (g s) = f s) -> spec.preserves f (modify g).
Proof. intros Hg s r s' [= _ <-]. apply Hg. Qed.

Lemma preserves_check {B} (f : validator.World -> B) (e : option error) :
  spec.preserves f (validator.check e).
Proof. intros w r w'. destruct e; intros [= _ <-]; reflexivity. Qed.

Lemma preserves_log {B} (f : store.PebbleStore -> B) (e : validator.step) :
  spec.preserves (fun w => f (validator.db w)) (validator.log e).
Proof. intros w r w' [= _ <-]. reflexivity. Qed.

Lemma preserves_on_db {A B} (f : store.PebbleStore -> B) (c : M store.PebbleStore A) :
  spec.preserves f c -> spec.preserves (fun w => f (validator.db w)) (validator.on_db c).
Proof.
  intros Hc w r w'. unfold validator.on_db.
  destruct (c (validator.db w)) as [r1 s1] eqn:E. intros [= _ <-]. exact (Hc _ _ _ E).
Qed.

Lemma preserves_resolveComputors {B} (f : store.PebbleStore -> B)
  (qu : validator.Connection) (epoch : Z) :
  spec.preserves (fun w => f (validator.db w)) (validator.resolveComputors qu epoch).
Proof.
  intros w r w'. unfold validator.resolveComputors, validator.computors_Get.
  destruct (store.GetComputors (validator.db w) epoch) as [comps|err].
  - intros [= _ <-]. reflexivity.
  - destruct (decide (Cause err <> ErrNotFound)).
    + intros [= _ <-]. reflexivity.
    + apply (preserves_mbind (fun w => f (validator.db w))).
      * apply preserves_log.
      * intros _. apply preserves_wrapM, preserves_lift.
Qed.

Lemma preserves_SetTransactions {B} (f : store.PebbleStore -> B)
  (txs : list protobuff.Transaction.t) :
  (forall g s, f (store.with_tickTx g s) = f s) ->
  spec.preserves f (store.SetTransactions txs).
Proof.
  intros Hf s r s'. unfold store.SetTransactions.
  destruct (store.SetTransactions_batch txs); intros [= _ <-]; [apply Hf|reflexivity].
Qed.

(** [tx.Store] writes transactions and the two indexes, nothing else. *)
Lemma Store_bookkeeping (tickNumber : Z) (transactions : list types.Transaction.t) :
  spec.preserves (fun s => (spec.bookkeeping s, store.computors s, store.quorumData s,
                       store.tickData s))
            (tx_store.Store tickNumber transactions).
Proof.
  unfold tx_store.Store.
  apply preserves_mbind; [|intros _; apply preserves_mbind; [|intros _]];
    apply preserves_wrapM.
  - unfold tx_store.storeTickTransactions.
    apply preserves_mbind; [apply preserves_wrapM, preserves_lift|].
    intros protoModel. apply preserves_wrapM, preserves_SetTransactions. reflexivity.
  - unfold tx_store.storeTransferTransactions.
    apply preserves_mbind; [apply preserves_wrapM, preserves_lift|]. intros ps.
    apply preserves_mbind; [apply preserves_wrapM, preserves_lift|]. intros m.
    apply preserves_modify. intros s.
    destruct (PutTransferTransactionsPerTick_fold_any tickNumber m s "" 0) as [Hframe _].
    cbv zeta in Hframe.
    match type of Hframe with
    | store.with_identityTransferTxs ?g ?s' = _ =>
      transitivity ((fun s => (spec.bookkeeping s, store.computors s, store.quorumData s,
                               store.tickData s)) (store.with_identityTransferTxs g s'));
        [reflexivity|now rewrite Hframe]
    end.
  - unfold tx_store.StoreAssetTransactions.
    apply preserves_mbind; [apply preserves_wrapM, preserves_lift|]. intros ps.
    apply preserves_mbind; [apply preserves_wrapM, preserves_lift|]. intros m.
    apply preserves_modify. reflexivity.
Qed.

End Frames.

Section Writes.
Context `{types.Connector} {codec : store.KeyCodec}.
Variables (qu : validator.Connection) (ck : validator.Checks).

Lemma ValidateTick_bookkeeping (tickNumber : Z) :
  spec.preserves (fun w => spec.bookkeeping (validator.db w))
                 (validator.ValidateTick qu ck tickNumber).
Proof.
  unfold validator.ValidateTick.
  apply preserves_mbind; [apply (preserves_log spec.bookkeeping)|intros _].
  apply preserves_mbind; [apply preserves_wrapM, preserves_lift|intros [|vote0 votes]].
  { intros w r w' [= _ <-]. reflexivity. }
  apply preserves_mbind; [apply (preserves_resolveComputors spec.bookkeeping)|intros comps].
  apply preserves_mbind; [apply (preserves_log spec.bookkeeping)|intros _].
  apply preserves_mbind; [apply preserves_wrapM, preserves_check|intros _].
  apply preserves_mbind; [apply (preserves_log spec.bookkeeping)|intros _].
  apply preserves_mbind.
  { apply preserves_wrapM. apply (preserves_on_db spec.bookkeeping).
    apply preserves_modify. reflexivity. }
  intros _.
  apply preserves_mbind; [apply (preserves_log spec.bookkeeping)|intros _].
  apply preserves_mbind; [apply preserves_wrapM, preserves_check|intros _].
  destruct (decide (store.QuorumTickData.TxDigest vote0 = replicate 32 x00)).
  { intros w r w' [= _ <-]. reflexivity. }
  apply preserves_mbind; [apply (preserves_log spec.bookkeeping)|intros _].
  apply preserves_mbind; [apply preserves_wrapM, preserves_lift|intros tickData].
  apply preserves_mbind; [apply (preserves_log spec.bookkeeping)|intros _].
  apply preserves_mbind; [apply preserves_wrapM, preserves_check|intros _].
  apply preserves_mbind; [apply (preserves_log spec.bookkeeping)|intros _].
  apply preserves_mbind; [apply preserves_wrapM, preserves_lift|intros transactions].
  apply preserves_mbind; [apply (preserves_log spec.bookkeeping)|intros _].
  apply preserves_mbind; [apply preserves_wrapM, preserves_lift|intros validTxs].
  apply preserves_mbind; [apply (preserves_log spec.bookkeeping)|intros _].
  apply preserves_mbind.
  { apply preserves_wrapM. apply (preserves_on_db spec.bookkeeping).
    apply preserves_modify. reflexivity. }
  intros _.
  apply preserves_mbind; [apply (preserves_log spec.bookkeeping)|intros _].
  apply preserves_mbind.
  { apply preserves_wrapM. unfold validator.tick_Store.
    apply preserves_mbind; [apply preserves_lift|intros ids].
    apply (preserves_on_db spec.bookkeeping). apply preserves_modify. reflexivity. }
  intros _.
  apply preserves_mbind; [apply (preserves_log spec.bookkeeping)|intros _].
  apply preserves_wrapM. apply (preserves_on_db spec.bookkeeping).
  intros s r s' Hrun. apply Store_bookkeeping in Hrun. congruence.
Qed.

End Writes.

Lemma mbind_inv {S A B} (c : M S A) (k : A -> M S B) (s : S) (r : result B) (s' : S) :
  mbind c k s = (r, s') ->
  (exists e, c s = (Err e, s') /\ r = Err e) \/
  (exists a s1, c s = (Ok a, s1) /\ k a s1 = (r, s')).
Proof.
  unfold mbind. destruct (c s) as [[a|e] s1].
  - intros Hk. right. eauto.
  - intros [= <- <-]. left. eauto.
Qed.

Lemma wrapM_inv {S A} (c : M S A) (msg : string) (s : S) (r : result A) (s' : S) :
  wrapM c msg s = (r, s') ->
  exists r0, c s = (r0, s') /\ r = wrapping r0 msg.
Proof.
  unfold wrapM. destruct (c s) as [r0 s1]. intros [= <- <-]. eauto.
Qed.

Lemma wrapM_lift_inv {S A} (x : result A) (msg : string) (s : S) (r : result A) (s' : S) :
  wrapM (lift x) msg s = (r, s') -> s' = s /\ r = wrapping x msg.
Proof. unfold wrapM, lift. intros [= <- <-]. split; reflexivity. Qed.

Lemma wrapM_check_inv (e : option error) (msg : string) (w : validator.World)
  (r : result unit) (w' : validator.World) :
  wrapM (validator.check e) msg w = (r, w') ->
  w' = w /\ (forall a, r = Ok a -> e = None).
Proof.
  unfold wrapM, validator.check. destruct e; cbn; intros [= <- <-];
    (split; [reflexivity|]); intros a; [discriminate|reflexivity].
Qed.

Lemma log_inv (e : validator.step) (w : validator.World) (r : result unit)
  (w' : validator.World) :
  validator.log e w = (r, w') -> validator.db w' = validator.db w /\ r = Ok tt.
Proof. intros [= <- <-]. split; reflexivity. Qed.

Section Safety.
Context `{types.Connector} {codec : store.KeyCodec}.
Variables (qu : validator.Connection) (ck : validator.Checks).

Lemma only_computors_differ_refl (s : store.PebbleStore) : spec.only_computors_differ s s.
Proof. unfold spec.only_computors_differ. now destruct s. Qed.

Lemma only_computors_differ_SetComputors (s : store.PebbleStore) (epoch : Z)
  (comps : store.Computors.t) :
  spec.only_computors_differ s (store.SetComputors epoch comps s).
Proof. unfold spec.only_computors_differ. now destruct s. Qed.

Lemma resolveComputors_inv (epoch : Z) (w : validator.World)
  (r : result store.Computors.t) (w' : validator.World) :
  validator.resolveComputors qu epoch w = (r, w') ->
  validator.db w' = validator.db w /\
  forall comps, r = Ok comps -> spec.computors_at_hand qu (validator.db w) epoch comps.
Proof.
  unfold validator.resolveComputors, validator.computors_Get, spec.computors_at_hand.
  destruct (store.GetComputors (validator.db w) epoch) as [comps|err] eqn:Eget.
  - intros [= <- <-]. split; [reflexivity|]. intros c [= <-]. now left.
  - destruct (decide (Cause err <> ErrNotFound)) as [Hc|Hc].
    + intros [= <- <-]. split; [reflexivity|]. discriminate.
    + unfold mbind, validator.log, modify, wrapM, lift.
      intros [= <- <-]. split; [reflexivity|]. intros c Hc'.
      right. split.
      * unfold store.GetComputors, store.get in Eget.
        destruct (store.computors (validator.db w) !! epoch); [discriminate|].
        congruence.
      * destruct (validator.GetComputors qu); [|discriminate]. exact Hc'.
Qed.

Lemma ValidateTick_only_computors (tickNumber : Z) (w : validator.World)
  (r : result unit) (w' : validator.World) :
  validator.ValidateTick qu ck tickNumber w = (r, w') ->
  spec.only_computors_differ (validator.db w) (validator.db w') \/
  spec.all_validated qu ck tickNumber (validator.db w).
Proof.
  unfold validator.ValidateTick. intros Hrun.
  apply mbind_inv in Hrun as [(e & Hc & _)|(a & w1 & Hc & Hrun)];
    apply log_inv in Hc as [Hdb1 Ha]; [discriminate Ha|clear Ha].
  apply mbind_inv in Hrun as [(e & Hc & _)|(quorumVotes & w2 & Hc & Hrun)];
    apply wrapM_lift_inv in Hc as [-> Hvotes].
  { left. rewrite Hdb1. apply only_computors_differ_refl. }
  destruct quorumVotes as [|vote0 votes].
  { injection Hrun as _ <-. left. rewrite Hdb1. apply only_computors_differ_refl. }
  assert (Evotes : validator.GetQuorumVotes qu (uint32 tickNumber) = Ok (vote0 :: votes)).
  { destruct (validator.GetQuorumVotes qu (uint32 tickNumber)); [|discriminate Hvotes].
    exact (eq_sym Hvotes). }
  clear Hvotes.
  apply mbind_inv in Hrun as [(e & Hc & _)|(comps & w3 & Hc & Hrun)];
    apply resolveComputors_inv in Hc as [Hdb3 Hcomps].
  { left. rewrite Hdb3, Hdb1. apply only_computors_differ_refl. }
  specialize (Hcomps comps eq_refl). rewrite Hdb1 in Hcomps.
  apply mbind_inv in Hrun as [(e & Hc & _)|(a2 & w4 & Hc & Hrun)];
    apply log_inv in Hc as [Hdb4 Ha]; [discriminate Ha|clear Ha].
  apply mbind_inv in Hrun as [(e & Hc & _)|(a3 & w5 & Hc & Hrun)];
    apply wrapM_check_inv in Hc as [-> Hvalid].
  { left. rewrite Hdb4, Hdb3, Hdb1. apply only_computors_differ_refl. }
  specialize (Hvalid _ eq_refl).
  apply mbind_inv in Hrun as [(e & Hc & _)|(a4 & w6 & Hc & Hrun)];
    apply log_inv in Hc as [Hdb6 Ha]; [discriminate Ha|clear Ha].
  apply mbind_inv in Hrun as [(e & Hc & _)|(a5 & w7 & Hc & Hrun)].
  { unfold wrapM, validator.computors_Store, validator.on_db, modify in Hc.
    discriminate Hc. }
  assert (Hdb7 : validator.db w7 =
                 store.SetComputors (store.Computors.Epoch comps) comps (validator.db w)).
  { unfold wrapM, validator.computors_Store, validator.on_db, modify in Hc.
    injection Hc as _ <-. cbn [validator.db]. now rewrite Hdb6, Hdb4, Hdb3, Hdb1. }
  clear Hc.
  apply mbind_inv in Hrun as [(e & Hc & _)|(a6 & w8 & Hc & Hrun)];
    apply log_inv in Hc as [Hdb8 Ha]; [discriminate Ha|clear Ha].
  apply mbind_inv in Hrun as [(e & Hc & _)|(a7 & w9 & Hc & Hrun)];
    apply wrapM_check_inv in Hc as [-> Hquorum].
  { left. rewrite Hdb8, Hdb7. apply only_computors_differ_SetComputors. }
  specialize (Hquorum _ eq_refl).
  destruct (decide (store.QuorumTickData.TxDigest vote0 = replicate 32 x00)) as [Hz|Hnz].
  { injection Hrun as _ <-. left. rewrite Hdb8, Hdb7.
    apply only_computors_differ_SetComputors. }
  apply mbind_inv in Hrun as [(e & Hc & _)|(a8 & w10 & Hc & Hrun)];
    apply log_inv in Hc as [Hdb10 Ha]; [discriminate Ha|clear Ha].
  apply mbind_inv in Hrun as [(e & Hc & _)|(tickData & w11 & Hc & Hrun)];
    apply wrapM_lift_inv in Hc as [-> Htd].
  { left. rewrite Hdb10, Hdb8, Hdb7. apply only_computors_differ_SetComputors. }
  assert (Etd : validator.GetTickData qu (uint32 tickNumber) = Ok tickData).
  { destruct (validator.GetTickData qu (uint32 tickNumber)); [|discriminate Htd].
    exact (eq_sym Htd). }
  clear Htd.
  apply mbind_inv in Hrun as [(e & Hc & _)|(a9 & w12 & Hc & Hrun)];
    apply log_inv in Hc as [Hdb12 Ha]; [discriminate Ha|clear Ha].
  apply mbind_inv in Hrun as [(e & Hc & _)|(a10 & w13 & Hc & Hrun)];
    apply wrapM_check_inv in Hc as [-> Htick].
  { left. rewrite Hdb12, Hdb10, Hdb8, Hdb7. apply only_computors_differ_SetComputors. }
  specialize (Htick _ eq_refl).
  apply mbind_inv in Hrun as [(e & Hc & _)|(a11 & w14 & Hc & Hrun)];
    apply log_inv in Hc as [Hdb14 Ha]; [discriminate Ha|clear Ha].
  apply mbind_inv in Hrun as [(e & Hc & _)|(transactions & w15 & Hc & Hrun)];
    apply wrapM_lift_inv in Hc as [-> Htxs].
  { left. rewrite Hdb14, Hdb12, Hdb10, Hdb8, Hdb7.
    apply only_computors_differ_SetComputors. }
  assert (Etxs : validator.GetTickTransactions qu (uint32 tickNumber) = Ok transactions).
  { destruct (validator.GetTickTransactions qu (uint32 tickNumber)); [|discriminate Htxs].
    exact (eq_sym Htxs). }
  clear Htxs.
  apply mbind_inv in Hrun as [(e & Hc & _)|(a12 & w16 & Hc & Hrun)];
    apply log_inv in Hc as [Hdb16 Ha]; [discriminate Ha|clear Ha].
  apply mbind_inv in Hrun as [(e & Hc & _)|(validTxs & w17 & Hc & Hrun)];
    apply wrapM_lift_inv in Hc as [-> Hval].
  { left. rewrite Hdb16, Hdb14, Hdb12, Hdb10, Hdb8, Hdb7.
    apply only_computors_differ_SetComputors. }
  right. exists vote0, votes, comps, tickData, transactions, validTxs.
  repeat (split; [assumption|]).
  destruct (tx.Validate _ transactions tickData); [|discriminate Hval].
  exact (eq_sym Hval).
Qed.

End Safety.

(** X17: [ValidateTick] never writes the records of the archiver's
    progress. However a run ends, with success or with an error at any
    step, the last processed tick, the last tick per epoch, the processed
    tick intervals, the empty-tick counters and the transaction statuses
    are what they were, so that [GetLastProcessedTick] answers as
    before: advancing them is left to the caller. *)
Theorem ValidateTick_leaves_bookkeeping `{types.Connector} {codec : store.KeyCodec}
  (qu : validator.Connection) (ck : validator.Checks) (tickNumber : Z)
  (w : validator.World) (r : result unit) (w' : validator.World) :
  validator.ValidateTick qu ck tickNumber w = (r, w') ->
  store.lastProcessedTick (validator.db w') = store.lastProcessedTick (validator.db w) /\
  store.lastProcessedTickPerEpoch (validator.db w') =
    store.lastProcessedTickPerEpoch (validator.db w) /\
  store.processedTickIntervals (validator.db w') =
    store.processedTickIntervals (validator.db w) /\
  store.emptyTicksPerEpoch (validator.db w') = store.emptyTicksPerEpoch (validator.db w) /\
  store.txStatus (validator.db w') = store.txStatus (validator.db w) /\
  store.GetLastProcessedTick (validator.db w') = store.GetLastProcessedTick (validator.db w).
Proof.
  intros Hrun. apply ValidateTick_bookkeeping in Hrun.
  unfold spec.bookkeeping in Hrun. injection Hrun as H1 H2 H3 H4 H5.
  repeat (split; [assumption|]).
  unfold store.GetLastProcessedTick, store.GetLastProcessedTicksPerEpoch.
  now rewrite H1, H2.
Qed.

Lemma ValidateTick_leaves_bookkeeping_witness :
  let t := examples.transaction examples.alice examples.bob 100 0 [] x01 in
  let qu :=
    {| validator.GetQuorumVotes tickNumber :=
         Ok (replicate 451 (examples.vote (replicate 32 x07)));
       validator.GetComputors := Ok examples.computors100;
       validator.GetTickData tickNumber := Ok (examples.tickBody [examples.alice]);
       validator.GetTickTransactions tickNumber := Ok [t] |} in
  let w := {| validator.db := examples.history ["a"] []; validator.trace := [] |} in
  let run := validator.ValidateTick qu examples.checks 8 w in
  store.GetLastProcessedTick (validator.db run.2) = Ok (spec.processedTick 7 100) /\
  store.txStatus (validator.db run.2) = store.txStatus (examples.history ["a"] []).
Proof.
  intros t qu w run.
  destruct (ValidateTick_leaves_bookkeeping qu examples.checks 8 w run.1 run.2)
    as (_ & _ & _ & _ & Hstatus & Hlast).
  - apply surjective_pairing.
  - split; [|exact Hstatus]. rewrite Hlast. reflexivity.
Defined.

(** X18: nothing of a tick is stored before everything is validated. In
    a run of [ValidateTick], however it ends, either the store differs
    from the one before in the computor lists at most, or the quorum
    votes have been fetched, the computors, the quorum, the tick data and
    the transactions have passed their validations and the votes carry a
    transaction digest: the votes, the tick data, the transactions and
    the two indexes are written only then. *)
Theorem ValidateTick_stores_after_validation `{types.Connector} {codec : store.KeyCodec}
  (qu : validator.Connection) (ck : validator.Checks) (tickNumber : Z)
  (w : validator.World) (r : result unit) (w' : validator.World) :
  validator.ValidateTick qu ck tickNumber w = (r, w') ->
  spec.only_computors_differ (validator.db w) (validator.db w') \/
  spec.all_validated qu ck tickNumber (validator.db w).
Proof. apply ValidateTick_only_computors. Qed.

Lemma ValidateTick_stores_after_validation_witness :
  let t := examples.transaction examples.alice examples.bob 100 0 [] x01 in
  let qu :=
    {| validator.GetQuorumVotes tickNumber :=
         Ok (replicate 451 (examples.vote (replicate 32 x07)));
       validator.GetComputors := Ok examples.computors100;
       validator.GetTickData tickNumber := Ok (examples.tickBody [examples.alice]);
       validator.GetTickTransactions tickNumber := Ok [t; t] |} in
  let run := validator.ValidateTick qu examples.checks 7 examples.freshWorld in
  is_ok run.1 = false /\
  spec.only_computors_differ store.empty (validator.db run.2).
Proof.
  intros t qu run. split; [reflexivity|].
  destruct (ValidateTick_stores_after_validation qu examples.checks 7 examples.freshWorld
              run.1 run.2) as [Honly|Hall].
  - apply surjective_pairing.
  - exact Honly.
  - destruct Hall as (vote0 & votes & comps & tickData & transactions & validTxs &
                      _ & _ & _ & _ & _ & Htd & _ & Htxs & Hval).
    cbn in Htd, Htxs. injection Htd as <-. injection Htxs as <-.
    vm_compute in Hval. discriminate Hval.
Defined.

(** ** Package [migrations]: the version bookkeeping of the migrations *)

Section Migrations.
Implicit Types (ms : list migrations.MigrationFunc) (ps : store.Migrated).

Lemma uint32_small (z : Z) : 0 <= z < 2 ^ 32 -> uint32 z = z.
Proof. intros Hz. unfold uint32. now apply Z.mod_small. Qed.

(** With a version that is not below the number of migrations, the loop
    runs none. *)
Lemma PerformMigrations_loop_skip ms (idx version : Z) ps :
  0 <= idx -> idx + Z.of_nat (length ms) < 2 ^ 32 ->
  idx + Z.of_nat (length ms) <= version ->
  migrations.PerformMigrations_loop ms idx version ps = (Ok tt, ps).
Proof.
  revert idx. induction ms as [|migrate rest IH]; intros idx Hidx Hlen Hv;
    cbn [migrations.PerformMigrations_loop length] in *.
  - reflexivity.
  - cbv zeta. rewrite uint32_small by lia. rewrite decide_False by lia.
    apply IH; lia.
Qed.

(** The version the loop leaves: the index of the last migration when it
    ran any to the end, and the index before the failing one when it
    stopped there. *)
Lemma PerformMigrations_loop_version ms (idx version : Z) ps (r : result unit) ps' :
  0 <= idx -> idx + Z.of_nat (length ms) < 2 ^ 32 ->
  Forall (spec.preserves store.migrationVersion) ms ->
  migrations.PerformMigrations_loop ms idx version ps = (r, ps') ->
  match r with
  | Ok _ =>
    store.migrationVersion ps' =
    if decide (ms <> [] /\ version < idx + Z.of_nat (length ms))
    then Some (PutUint32 (idx + Z.of_nat (length ms)))
    else store.migrationVersion ps
  | Err e =>
    exists k e0,
      idx < k <= idx + Z.of_nat (length ms) /\ version < k /\
      e = Wrap e0 "error running migration %d" /\
      store.migrationVersion ps' =
      if decide (idx < k - 1 /\ version < k - 1)
      then Some (PutUint32 (k - 1))
      else store.migrationVersion ps
  end.
Proof.
  intros Hidx Hlen Hpres. revert idx ps Hidx Hlen.
  induction Hpres as [|migrate rest Hm _ IH]; intros idx ps Hidx Hlen;
    cbn [migrations.PerformMigrations_loop length] in *.
  - intros [= <- <-]. rewrite decide_False by tauto. reflexivity.
  - cbv zeta. rewrite uint32_small by lia.
    destruct (decide (idx + 1 > version)) as [Hrun|Hskip].
    + unfold mbind at 1, wrapM at 1.
      destruct (migrate ps) as [[[]|e0] ps1] eqn:Emig; cbn [wrapping];
        pose proof (Hm _ _ _ Emig) as Hv1.
      2:{ intros Heq. injection Heq as <- <-. exists (idx + 1), e0.
          split; [lia|]. split; [lia|]. split; [reflexivity|].
          rewrite decide_False by lia. exact Hv1. }
      unfold mbind at 1, wrapM at 1, modify at 1. cbn [wrapping].
      intros Hloop. apply IH in Hloop; [|lia|lia].
      cbn [store.SetMigrationVersion store.migrationVersion] in Hloop.
      destruct r as [a|e].
      * rewrite Hloop.
        rewrite (decide_True (P := migrate :: rest <> [] /\ _))
          by (split; [discriminate|lia]).
        destruct rest as [|m' rest'].
        -- rewrite decide_False by tauto. cbn [length]. do 2 f_equal; lia.
        -- rewrite decide_True by (split; [discriminate|cbn [length] in *; lia]).
           do 2 f_equal; cbn [length]; lia.
      * destruct Hloop as (k & e1 & Hk & Hvk & -> & Hver).
        exists k, e1. split; [lia|]. split; [lia|]. split; [reflexivity|].
        rewrite Hver. rewrite (decide_True (P := idx < k - 1 /\ version < k - 1)) by lia.
        case_decide; [reflexivity|]. do 2 f_equal; lia.
    + intros Hloop. apply IH in Hloop; [|lia|lia].
      destruct r as [a|e].
      * rewrite Hloop. destruct rest as [|m' rest'].
        -- rewrite decide_False by tauto.
           rewrite decide_False by (cbn [length]; intros [_ ?]; lia). reflexivity.
        -- destruct (decide (version < idx + 1 + Z.of_nat (length (m' :: rest')))).
           ++ rewrite decide_True by (split; [discriminate|assumption]).
              assert (Hx : migrate :: m' :: rest' <> [] /\
                           version < idx + Z.of_nat (S (length (m' :: rest')))).
              { split; [discriminate|]. cbn [length] in *. lia. }
              rewrite decide_True by exact Hx.
              do 2 f_equal; cbn [length]; lia.
           ++ rewrite decide_False by tauto.
              assert (Hx : ~ (migrate :: m' :: rest' <> [] /\
                              version < idx + Z.of_nat (S (length (m' :: rest'))))).
              { intros [_ Hx]. cbn [length] in *. lia. }
              rewrite decide_False by exact Hx. reflexivity.
      * destruct Hloop as (k & e1 & Hk & Hvk & -> & Hver).
        exists k, e1. split; [lia|]. split; [lia|]. split; [reflexivity|].
        rewrite Hver. destruct (decide (idx + 1 < k - 1 /\ version < k - 1)).
        -- rewrite decide_True by lia. reflexivity.
        -- rewrite decide_False by lia. reflexivity.
Qed.

End Migrations.

Lemma currentVersion_inv (ps : store.Migrated) (version : Z) (ps' : store.Migrated) :
  migrations.currentVersion ps = (Ok version, ps') ->
  ps' = ps /\ 0 <= version.
Proof.
  unfold migrations.currentVersion, store.GetMigrationVersion.
  destruct (store.migrationVersion ps) as [value|].
  - destruct (decide (length value < 4)%nat).
    + rewrite decide_True by discriminate. discriminate.
    + intros [= <- <-]. split; [reflexivity|]. apply le_value_range.
  - rewrite decide_False by (intros Hne; now apply Hne). intros [= <- <-]. split; [reflexivity|lia].
Qed.

Lemma currentVersion_same (ps ps' : store.Migrated) :
  store.migrationVersion ps' = store.migrationVersion ps ->
  (migrations.currentVersion ps').1 = (migrations.currentVersion ps).1.
Proof.
  unfold migrations.currentVersion, store.GetMigrationVersion. intros ->.
  destruct (store.migrationVersion ps) as [value|]; [|reflexivity].
  destruct (decide (length value < 4)%nat); reflexivity.
Qed.

Lemma currentVersion_state (ps : store.Migrated) :
  (migrations.currentVersion ps).2 = ps.
Proof.
  unfold migrations.currentVersion.
  destruct (store.GetMigrationVersion ps) as [v|err]; [reflexivity|].
  destruct (decide (err <> ErrNotFound)); reflexivity.
Qed.

Lemma currentVersion_PutUint32 (ps : store.Migrated) (n : Z) :
  store.migrationVersion ps = Some (PutUint32 n) -> 0 <= n < 2 ^ 32 ->
  migrations.currentVersion ps = (Ok n, ps).
Proof.
  intros Hv Hn. unfold migrations.currentVersion, store.GetMigrationVersion. rewrite Hv.
  rewrite decide_False by (unfold PutUint32; rewrite length_le_bytes; lia).
  rewrite take_ge by (unfold PutUint32; rewrite length_le_bytes; lia).
  unfold PutUint32. rewrite le_value_le_bytes.
  change (2 ^ (8 * Z.of_nat 4)) with (2 ^ 32). now rewrite Z.mod_small.
Qed.

(** X19: [PerformMigrations] resumes where it stopped and does nothing
    twice. For migrations that leave the version record alone: after a
    successful run the stored version is at least the number of
    migrations, and a second run executes none of them (it only clears
    the quorum data again); when a migration fails, its index [k] is
    above the version the run started from and the version left behind
    is [k - 1] or the starting one, whichever is larger, so that the next
    run starts with the migration that failed; and a version record of
    fewer than four bytes makes the run fail before any migration, after
    the quorum data has been cleared. *)
Theorem PerformMigrations_resumes (ms : list migrations.MigrationFunc)
  (ps : store.Migrated) (r : result unit) (ps' : store.Migrated) :
  Z.of_nat (length ms) < 2 ^ 32 ->
  Forall (spec.preserves store.migrationVersion) ms ->
  migrations.PerformMigrations ms ps = (r, ps') ->
  (r = Ok tt ->
   exists version,
     migrations.currentVersion ps' = (Ok version, ps') /\
     Z.of_nat (length ms) <= version /\
     migrations.PerformMigrations ms ps' =
       (Ok tt, store.on_base (store.ClearKeysByPrefix store.QuorumData) ps')) /\
  (forall version e,
     migrations.currentVersion ps = (Ok version, ps) -> r = Err e ->
     exists k e0,
       version < k <= Z.of_nat (length ms) /\
       e = Wrap e0 "error running migration %d" /\
       migrations.currentVersion ps' = (Ok (Z.max version (k - 1)), ps')) /\
  (forall value,
     store.migrationVersion ps = Some value -> (length value < 4)%nat ->
     r = Err (Wrap (New "migration version data is corrupted")
                   "unable to fetch current migration version") /\
     ps' = store.on_base (store.ClearKeysByPrefix store.QuorumData) ps).
Proof.
  intros Hlen Hpres Hrun.
  unfold migrations.PerformMigrations in Hrun.
  unfold mbind at 1, wrapM at 1, migrations.DeleteUnusedDataMigration in Hrun.
  cbn [migrations.DeleteQuorumData wrapM modify wrapping] in Hrun.
  set (ps0 := store.on_base (store.ClearKeysByPrefix store.QuorumData) ps) in *.
  assert (Hv0 : store.migrationVersion ps0 = store.migrationVersion ps) by reflexivity.
  unfold mbind at 1 in Hrun.
  pose proof (currentVersion_same ps ps0 Hv0) as Hsame.
  pose proof (currentVersion_state ps0) as Hstate0.
  destruct (migrations.currentVersion ps0) as [[version|err] ps1] eqn:Ecur;
    cbn [fst snd] in Hsame, Hstate0; subst ps1.
  - pose proof (currentVersion_inv _ _ _ Ecur) as [_ Hpos].
    pose proof (PerformMigrations_loop_version ms 0 version ps0 r ps'
                  ltac:(lia) ltac:(lia) Hpres Hrun) as Hver.
    split; [|split].
    + intros ->.
      assert (Hcur' : exists version',
                migrations.currentVersion ps' = (Ok version', ps') /\
                Z.of_nat (length ms) <= version').
      { destruct (decide (ms <> [] /\ version < 0 + Z.of_nat (length ms))) as [[_ Hlt]|Hno].
        - exists (Z.of_nat (length ms)). split; [|lia].
          apply currentVersion_PutUint32; [|lia].
          rewrite Hver. f_equal.
        - exists version. split.
          + pose proof (currentVersion_same ps0 ps' Hver) as H1.
            pose proof (currentVersion_state ps') as H2.
            rewrite Ecur in H1. cbn [fst] in H1.
            destruct (migrations.currentVersion ps') as [r1 s1]. cbn [fst snd] in H1, H2.
            now subst.
          + destruct ms as [|m ms']; [cbn; lia|].
            assert (~ version < 0 + Z.of_nat (length (m :: ms')))
              by (intros Hlt; apply Hno; split; [discriminate|exact Hlt]).
            lia. }
      destruct Hcur' as (version' & Hcur' & Hge).
      exists version'. split; [exact Hcur'|]. split; [exact Hge|].
      unfold migrations.PerformMigrations.
      unfold mbind at 1, wrapM at 1, migrations.DeleteUnusedDataMigration.
      cbn [migrations.DeleteQuorumData wrapM modify wrapping].
      unfold mbind at 1.
      set (ps0' := store.on_base (store.ClearKeysByPrefix store.QuorumData) ps').
      assert (Hcur0 : migrations.currentVersion ps0' = (Ok version', ps0')).
      { pose proof (currentVersion_same ps' ps0' eq_refl) as H1.
        pose proof (currentVersion_state ps0') as H2.
        rewrite Hcur' in H1. cbn [fst] in H1.
        destruct (migrations.currentVersion ps0') as [r1 s1]. cbn [fst snd] in H1, H2.
        now subst. }
      rewrite Hcur0. apply PerformMigrations_loop_skip; lia.
    + intros version1 e Hcur1 ->.
      rewrite Hcur1 in Hsame. cbn [fst] in Hsame. injection Hsame as <-.
      destruct Hver as (k & e0 & Hk & Hvk & -> & Hver).
      exists k, e0. split; [lia|]. split; [reflexivity|].
      destruct (decide (0 < k - 1 /\ version < k - 1)) as [Hlt|Hno].
      * rewrite Z.max_r by lia. apply currentVersion_PutUint32; [exact Hver|lia].
      * rewrite Z.max_l by lia.
        pose proof (currentVersion_same ps0 ps' Hver) as H1.
        pose proof (currentVersion_state ps') as H2.
        rewrite Ecur in H1. cbn [fst] in H1.
        destruct (migrations.currentVersion ps') as [r1 s1]. cbn [fst snd] in H1, H2.
        now subst.
    + intros value Hvalue Hshort. exfalso.
      unfold migrations.currentVersion, store.GetMigrationVersion in Hsame.
      rewrite Hvalue in Hsame. rewrite decide_True in Hsame by exact Hshort.
      rewrite decide_True in Hsame by discriminate. discriminate Hsame.
  - injection Hrun as <- <-.
    split; [discriminate|]. split.
    + intros version e Hcur. rewrite Hcur in Hsame. discriminate Hsame.
    + intros value Hvalue Hshort. split; [|reflexivity].
      unfold migrations.currentVersion, store.GetMigrationVersion in Hsame.
      rewrite Hvalue in Hsame. rewrite decide_True in Hsame by exact Hshort.
      rewrite decide_True in Hsame by discriminate. cbn [fst] in Hsame. congruence.
Qed.

Lemma PerformMigrations_resumes_witness :
  let ms : list migrations.MigrationFunc :=
    [modify (store.on_base (store.SetEmptyTicksForEpoch 100 0)); mret tt] in
  let ps := {| store.base := store.empty; store.migrationVersion := None |} in
  let run := migrations.PerformMigrations ms ps in
  run.1 = Ok tt /\
  store.GetMigrationVersion run.2 = Ok 2 /\
  migrations.PerformMigrations ms run.2 =
    (Ok tt, store.on_base (store.ClearKeysByPrefix store.QuorumData) run.2).
Proof.
  intros ms ps run.
  assert (Hok : run.1 = Ok tt) by reflexivity.
  destruct (PerformMigrations_resumes ms ps run.1 run.2) as [Hagain _].
  - cbn. lia.
  - repeat constructor; intros s r s' [= _ <-]; reflexivity.
  - apply surjective_pairing.
  - destruct (Hagain Hok) as (version & _ & _ & Hrerun).
    split; [exact Hok|]. split; [reflexivity|exact Hrerun].
Defined.

(** ** Package [validator/tx]: what is enough for a list of transactions to pass *)

Lemma validateTransactions_loop_complete `{types.Connector}
  (sigVerifierFunc : list byte -> list byte -> list byte -> option error)
  (digestsMap : gset string) (transactions validTransactions : list types.Transaction.t) :
  Forall (fun t => spec.validated sigVerifierFunc digestsMap t /\
                   is_ok (types.ID t) = true) transactions ->
  tx.validateTransactions_loop sigVerifierFunc digestsMap transactions validTransactions
    = Ok (validTransactions ++ transactions).
Proof.
  intros Hall. revert validTransactions.
  induction Hall as [|t rest [(digest & bytes & cd & Hd & Hin & Hm & Hk & Hs) Hid] _ IH];
    intros acc; cbn [tx.validateTransactions_loop].
  - now rewrite app_nil_r.
  - rewrite Hd. cbn [wrapping rbind].
    destruct (types.ID t) as [txId|]; [|discriminate Hid]. cbn [wrapping rbind]. cbv zeta.
    rewrite decide_True by exact Hin.
    rewrite Hm. cbn [wrapping rbind]. rewrite Hk. cbn [wrapping rbind]. rewrite Hs.
    rewrite IH. now rewrite <- app_assoc.
Qed.

(** X20: [Validate] judges each transaction by itself and the list by its
    length. When the tick body has a non-zero digest, a list passes as
    soon as it has as many transactions as there are distinct non-zero
    digests and each of them has an id, a hash among the digests and a
    good signature; that the transactions differ from each other, or that
    every digest has its transaction, is not asked for. *)
Theorem Validate_complete `{types.Connector}
  (sigVerifierFunc : list byte -> list byte -> list byte -> option error)
  (transactions : list types.Transaction.t) (tickData : types.TickData.t) :
  let digestsMap := tx.createTxDigestsMap tickData in
  size digestsMap <> 0%nat ->
  length transactions = size digestsMap ->
  Forall (fun t => spec.validated sigVerifierFunc digestsMap t /\
                   is_ok (types.ID t) = true) transactions ->
  tx.Validate sigVerifierFunc transactions tickData = Ok transactions.
Proof.
  intros digestsMap Hnz Hlen Hall. unfold tx.Validate. cbv zeta. fold digestsMap.
  rewrite decide_False by exact Hnz.
  rewrite decide_False by (intros Hne; now apply Hne).
  unfold tx.validateTransactions.
  rewrite (validateTransactions_loop_complete _ _ _ [] Hall). reflexivity.
Qed.

Lemma Validate_complete_witness :
  let t := examples.transaction examples.alice examples.bob 100 0 [] x01 in
  let tickData := examples.tickBody [examples.alice; examples.bob] in
  size (tx.createTxDigestsMap tickData) = 2%nat /\
  tx.Validate examples.acceptSignature [t; t] tickData = Ok [t; t].
Proof.
  intros t tickData.
  assert (Hsize : size (tx.createTxDigestsMap tickData) = 2%nat) by reflexivity.
  split; [exact Hsize|].
  apply (Validate_complete examples.acceptSignature [t; t] tickData).
  - rewrite Hsize. discriminate.
  - rewrite Hsize. reflexivity.
  - assert (Ht : spec.validated examples.acceptSignature (tx.createTxDigestsMap tickData) t /\
                 is_ok (types.ID t) = true).
    { split; [|reflexivity].
      exists examples.alice, (types.Transaction.SourcePublicKey t ++
                              types.Transaction.DestinationPublicKey t ++
                              types.Transaction.Input t ++ types.Transaction.Signature t),
             examples.alice.
      split; [reflexivity|]. split; [|repeat split].
      apply (bool_decide_unpack _). vm_compute. exact I. }
    repeat constructor; apply Ht.
Defined.

(** ** Package [validator/tx]: from the stored form back to the transactions *)

Lemma fromHexChar_hexdigit (n : Z) : 0 <= n < 16 -> fromHexChar (hexdigit n) = Some n.
Proof.
  intros Hn. rewrite <- (Z2Nat.id n) at 2 by lia.
  unfold hexdigit. assert (Hlt : (Z.to_nat n < 16)%nat) by lia.
  generalize dependent (Z.to_nat n). clear. intros m Hlt.
  do 16 (destruct m as [|m]; [reflexivity|]). lia.
Qed.

Lemma nibbles_lor (v : byte) :
  byte_of_Z (Z.lor (Z.shiftl (Z.shiftr (Z_of_byte v) 4) 4) (Z.land (Z_of_byte v) 15)) = v.
Proof.
  rewrite <- (byte_of_Z_of_byte v) at 3. f_equal.
  apply Z.bits_inj'. intros i Hi.
  rewrite Z.lor_spec. change 15 with (Z.ones 4).
  destruct (Z.lt_ge_cases i 4) as [Hlt|Hge].
  - rewrite Z.shiftl_spec_low by lia. rewrite Z.land_spec, Z.ones_spec_low by lia.
    now rewrite andb_true_r.
  - rewrite Z.shiftl_spec by lia. rewrite Z.shiftr_spec by lia.
    rewrite Z.land_spec, Z.ones_spec_high by lia.
    rewrite andb_false_r, orb_false_r. f_equal. lia.
Qed.

(** Decoding undoes encoding. *)
Lemma DecodeString_EncodeToString (bs : list byte) :
  DecodeString (EncodeToString bs) = Ok bs.
Proof.
  induction bs as [|v rest IH]; [reflexivity|].
  cbn [EncodeToString DecodeString].
  destruct (byte_nibbles v) as (Hhi & Hlo & _).
  rewrite !fromHexChar_hexdigit by assumption.
  rewrite IH, nibbles_lor. reflexivity.
Qed.

(** One transaction: [protoToTx] undoes [txToProto]. *)
Lemma protoToTx_txToProto `{types.Connector}
  (ToPubKey : string -> bool -> result (list byte))
  (t : types.Transaction.t) (protoTx : protobuff.Transaction.t) :
  tx.txToProto t = Ok protoTx ->
  ToPubKey (protobuff.Transaction.SourceId protoTx) false =
    Ok (types.Transaction.SourcePublicKey t) ->
  ToPubKey (protobuff.Transaction.DestId protoTx) false =
    Ok (types.Transaction.DestinationPublicKey t) ->
  length (types.Transaction.Signature t) = 64%nat ->
  0 <= types.Transaction.InputType t < 2 ^ 16 ->
  0 <= types.Transaction.InputSize t < 2 ^ 16 ->
  tx.protoToTx ToPubKey protoTx = Ok t.
Proof.
  intros Hproto Hsrc Hdst Hsig Hty Hsz.
  unfold tx.protoToTx, tx.identityToPublicKeyBytes. rewrite Hsrc, Hdst. cbn [rbind].
  unfold tx.txToProto in Hproto.
  destruct (types.Digest t) as [digest|]; [|discriminate Hproto]. cbn [wrapping rbind] in Hproto.
  destruct (types.FromPubKey digest true); [|discriminate Hproto].
  cbn [wrapping rbind] in Hproto.
  destruct (types.FromPubKey (types.Transaction.SourcePublicKey t) false);
    [|discriminate Hproto]. cbn [wrapping rbind] in Hproto.
  destruct (types.FromPubKey (types.Transaction.DestinationPublicKey t) false);
    [|discriminate Hproto]. cbn [wrapping rbind] in Hproto.
  injection Hproto as <-.
  cbn [protobuff.Transaction.InputHex protobuff.Transaction.SignatureHex
       protobuff.Transaction.Amount protobuff.Transaction.TickNumber
       protobuff.Transaction.InputType protobuff.Transaction.InputSize].
  rewrite !DecodeString_EncodeToString. cbn [wrapping rbind].
  rewrite decide_False by (intros Hne; now apply Hne).
  unfold uint16. rewrite !Z.mod_small by assumption. now destruct t.
Qed.

Lemma txToProto_ids `{types.Connector} (t : types.Transaction.t)
  (protoTx : protobuff.Transaction.t) :
  tx.txToProto t = Ok protoTx ->
  types.FromPubKey (types.Transaction.SourcePublicKey t) false =
    Ok (protobuff.Transaction.SourceId protoTx) /\
  types.FromPubKey (types.Transaction.DestinationPublicKey t) false =
    Ok (protobuff.Transaction.DestId protoTx).
Proof.
  unfold tx.txToProto.
  destruct (types.Digest t) as [digest|]; [|discriminate]. cbn [wrapping rbind].
  destruct (types.FromPubKey digest true); [|discriminate]. cbn [wrapping rbind].
  destruct (types.FromPubKey (types.Transaction.SourcePublicKey t) false);
    [|discriminate]. cbn [wrapping rbind].
  destruct (types.FromPubKey (types.Transaction.DestinationPublicKey t) false);
    [|discriminate]. cbn [wrapping rbind].
  intros [= <-]. split; reflexivity.
Qed.

(** X21: the stored form of the transactions of a tick can be turned back
    into the transactions. [ProtoToQubic] undoes [qubicToProto] for
    transactions as the node delivers them (a signature of 64 bytes,
    input type and input size within 16 bits), provided that the node
    library's [ToPubKey] gives back the source and destination keys from
    the identities that [FromPubKey] made of them: the hexadecimal texts
    of input and signature decode to the bytes they came from. *)
Theorem ProtoToQubic_qubicToProto `{types.Connector}
  (ToPubKey : string -> bool -> result (list byte))
  (txs : list types.Transaction.t) (protoTxs : list protobuff.Transaction.t) :
  tx.qubicToProto txs = Ok protoTxs ->
  Forall (fun t =>
            length (types.Transaction.Signature t) = 64%nat /\
            0 <= types.Transaction.InputType t < 2 ^ 16 /\
            0 <= types.Transaction.InputSize t < 2 ^ 16 /\
            (forall id, types.FromPubKey (types.Transaction.SourcePublicKey t) false = Ok id ->
                        ToPubKey id false = Ok (types.Transaction.SourcePublicKey t)) /\
            (forall id, types.FromPubKey (types.Transaction.DestinationPublicKey t) false
                        = Ok id ->
                        ToPubKey id false = Ok (types.Transaction.DestinationPublicKey t)))
         txs ->
  tx.ProtoToQubic ToPubKey protoTxs = Ok txs.
Proof.
  intros Hproto Hall. revert protoTxs Hproto.
  induction Hall as [|t rest (Hsig & Hty & Hsz & Hsrc & Hdst) _ IH]; intros protoTxs;
    cbn [tx.qubicToProto].
  - intros [= <-]. reflexivity.
  - destruct (tx.txToProto t) as [p|] eqn:Ep; [|discriminate]. cbn [wrapping rbind].
    destruct (tx.qubicToProto rest) as [ps|]; [|discriminate]. cbn [rbind].
    intros [= <-]. cbn [tx.ProtoToQubic].
    destruct (txToProto_ids t p Ep) as [Es Ed].
    rewrite (protoToTx_txToProto ToPubKey t p Ep (Hsrc _ Es) (Hdst _ Ed) Hsig Hty Hsz).
    cbn [wrapping rbind]. rewrite (IH ps eq_refl). reflexivity.
Qed.

Lemma ProtoToQubic_qubicToProto_witness :
  let txs := [examples.transaction examples.alice examples.bob 100 0 [] x01;
              examples.transaction examples.bob examples.alice 0 2 examples.rawPayload x02] in
  exists protoTxs,
    tx.qubicToProto txs = Ok protoTxs /\
    tx.ProtoToQubic (fun id _ => DecodeString id) protoTxs = Ok txs.
Proof.
  intros txs.
  destruct (tx.qubicToProto txs) as [protoTxs|e] eqn:E; [|vm_compute in E; discriminate E].
  exists protoTxs. split; [reflexivity|].
  apply (ProtoToQubic_qubicToProto _ txs protoTxs E).
  repeat constructor; try (cbn; lia);
    intros id Hid; vm_compute in Hid; injection Hid as <-; vm_compute; reflexivity.
Defined.

(** ** Package [store]: the transfer transactions of an identity *)

Lemma transferTransactionsInRange_elem (s : store.PebbleStore) (identity : string)
  (startTick endTick : Z) (e : string * Z * protobuff.TransferTransactionsPerTick.t) :
  e ∈ store.transferTransactionsInRange s identity startTick endTick <->
  store.identityTransferTxs s !! e.1 = Some e.2 /\
  e.1.1 = identity /\ startTick <= e.1.2 < uint64 (endTick + 1).
Proof.
  unfold store.transferTransactionsInRange. rewrite merge_sort_Permutation.
  rewrite list_elem_of_filter. destruct e as [k rec]. rewrite elem_of_map_to_list.
  cbn [fst snd]. tauto.
Qed.

Lemma transferTransactionsInRange_NoDup (s : store.PebbleStore) (identity : string)
  (startTick endTick : Z) :
  NoDup (store.transferTransactionsInRange s identity startTick endTick).*1.
Proof.
  unfold store.transferTransactionsInRange. rewrite merge_sort_Permutation.
  apply (sublist_NoDup _ (map_to_list (store.identityTransferTxs s)).*1);
    [apply (NoDup_fst_map_to_list (store.identityTransferTxs s))
    |apply fmap_sublist, sublist_filter].
Qed.

#[local] Instance earlier_tick_total : Total store.earlier_tick.
Proof. intros a b. unfold store.earlier_tick. lia. Qed.

(** X22: what [GetTransferTransactions] returns for an identity. It
    does not fail; it returns the records stored for the identity at the
    ticks from the start tick up to, but not including, the end tick plus
    one taken as a [uint64], each once and in the order of the ticks. So
    a query for one tick returns the record of that tick alone, and a
    query up to the largest tick, 18446744073709551615, returns nothing,
    the upper bound having wrapped around to 0. *)
Theorem GetTransferTransactions_range (s : store.PebbleStore) (identity : string) :
  (forall startTick endTick,
     let entries := store.transferTransactionsInRange s identity startTick endTick in
     store.GetTransferTransactions s identity startTick endTick = Ok (snd <$> entries) /\
     (forall e, e ∈ entries <->
        store.identityTransferTxs s !! e.1 = Some e.2 /\
        e.1.1 = identity /\ startTick <= e.1.2 < uint64 (endTick + 1)) /\
     NoDup entries.*1 /\ Sorted store.earlier_tick entries) /\
  (forall tick record,
     0 <= tick < 2 ^ 64 - 1 ->
     store.identityTransferTxs s !! (identity, tick) = Some record ->
     store.GetTransferTransactions s identity tick tick = Ok [record]) /\
  (forall startTick,
     0 <= startTick ->
     store.GetTransferTransactions s identity startTick (2 ^ 64 - 1) = Ok []).
Proof.
  split; [|split].
  - intros startTick endTick entries. split; [reflexivity|]. split; [|split].
    + intros e. apply transferTransactionsInRange_elem.
    + apply transferTransactionsInRange_NoDup.
    + apply (Sorted_merge_sort store.earlier_tick _).
  - intros tick record Htick Hrecord. unfold store.GetTransferTransactions.
    assert (E : store.transferTransactionsInRange s identity tick tick =
                [((identity, tick), record)]).
    { apply Permutation_singleton_r. apply NoDup_Permutation.
      - eapply NoDup_fmap_1. apply transferTransactionsInRange_NoDup.
      - apply NoDup_singleton.
      - intros [[id t] rec]. rewrite transferTransactionsInRange_elem, list_elem_of_singleton.
        cbn [fst snd]. unfold uint64. rewrite Z.mod_small by lia. split.
        + intros (Hl & -> & Ht). assert (t = tick) by lia. subst t. congruence.
        + intros [= -> -> ->]. split; [exact Hrecord|]. split; [reflexivity|lia]. }
    rewrite E. reflexivity.
  - intros startTick Hstart. unfold store.GetTransferTransactions.
    destruct (store.transferTransactionsInRange s identity startTick (2 ^ 64 - 1))
      as [|e rest] eqn:E; [reflexivity|].
    assert (Hin : e ∈ store.transferTransactionsInRange s identity startTick (2 ^ 64 - 1))
      by (rewrite E; apply list_elem_of_here).
    apply transferTransactionsInRange_elem in Hin as (_ & _ & Hr).
    change (uint64 (2 ^ 64 - 1 + 1)) with 0 in Hr. lia.
Qed.

Lemma GetTransferTransactions_range_witness :
  let t := examples.transaction examples.alice examples.bob 100 0 [] x01 in
  let s := (tx_store.storeTransferTransactions 7 [t] store.empty).2 in
  exists record,
    store.GetTransferTransactions s (EncodeToString examples.alice) 7 7 = Ok [record] /\
    protobuff.TransferTransactionsPerTick.Identity record = EncodeToString examples.alice /\
    store.GetTransferTransactions s (EncodeToString examples.alice) 0 (2 ^ 64 - 1) = Ok [].
Proof.
  intros t s.
  destruct (GetTransferTransactions_range s (EncodeToString examples.alice))
    as (_ & Hsingle & Hlast).
  destruct (store.identityTransferTxs s !! (EncodeToString examples.alice, 7))
    as [record|] eqn:E; [|vm_compute in E; discriminate E].
  exists record. split; [apply Hsingle; [lia|exact E]|].
  split; [|apply Hlast; lia].
  vm_compute in E. injection E as <-. reflexivity.
Defined.

(** ** Package [store]: the last processed tick per epoch *)

Lemma NoDup_fst_omap {K A B} (f : K * A -> option (K * B)) (l : list (K * A)) :
  (forall x y, f x = Some y -> y.1 = x.1) ->
  NoDup l.*1 -> NoDup (omap f l).*1.
Proof.
  intros Hf. induction l as [|x l IH]; cbn [omap list_omap fmap list_fmap];
    [constructor|].
  intros Hnd. apply NoDup_cons in Hnd as [Hx Hnd].
  destruct (f x) as [y|] eqn:Ey; [|now apply IH].
  cbn [fmap list_fmap]. apply NoDup_cons. split; [|now apply IH].
  intros Hin. apply Hx. apply list_elem_of_fmap in Hin as (z & Hz & Hin).
  apply list_elem_of_omap in Hin as (x' & Hx' & Ez).
  apply list_elem_of_fmap. exists x'. split; [|exact Hx'].
  rewrite <- (Hf _ _ Ey), Hz. now apply Hf.
Qed.

(** The last tick of an epoch, as [GetLastProcessedTicksPerEpoch] reads it. *)
Lemma GetLastProcessedTicksPerEpoch_lookup (s : store.PebbleStore) (epoch : Z) :
  store.GetLastProcessedTicksPerEpoch s !! epoch =
  if decide (0 <= epoch <= 825766964)
  then (fun value => le_value (take 4 value)) <$> store.lastProcessedTickPerEpoch s !! epoch
  else None.
Proof.
  unfold store.GetLastProcessedTicksPerEpoch.
  set (f := fun '(epochNumber, value) =>
              if decide (0 <= epochNumber <= 825766964)
              then Some (epochNumber, le_value (take 4 value)) else None).
  assert (Hnd : NoDup (omap f (map_to_list (store.lastProcessedTickPerEpoch s))).*1).
  { apply NoDup_fst_omap; [|apply NoDup_fst_map_to_list].
    intros [e v] y. unfold f. case_decide; [|discriminate]. now intros [= <-]. }
  apply option_eq. intros tick.
  rewrite <- (elem_of_list_to_map _ _ _ Hnd), list_elem_of_omap. split.
  - intros ([e v] & Hin & Hf). apply elem_of_map_to_list in Hin.
    unfold f in Hf. case_decide; [|discriminate Hf]. injection Hf as -> <-.
    rewrite decide_True by assumption. now rewrite Hin.
  - case_decide; [|discriminate].
    destruct (store.lastProcessedTickPerEpoch s !! epoch) as [v|] eqn:E; [|discriminate].
    intros [= <-]. exists (epoch, v). split; [now apply elem_of_map_to_list|].
    unfold f. now rewrite decide_True.
Qed.

(** X23: the last processed tick per epoch, and the last processed tick
    in its old format. [SetLastProcessedTick] makes the tick (as a
    [uint32]) the last one of its epoch in the map that
    [GetLastProcessedTicksPerEpoch] returns, leaving the other epochs as
    they are; an epoch beyond the upper bound of that function's iterator
    is not in the map. A last processed tick stored in the old
    eight-byte format is read as that tick together with an epoch whose
    last tick it is, and with epoch 0 when no epoch has that tick. *)
Theorem last_processed_tick_per_epoch (s : store.PebbleStore) :
  (forall lpt epoch,
     let s' := store.SetLastProcessedTick lpt s in
     store.GetLastProcessedTicksPerEpoch s' !! epoch =
     if decide (epoch = protobuff.ProcessedTick.Epoch lpt)
     then (if decide (0 <= epoch <= 825766964)
           then Some (uint32 (protobuff.ProcessedTick.TickNumber lpt)) else None)
     else store.GetLastProcessedTicksPerEpoch s !! epoch) /\
  (forall tickNumber,
     store.lastProcessedTick s = Some (store.Legacy tickNumber) ->
     exists lpt,
       store.GetLastProcessedTick s = Ok lpt /\
       protobuff.ProcessedTick.TickNumber lpt = uint32 (le_value (PutUint64 tickNumber)) /\
       (store.GetLastProcessedTicksPerEpoch s !! protobuff.ProcessedTick.Epoch lpt =
          Some (protobuff.ProcessedTick.TickNumber lpt) \/
        (protobuff.ProcessedTick.Epoch lpt = 0 /\
         forall epoch, store.GetLastProcessedTicksPerEpoch s !! epoch <>
                       Some (protobuff.ProcessedTick.TickNumber lpt)))).
Proof.
  split.
  - intros lpt epoch s'. rewrite !GetLastProcessedTicksPerEpoch_lookup.
    subst s'. unfold store.SetLastProcessedTick. cbv zeta.
    cbn [store.SetProcessedTickIntervalPerEpoch store.with_processedTickIntervals
         store.with_lastProcessedTick store.lastProcessedTickPerEpoch].
    destruct (decide (epoch = protobuff.ProcessedTick.Epoch lpt)) as [->|Hne].
    + rewrite lookup_insert_eq. case_decide; [|reflexivity].
      cbn [fmap option_fmap option_map]. f_equal.
      rewrite take_ge by (unfold PutUint32; rewrite length_le_bytes; lia).
      unfold PutUint32. now rewrite le_value_le_bytes.
    + now rewrite lookup_insert_ne by congruence.
  - intros tickNumber Hlegacy. unfold store.GetLastProcessedTick. rewrite Hlegacy.
    cbv zeta. cbn [store.value_bytes].
    rewrite decide_True by (unfold PutUint64; apply length_le_bytes).
    eexists. split; [reflexivity|].
    cbn [protobuff.ProcessedTick.TickNumber protobuff.ProcessedTick.Epoch].
    split; [reflexivity|].
    destruct (List.find _ _) as [[e t]|] eqn:Efind.
    + left. apply find_some in Efind as [Hin Ht].
      apply bool_decide_eq_true_1 in Ht. subst t.
      apply list_elem_of_In in Hin. now apply elem_of_map_to_list in Hin.
    + right. split; [reflexivity|]. intros epoch Hsome.
      apply elem_of_map_to_list, list_elem_of_In in Hsome.
      apply (find_none _ _ Efind) in Hsome. cbn in Hsome.
      now apply bool_decide_eq_false_1 in Hsome.
Qed.

Lemma last_processed_tick_per_epoch_witness :
  let s := store.with_lastProcessedTick (Some (store.Legacy 7))
             (insert 100 (PutUint32 7)) store.empty in
  store.GetLastProcessedTick s = Ok (spec.processedTick 7 100) /\
  store.GetLastProcessedTicksPerEpoch
    (store.SetLastProcessedTick (spec.processedTick 8 100) s) !! 100 = Some 8.
Proof.
  intros s. destruct (last_processed_tick_per_epoch s) as [Hset Hlegacy].
  split.
  - destruct (Hlegacy 7 eq_refl) as (lpt & Hread & _ & _).
    rewrite Hread. vm_compute in Hread. injection Hread as <-. reflexivity.
  - rewrite (Hset (spec.processedTick 8 100) 100). reflexivity.
Defined.

(** ** Package [validator/tx]: storing the transactions of a tick as a whole *)

Section StoreTotal.
Context `{types.Connector} {codec : store.KeyCodec}.

Lemma qubicToProto_ok (transactions : list types.Transaction.t)
  (protoModel : list protobuff.Transaction.t) :
  tx.qubicToProto transactions = Ok protoModel ->
  Forall (fun t => is_ok (tx.txToProto t) = true) transactions.
Proof.
  revert protoModel. induction transactions as [|t rest IH]; intros protoModel;
    cbn [tx.qubicToProto]; [constructor|].
  destruct (tx.txToProto t) as [p|] eqn:Ep; [|discriminate]. cbn [wrapping rbind].
  destruct (tx.qubicToProto rest) as [ps|]; [|discriminate]. intros _.
  constructor; [now rewrite Ep|]. now apply (IH ps).
Qed.

Lemma removeNonTransferTransactionsAndConvert_total
  (transactions : list types.Transaction.t) :
  Forall (fun t => is_ok (tx.txToProto t) = true) transactions ->
  is_ok (tx.removeNonTransferTransactionsAndConvert transactions) = true.
Proof.
  induction 1 as [|t rest Ht _ IH]; cbn [tx.removeNonTransferTransactionsAndConvert];
    [reflexivity|].
  case_decide; [exact IH|].
  destruct (tx.txToProto t); [|discriminate Ht]. cbn [wrapping rbind].
  destruct (tx.removeNonTransferTransactionsAndConvert rest); [reflexivity|discriminate IH].
Qed.

(** A transaction that has a stored form has a lean form: the two are
    made by the same calls of the node library. *)
Lemma txToProto_txToLeanTransaction (t : types.Transaction.t) :
  is_ok (tx.txToProto t) = true -> is_ok (asset_transactions.txToLeanTransaction t) = true.
Proof.
  unfold tx.txToProto, asset_transactions.txToLeanTransaction.
  destruct (types.Digest t) as [digest|]; [|discriminate]. cbn [wrapping rbind].
  destruct (types.FromPubKey digest true); [|discriminate]. cbn [wrapping rbind].
  destruct (types.FromPubKey (types.Transaction.SourcePublicKey t) false);
    [|discriminate]. cbn [wrapping rbind].
  destruct (types.FromPubKey (types.Transaction.DestinationPublicKey t) false);
    [|discriminate]. reflexivity.
Qed.

Lemma parseSendMany_error (t : types.Transaction.t)
  (lean : asset_transactions.LeanTransaction.t) (e : error) :
  asset_transactions.parseSendMany t lean = Err e -> e = ErrNotValidTransaction.
Proof.
  unfold asset_transactions.parseSendMany.
  destruct (decide (asset_transactions.LeanTransaction.DestId lean <> types.QutilAddress));
    [now intros [= <-]|].
  destruct (types.SendMany_UnmarshallBinary _); [|now intros [= <-]].
  destruct (types.GetTransfers _); [discriminate|now intros [= <-]].
Qed.

Lemma ParseAssetTransaction_error (t : types.Transaction.t) (e : error) :
  is_ok (asset_transactions.txToLeanTransaction t) = true ->
  asset_transactions.ParseAssetTransaction t = Err e -> e = ErrNotValidTransaction.
Proof.
  destruct (asset_transactions.txToLeanTransaction t) as [lean|] eqn:Hlean; [|discriminate].
  intros _. rewrite (ParseAssetTransaction_lean t lean Hlean).
  repeat case_decide; try discriminate; try (now intros [= <-]).
  - apply parseSendMany_error.
  - apply parseTransferShare_error.
Qed.

Lemma removeNonTransactionWithAssetPayloadsAndConvert_total
  (transactions : list types.Transaction.t) :
  Forall (fun t => is_ok (tx.txToProto t) = true) transactions ->
  is_ok (tx.removeNonTransactionWithAssetPayloadsAndConvert transactions) = true.
Proof.
  induction 1 as [|t rest Ht _ IH];
    cbn [tx.removeNonTransactionWithAssetPayloadsAndConvert]; [reflexivity|].
  apply txToProto_txToLeanTransaction in Ht.
  destruct (asset_transactions.ParseAssetTransaction t) as [p|e] eqn:Ep.
  - destruct (tx.removeNonTransactionWithAssetPayloadsAndConvert rest);
      [reflexivity|discriminate IH].
  - apply (ParseAssetTransaction_error t e Ht) in Ep as ->. exact IH.
Qed.

(** X24: [tx.Store] stores all or nothing. Its three steps convert the
    transactions with the same calls of the node library, so the first
    step decides: when [qubicToProto] converts the transactions and
    [SetTransactions] writes them, the transfers and the asset
    transactions of the tick are stored as well and [Store] succeeds; when
    [qubicToProto] fails, or [SetTransactions] does because the key codec
    refuses an id, [Store] returns that error, wrapped twice, and the
    store is untouched. No run leaves the transactions of a tick without
    their indexes. *)
Theorem Store_all_or_nothing (tickNumber : Z) (transactions : list types.Transaction.t)
  (s : store.PebbleStore) :
  match tx.qubicToProto transactions with
  | Ok protoModel =>
    match store.SetTransactions protoModel s with
    | (Ok _, s1) =>
      exists s',
        tx_store.Store tickNumber transactions s = (Ok tt, s') /\
        store.tickTx s' = store.tickTx s1
    | (Err e, _) =>
      tx_store.Store tickNumber transactions s =
      (Err (Wrap (Wrap e "storing tick transactions") "storing tick transactions"), s)
    end
  | Err e =>
    tx_store.Store tickNumber transactions s =
    (Err (Wrap (Wrap e "converting to proto") "storing tick transactions"), s)
  end.
Proof.
  unfold tx_store.Store.
  destruct (tx.qubicToProto transactions) as [protoModel|e] eqn:Eproto.
  - destruct (store.SetTransactions protoModel s) as [[[]|e] s1] eqn:Eset.
    + pose proof (qubicToProto_ok _ _ Eproto) as Hall.
      pose proof (removeNonTransferTransactionsAndConvert_total _ Hall) as Htransfer.
      pose proof (removeNonTransactionWithAssetPayloadsAndConvert_total _ Hall) as Hasset.
      destruct (tx.removeNonTransferTransactionsAndConvert transactions) as [ps|] eqn:Eps;
        [|discriminate Htransfer].
      destruct (tx.removeNonTransactionWithAssetPayloadsAndConvert transactions)
        as [parsed|] eqn:Eparsed; [|discriminate Hasset].
      destruct (createIdentityMap_loop_total parsed ∅
                  (removeNonTransactionWithAssetPayloadsAndConvert_found _ _ Eparsed))
        as [identityMap Hmap].
      eexists. split.
      * unfold mbind, wrapM, tx_store.storeTickTransactions,
          tx_store.storeTransferTransactions, tx_store.StoreAssetTransactions,
          mbind, wrapM, lift, modify.
        rewrite Eproto. cbn [wrapping]. rewrite Eset, Eps, Eparsed. cbn [wrapping].
        unfold tx.createTransferTransactionsIdentityMap, tx.createIdentityMap.
        rewrite Hmap. cbn [wrapping]. reflexivity.
      * match goal with
        | |- store.tickTx (store.PutAssetTransactionsPerTickBatch _ _ (map_fold ?f ?s0 ?m)) = _ =>
          destruct (PutTransferTransactionsPerTick_fold_any tickNumber m s0 "" 0) as [Hframe _]
        end.
        cbv zeta in Hframe.
        cbn [store.PutAssetTransactionsPerTickBatch store.with_qxIdentityAssetTransfers
             store.tickTx].
        match type of Hframe with
        | store.with_identityTransferTxs ?g ?s' = _ =>
          change (store.tickTx s') with (store.tickTx (store.with_identityTransferTxs g s'))
        end.
        now rewrite Hframe.
    + assert (Hs1 : s1 = s).
      { unfold store.SetTransactions in Eset.
        destruct (store.SetTransactions_batch protoModel); [discriminate Eset|].
        now injection Eset as _ <-. }
      subst s1.
      unfold mbind, wrapM, tx_store.storeTickTransactions, mbind, wrapM, lift.
      rewrite Eproto. cbn [wrapping]. rewrite Eset. reflexivity.
  - unfold mbind, wrapM, tx_store.storeTickTransactions, mbind, wrapM, lift.
    rewrite Eproto. reflexivity.
Qed.

End StoreTotal.

Lemma Store_all_or_nothing_witness :
  let t := examples.transaction examples.alice examples.bob 100 0 [] x01 in
  let short :=
    {| types.Transaction.SourcePublicKey := examples.alice;
       types.Transaction.DestinationPublicKey := examples.bob;
       types.Transaction.Amount := 100;
       types.Transaction.Tick := 7;
       types.Transaction.InputType := 0;
       types.Transaction.InputSize := 0;
       types.Transaction.Input := [];
       types.Transaction.Signature := [x02] |} in
  (exists s',
     tx_store.Store (codec := examples.digestKeys) 7 [t] store.empty = (Ok tt, s') /\
     is_Some (store.tickTx s' !! replicate 32 x01)) /\
  tx_store.Store (codec := examples.digestKeys) 7 [t; short] store.empty =
  (Err (Wrap (Wrap (Wrap (New "invalid transaction id") "creating tx key for id: %s")
                   "storing tick transactions") "storing tick transactions"),
   store.empty).
Proof.
  intros t short. split.
  - pose proof (Store_all_or_nothing (codec := examples.digestKeys) 7 [t] store.empty)
      as Hrun.
    destruct (tx.qubicToProto [t]) as [protoModel|] eqn:Eproto;
      [|vm_compute in Eproto; discriminate Eproto].
    destruct (store.SetTransactions protoModel store.empty) as [[[]|] s1] eqn:Eset;
      [|vm_compute in Eproto; apply Ok_inj in Eproto; subst protoModel;
        vm_compute in Eset; discriminate Eset].
    destruct Hrun as (s' & Hrun & Htx). exists s'. split; [exact Hrun|].
    rewrite Htx. vm_compute in Eproto. apply Ok_inj in Eproto. subst protoModel.
    vm_compute in Eset. injection Eset as <-. vm_compute. eauto.
  - exact (Store_all_or_nothing (codec := examples.digestKeys) 7 [t; short] store.empty).
Defined.
